(** * The voice controller of [controlcentre.py]

    A shallow embedding of the orchestrator: the text helpers it takes from
    Python's [str], the command interpreter [parse_start_stop_command], the
    fallback wake gate [listen_for_wakeword_fallback], and the process
    registry ([start_subprocess_module], [stop_subprocess_module]) over an
    explicit model of the operating system's answers.

    Console output ([print]) and [time.sleep] are left out: no function
    modelled here reads them back. *)

From Stdlib Require Import ZArith Ascii String Bool List Lia.
From stdpp Require Import base gmap strings list.

Open Scope string_scope.

(** ** Python [str] operations

    Text is a sequence of code points below 256.  On that range [lower],
    [strip] and the [in] operator are written out as CPython computes them. *)

Module PyStr.

(** Code points with an upper-case form: A..Z, and U+00C0..U+00DE
    without the multiplication sign U+00D7. *)
Definition is_upper (c : ascii) : bool :=
  let n := nat_of_ascii c in
  (((65 <=? n) && (n <=? 90))
   || ((192 <=? n) && (n <=? 222) && negb (n =? 215)))%nat.

Definition lower_char (c : ascii) : ascii :=
  if is_upper c then ascii_of_nat (nat_of_ascii c + 32) else c.

(** [s.lower()] *)
Fixpoint lower (s : string) : string :=
  match s with
  | "" => ""
  | String c s' => String (lower_char c) (lower s')
  end.

(** [c.isspace()]: TAB..CR, FS..US, SPACE, NEL and NBSP. *)
Definition isspace (c : ascii) : bool :=
  let n := nat_of_ascii c in
  (((9 <=? n) && (n <=? 13)) || ((28 <=? n) && (n <=? 32))
   || (n =? 133) || (n =? 160))%nat.

Fixpoint lstrip (s : string) : string :=
  match s with
  | "" => ""
  | String c s' => if isspace c then lstrip s' else s
  end.

Fixpoint rstrip (s : string) : string :=
  match s with
  | "" => ""
  | String c s' =>
      match rstrip s' with
      | "" => if isspace c then "" else String c ""
      | r => String c r
      end
  end.

(** [s.strip()] *)
Definition strip (s : string) : string := rstrip (lstrip s).

(** [s.startswith(p)] *)
Fixpoint startswith (s p : string) {struct p} : bool :=
  match p, s with
  | "", _ => true
  | String a p', String b s' => if ascii_dec a b then startswith s' p' else false
  | String _ _, "" => false
  end.

(** [s.endswith(p)] for a one-character [p]. *)
Fixpoint endswith (s p : string) : bool :=
  match s with
  | "" => false
  | String c "" => String.eqb (String c "") p
  | String _ s' => endswith s' p
  end.

(** [w in t]: [w] occurs in [t] as a contiguous run. *)
Fixpoint contains (w t : string) : bool :=
  startswith t w
  || match t with
     | "" => false
     | String _ t' => contains w t'
     end.

(** [any(w in t for w in ws)] *)
Definition any_in (ws : list string) (t : string) : bool :=
  existsb (fun w => contains w t) ws.

(** Truth value of a [str]: only the empty string is falsy. *)
Definition truthy (s : string) : bool :=
  match s with "" => false | String _ _ => true end.

End PyStr.

(** ** Command interpreter *)

Definition start_verbs : list string := ["start"; "run"; "open"; "launch"].
Definition stop_verbs : list string :=
  ["stop"; "close"; "terminate"; "quit"; "shutdown"; "end"].
Definition hand_nouns : list string := ["hand"; "servo"; "object"; "finger"].

(** [parse_start_stop_command(text)]: the pair (action, target), each a
    Python string or [None]. *)
Definition parse_start_stop_command (text : string)
  : option string * option string :=
  if negb (PyStr.truthy text) then (None, None)
  else
    let t := PyStr.lower text in
    let action : option string := None in
    let action :=
      if PyStr.any_in start_verbs t then Some "start" else action in
    let action :=
      if PyStr.any_in stop_verbs t then Some "stop" else action in
    let target : option string :=
      if PyStr.contains "chat" t || PyStr.contains "assistant" t
         || PyStr.contains "bot" t
      then Some "chatbot"
      else if PyStr.contains "face" t || PyStr.contains "recognize" t
              || PyStr.contains "recognition" t
      then Some "face"
      else if PyStr.any_in hand_nouns t then Some "hand"
      else None in
    if PyStr.contains "status" t then (Some "status", None)
    else (action, target).

(** ** Wake gate *)

(** Exceptions the controller tells apart.  [OtherException] stands for
    any further subclass of [Exception]; [KeyboardInterrupt] is a
    [BaseException] that [except Exception] lets through. *)
Inductive exn : Type :=
| TypeError
| OSError
| TimeoutExpired
| OtherException
| KeyboardInterrupt.

Definition is_Exception (e : exn) : bool :=
  match e with KeyboardInterrupt => false | _ => true end.

Definition is_TimeoutExpired (e : exn) : bool :=
  match e with TimeoutExpired => true | _ => false end.

(** What a call does: it returns a value or raises. *)
Inductive result (A : Type) : Type :=
| Ret (a : A)
| Raise (e : exn).
Arguments Ret {A} a.
Arguments Raise {A} e.

(** The test of line 144:
    [txt == wakeword or txt.startswith(wakeword + " ")]. *)
Definition wake_match (wakeword txt : string) : bool :=
  String.eqb txt wakeword || PyStr.startswith txt (wakeword +:+ " ").

(** [max_attempts is not None and attempts >= max_attempts] *)
Definition budget_spent (max_attempts : option Z) (attempts : Z) : bool :=
  match max_attempts with
  | Some m => (m <=? attempts)%Z
  | None => false
  end.

(** Lines 142-149 for one answer [text] of the listen primitive; [continue]
    is the rest of the loop. *)
Definition wake_body (wakeword : string) (text : option string)
    (continue : option (result bool)) : option (result bool) :=
  match text with
  | Some s =>
      if PyStr.truthy s then
        let txt := PyStr.strip (PyStr.lower s) in
        if wake_match wakeword txt then Some (Ret true) else continue
      else continue
  | None => continue
  end.

(** The [while True] loop of [listen_for_wakeword_fallback].  [answers] are
    the outcomes of the successive calls of [dynamicbot.listen]; the loop
    is still listening ([None]) when they are used up. *)
Fixpoint wake_loop (wakeword : string) (max_attempts : option Z)
    (attempts : Z) (answers : list (result (option string)))
    {struct answers} : option (result bool) :=
  if budget_spent max_attempts attempts then Some (Ret false)
  else
    let attempts := (attempts + 1)%Z in
    match answers with
    | [] => None
    | Ret text :: rest =>
        wake_body wakeword text (wake_loop wakeword max_attempts attempts rest)
    | Raise TypeError :: rest =>
        (* except TypeError: text = dynamicbot.listen() *)
        match rest with
        | [] => None
        | Ret text :: rest' =>
            wake_body wakeword text
              (wake_loop wakeword max_attempts attempts rest')
        | Raise e :: _ => Some (Raise e)
        end
    | Raise e :: rest =>
        if is_Exception e then
          wake_body wakeword None
            (wake_loop wakeword max_attempts attempts rest)
        else Some (Raise e)
    end.

(** [listen_for_wakeword_fallback(wakeword, max_attempts)]; [has_listen]
    tells whether [dynamicbot.listen] is there. *)
Definition listen_for_wakeword_fallback (has_listen : bool)
    (wakeword : string) (max_attempts : option Z)
    (answers : list (result (option string))) : option (result bool) :=
  if negb has_listen then Some (Ret false)
  else wake_loop wakeword max_attempts 0 answers.

(** ** Process registry *)

(** The four entries of the module table. *)
Definition MODULE_NAMES : gmap string string :=
  {[ "face" := "facerecognition.py";
     "hand" := "objectdetection.py";
     "object" := "objectdetection.py";
     "servo" := "objectdetection.py" ]}.

(** A child process as the controller sees it: what [poll()] answers
    ([None] while the child has not exited) and what the operating system
    answers to [terminate()], [wait(timeout=2.0)] and [kill()]. *)
Record process : Type := mkProcess {
  returncode : option Z;
  on_terminate : result unit;
  on_wait : result Z;
  on_kill : result unit
}.

(** A [Popen] object is known by its place in the store of processes. *)
Definition handle : Type := nat.

Inductive event : Type :=
| EvPopen (argv : list string) (cwd : string) (spawned : option handle)
| EvTerminate (h : handle)
| EvWait (h : handle)
| EvKill (h : handle).

(** The state the registry functions read and write: the module constants,
    the files on disk, the operating system's answers to the successive
    [Popen] calls, the store of [Popen] objects, the dictionary
    [running_procs], and the process operations performed so far. *)
Record world : Type := mkWorld {
  BASE_DIR : string;
  PYTHON_EXE : string;
  files : gset string;
  popen_answer : nat -> result process;
  popen_calls : nat;
  procs : list process;
  running_procs : gmap string handle;
  trace : list event
}.

Definition set_procs (ps : list process) (w : world) : world :=
  mkWorld (BASE_DIR w) (PYTHON_EXE w) (files w) (popen_answer w)
    (popen_calls w) ps (running_procs w) (trace w).

Definition set_running_procs (r : gmap string handle) (w : world) : world :=
  mkWorld (BASE_DIR w) (PYTHON_EXE w) (files w) (popen_answer w)
    (popen_calls w) (procs w) r (trace w).

Definition set_popen_calls (n : nat) (w : world) : world :=
  mkWorld (BASE_DIR w) (PYTHON_EXE w) (files w) (popen_answer w)
    n (procs w) (running_procs w) (trace w).

Definition log (e : event) (w : world) : world :=
  mkWorld (BASE_DIR w) (PYTHON_EXE w) (files w) (popen_answer w)
    (popen_calls w) (procs w) (running_procs w) (trace w ++ [e]).

(** Computations over the world that return or raise. *)
Definition M (A : Type) : Type := world -> result A * world.

Definition ret {A : Type} (a : A) : M A := fun w => (Ret a, w).

Definition bind {A B : Type} (m : M A) (k : A -> M B) : M B :=
  fun w =>
    match m w with
    | (Ret a, w') => k a w'
    | (Raise e, w') => (Raise e, w')
    end.

Definition gets {A : Type} (f : world -> A) : M A := fun w => (Ret (f w), w).

Definition modify (f : world -> world) : M unit := fun w => (Ret tt, f w).

Definition lift {A : Type} (r : result A) : M A := fun w => (r, w).

(** [try: body / except C: handler], [catches] deciding membership in [C]. *)
Definition try_except {A : Type} (body : M A) (catches : exn -> bool)
    (handler : exn -> M A) : M A :=
  fun w =>
    match body w with
    | (Raise e, w') => if catches e then handler e w' else (Raise e, w')
    | r => r
    end.

Declare Scope py_scope.
Delimit Scope py_scope with py.
Notation "x <- m ;; k" := (bind m (fun x => k))
  (at level 100, m at next level, right associativity) : py_scope.
Notation "m ;;; k" := (bind m (fun _ => k))
  (at level 100, right associativity) : py_scope.
Open Scope py_scope.

(** A process that has exited; it stands for a handle outside the store,
    which no run of the controller produces. *)
Definition gone : process :=
  mkProcess (Some 0%Z) (Ret tt) (Ret 0%Z) (Ret tt).

Definition proc_of (w : world) (h : handle) : process :=
  default gone (procs w !! h).

Definition set_returncode (h : handle) (code : Z) (w : world) : world :=
  let p := proc_of w h in
  set_procs
    (<[h := mkProcess (Some code) (on_terminate p) (on_wait p) (on_kill p)]>
       (procs w)) w.

(** [proc.poll()] *)
Definition poll (h : handle) : M (option Z) :=
  gets (fun w => returncode (proc_of w h)).

(** [proc.terminate()] *)
Definition terminate (h : handle) : M unit :=
  modify (log (EvTerminate h)) ;;;
  r <- gets (fun w => on_terminate (proc_of w h)) ;;
  lift r.

(** [proc.wait(timeout=2.0)]: the exit status, or [TimeoutExpired]. *)
Definition wait (h : handle) : M Z :=
  modify (log (EvWait h)) ;;;
  r <- gets (fun w => on_wait (proc_of w h)) ;;
  match r with
  | Ret code => modify (set_returncode h code) ;;; ret code
  | Raise e => lift (Raise e)
  end.

(** [proc.kill()]: the signal is sent.  The call does not wait for the
    child, so the [Popen] object keeps the [returncode] it had. *)
Definition kill (h : handle) : M unit :=
  modify (log (EvKill h)) ;;;
  r <- gets (fun w => on_kill (proc_of w h)) ;;
  lift r.

(** [subprocess.Popen(argv, cwd=cwd)] *)
Definition Popen (argv : list string) (cwd : string) : M handle :=
  n <- gets popen_calls ;;
  modify (set_popen_calls (S n)) ;;;
  r <- gets (fun w => popen_answer w n) ;;
  match r with
  | Ret p =>
      h <- gets (fun w => length (procs w)) ;;
      modify (fun w => log (EvPopen argv cwd (Some h))
                         (set_procs (procs w ++ [p]) w)) ;;;
      ret h
  | Raise e =>
      modify (log (EvPopen argv cwd None)) ;;;
      lift (Raise e)
  end.

(** [os.path.join(a, b)] on POSIX. *)
Definition os_path_join (a b : string) : string :=
  if PyStr.startswith b "/" then b
  else if negb (PyStr.truthy a) || PyStr.endswith a "/" then a +:+ b
  else a +:+ "/" +:+ b.

(** [os.path.exists(path)] *)
Definition os_path_exists (path : string) : M bool :=
  gets (fun w => bool_decide (path ∈ files w)).

(** [start_subprocess_module(key)].  A [Popen] object is truthy, so
    [proc and proc.poll() is None] asks for a registered handle whose
    [poll()] answers [None]. *)
Definition start_subprocess_module (key : string) : M (option handle) :=
  let key_lower := PyStr.lower key in
  match MODULE_NAMES !! key_lower with
  | None => ret None
  | Some script =>
      if negb (PyStr.truthy script) then ret None
      else
        base <- gets BASE_DIR ;;
        let script_path := os_path_join base script in
        found <- os_path_exists script_path ;;
        if negb found then ret None
        else
          let spawn : M (option handle) :=
            try_except
              (exe <- gets PYTHON_EXE ;;
               p <- Popen [exe; script_path] base ;;
               modify (fun w =>
                 set_running_procs (<[key_lower := p]> (running_procs w)) w) ;;;
               ret (Some p))
              is_Exception
              (fun _ => ret None) in
          proc <- gets (fun w => running_procs w !! key_lower) ;;
          match proc with
          | Some h =>
              rc <- poll h ;;
              match rc with
              | None => ret (Some h)
              | Some _ => spawn
              end
          | None => spawn
          end
  end.

(** [stop_subprocess_module(key)].  [early] is the value of a [return]
    taken inside the [try] statement, if any. *)
Definition stop_subprocess_module (key : string) : M bool :=
  let key_lower := PyStr.lower key in
  proc <- gets (fun w => running_procs w !! key_lower) ;;
  match proc with
  | None => ret false
  | Some h =>
      rc <- poll h ;;
      early <-
        match rc with
        | None =>
            try_except
              (terminate h ;;;
               try_except
                 (wait h ;;; ret tt)
                 is_TimeoutExpired
                 (fun _ => kill h) ;;;
               ret None)
              is_Exception
              (fun _ => ret (Some false))
        | Some _ => ret None
        end ;;
      match early with
      | Some b => ret b
      | None =>
          modify (fun w =>
            set_running_procs (delete key_lower (running_procs w)) w) ;;;
          ret true
      end
  end.

(** The state reported for key [k] by the status branch of
    [main_voice_controller]:
    ["running" if p and p.poll() is None else "stopped"]. *)
Definition status (k : string) : M string :=
  p <- gets (fun w => running_procs w !! k) ;;
  match p with
  | Some h =>
      rc <- poll h ;;
      match rc with
      | None => ret "running"
      | Some _ => ret "stopped"
      end
  | None => ret "stopped"
  end.

(** ** Vocabulary of the statements *)

(** [w] occurs in the lower-cased text: the test the interpreter makes. *)
Definition occurs (w text : string) : Prop :=
  PyStr.contains w (PyStr.lower text) = true.

Definition has_start_verb (text : string) : Prop :=
  exists v, In v start_verbs /\ occurs v text.

Definition has_stop_verb (text : string) : Prop :=
  exists v, In v stop_verbs /\ occurs v text.

Definition has_action_verb (text : string) : Prop :=
  has_start_verb text \/ has_stop_verb text.

Definition has_chatbot_noun (text : string) : Prop :=
  occurs "chat" text \/ occurs "assistant" text \/ occurs "bot" text.

Definition has_face_noun (text : string) : Prop :=
  occurs "face" text \/ occurs "recognize" text \/ occurs "recognition" text.

Definition has_hand_noun (text : string) : Prop :=
  exists n, In n hand_nouns /\ occurs n text.

Definition has_target_noun (text : string) : Prop :=
  has_chatbot_noun text \/ has_face_noun text \/ has_hand_noun text.

(** The feature of [key] has a script and the script is on disk. *)
Definition script_on_disk (key : string) (w : world) : Prop :=
  exists script,
    MODULE_NAMES !! PyStr.lower key = Some script
    /\ os_path_join (BASE_DIR w) script ∈ files w.

(** The feature of [key] has a script and the script is not on disk. *)
Definition script_missing (key : string) (w : world) : Prop :=
  exists script,
    MODULE_NAMES !! PyStr.lower key = Some script
    /\ os_path_join (BASE_DIR w) script ∉ files w.

(** The liveness probe of handle [h]: [poll()] answers [None]. *)
Definition alive (h : handle) (w : world) : Prop :=
  returncode (proc_of w h) = None.

(** Some handle is registered under [k] and its process has not exited. *)
Definition live (k : string) (w : world) : Prop :=
  exists h, running_procs w !! k = Some h /\ alive h w.

(** The world after a spawn for registry key [k] answered with process [p]. *)
Definition spawned (k : string) (argv : list string) (p : process)
    (w : world) : world :=
  let h := length (procs w) in
  set_running_procs (<[k := h]> (running_procs w))
    (log (EvPopen argv (BASE_DIR w) (Some h))
       (set_procs (procs w ++ [p]) (set_popen_calls (S (popen_calls w)) w))).

(** The world after a spawn that raised. *)
Definition spawn_refused (argv : list string) (w : world) : world :=
  log (EvPopen argv (BASE_DIR w) None)
    (set_popen_calls (S (popen_calls w)) w).

(** The call of [start_subprocess_module] made a spawn, and the operating
    system answered it by raising [e]. *)
Definition spawn_failed (e : exn) (key : string) (w : world) : Prop :=
  popen_calls (snd (start_subprocess_module key w)) = S (popen_calls w)
  /\ popen_answer w (popen_calls w) = Raise e.

(** The world with the registry entry of [k] popped. *)
Definition unregistered (k : string) (w : world) : world :=
  set_running_procs (delete k (running_procs w)) w.

(** Every registered handle is a [Popen] object of the store, under a key
    of the module table. *)
Definition registry_ok (w : world) : Prop :=
  forall k h,
    running_procs w !! k = Some h ->
    h < length (procs w) /\ is_Some (MODULE_NAMES !! k).

(** ** Sample worlds *)

(** The module state at import time, for a given disk and operating
    system: nothing spawned, nothing registered. *)
Definition boot (base exe : string) (disk : gset string)
    (answer : nat -> result process) : world :=
  mkWorld base exe disk answer 0 [] ∅ [].

(** The same world after the disk changed to [disk]. *)
Definition with_files (disk : gset string) (w : world) : world :=
  mkWorld (BASE_DIR w) (PYTHON_EXE w) disk (popen_answer w)
    (popen_calls w) (procs w) (running_procs w) (trace w).

Definition bot_disk : gset string :=
  {[ "/bot/facerecognition.py"; "/bot/objectdetection.py" ]}.

(** A child that runs until it is told to stop. *)
Definition child : process :=
  mkProcess None (Ret tt) (Ret (-15)%Z) (Ret tt).

(** A child that has already exited with status 0. *)
Definition exited_child : process :=
  mkProcess (Some 0%Z) (Ret tt) (Ret 0%Z) (Ret tt).

(** A child that outlasts the grace period. *)
Definition slow_child : process :=
  mkProcess None (Ret tt) (Raise TimeoutExpired) (Ret tt).

(** A child for which [terminate()] raises, as for a process the
    controller may not signal. *)
Definition unstoppable : process :=
  mkProcess None (Raise OSError) (Ret 0%Z) (Ret tt).

(** ** Runs of the registry *)

(** The registry maps distinct keys to distinct [Popen] objects. *)
Definition registry_inj (w : world) : Prop :=
  forall k1 k2 h,
    running_procs w !! k1 = Some h ->
    running_procs w !! k2 = Some h -> k1 = k2.

(** What can happen to the world between two looks at it: a call of one of
    the two registry functions, a child exiting on its own, or a change of
    the disk. *)
Inductive step : world -> world -> Prop :=
| step_start (key : string) (w : world) :
    step w (snd (start_subprocess_module key w))
| step_stop (key : string) (w : world) :
    step w (snd (stop_subprocess_module key w))
| step_exit (h : handle) (code : Z) (w : world) :
    step w (set_returncode h code w)
| step_disk (disk : gset string) (w : world) :
    step w (with_files disk w).

Inductive reachable : world -> Prop :=
| reach_boot (base exe : string) (disk : gset string)
    (answer : nat -> result process) :
    reachable (boot base exe disk answer)
| reach_step (w w' : world) :
    reachable w -> step w w' -> reachable w'.

(** [e] is a process operation on handle [h]. *)
Definition signals (h : handle) (e : event) : Prop :=
  e = EvTerminate h \/ e = EvWait h \/ e = EvKill h.

Definition is_spawn (e : event) : Prop :=
  exists argv cwd r, e = EvPopen argv cwd r.

(** Every way through [stop_subprocess_module]: the result, and the world
    it leaves, as a function of what is registered and what the operating
    system answers. *)
Inductive stop_path (key : string) (w : world)
  : result bool -> world -> Prop :=
| path_not_registered :
    running_procs w !! PyStr.lower key = None ->
    stop_path key w (Ret false) w
| path_exited (h : handle) :
    running_procs w !! PyStr.lower key = Some h ->
    ~ alive h w ->
    stop_path key w (Ret true) (unregistered (PyStr.lower key) w)
| path_terminate_raises (h : handle) (e : exn) :
    running_procs w !! PyStr.lower key = Some h ->
    alive h w ->
    on_terminate (proc_of w h) = Raise e ->
    stop_path key w (if is_Exception e then Ret false else Raise e)
      (log (EvTerminate h) w)
| path_waited (h : handle) (code : Z) :
    running_procs w !! PyStr.lower key = Some h ->
    alive h w ->
    on_terminate (proc_of w h) = Ret tt ->
    on_wait (proc_of w h) = Ret code ->
    stop_path key w (Ret true)
      (unregistered (PyStr.lower key)
         (set_returncode h code (log (EvWait h) (log (EvTerminate h) w))))
| path_wait_raises (h : handle) (e : exn) :
    running_procs w !! PyStr.lower key = Some h ->
    alive h w ->
    on_terminate (proc_of w h) = Ret tt ->
    on_wait (proc_of w h) = Raise e ->
    is_TimeoutExpired e = false ->
    stop_path key w (if is_Exception e then Ret false else Raise e)
      (log (EvWait h) (log (EvTerminate h) w))
| path_killed (h : handle) :
    running_procs w !! PyStr.lower key = Some h ->
    alive h w ->
    on_terminate (proc_of w h) = Ret tt ->
    on_wait (proc_of w h) = Raise TimeoutExpired ->
    on_kill (proc_of w h) = Ret tt ->
    stop_path key w (Ret true)
      (unregistered (PyStr.lower key)
         (log (EvKill h) (log (EvWait h) (log (EvTerminate h) w))))
| path_kill_raises (h : handle) (e : exn) :
    running_procs w !! PyStr.lower key = Some h ->
    alive h w ->
    on_terminate (proc_of w h) = Ret tt ->
    on_wait (proc_of w h) = Raise TimeoutExpired ->
    on_kill (proc_of w h) = Raise e ->
    stop_path key w (if is_Exception e then Ret false else Raise e)
      (log (EvKill h) (log (EvWait h) (log (EvTerminate h) w))).


(** One of the termination steps taken for process [p] raises [e]:
    [terminate()], or [wait(timeout=2.0)] with something other than
    [TimeoutExpired], or [kill()] after the grace period ran out. *)
Definition termination_raises (p : process) (e : exn) : Prop :=
  on_terminate p = Raise e
  \/ (on_terminate p = Ret tt /\ on_wait p = Raise e
      /\ is_TimeoutExpired e = false)
  \/ (on_terminate p = Ret tt /\ on_wait p = Raise TimeoutExpired
      /\ on_kill p = Raise e).


(** ** Answers the wake loop passes over *)

(** An answer of the listen primitive that lets the loop go on: silence, an
    empty text, a text that fails the wake test, or an [Exception] other
    than [TypeError]. *)
Definition ignored (wakeword : string) (a : result (option string)) : Prop :=
  match a with
  | Ret None => True
  | Ret (Some s) =>
      PyStr.truthy s = false
      \/ wake_match wakeword (PyStr.strip (PyStr.lower s)) = false
  | Raise e => is_Exception e = true /\ e <> TypeError
  end.

(** A heard text that passes the wake test. *)
Definition wakes (wakeword text : string) : Prop :=
  PyStr.truthy text = true
  /\ wake_match wakeword (PyStr.strip (PyStr.lower text)) = true.

(** The answers taken up by the round of the loop in which [text] is
    heard: the answer of [listen(timeout=2, phrase_time_limit=2)], or a
    [TypeError] from it followed by the answer of the plain [listen()] of
    line 138. *)
Definition hearing (retry : bool) (text : string)
  : list (result (option string)) :=
  if retry then [Raise TypeError; Ret (Some text)] else [Ret (Some text)].

(** [passed_over wakeword answers n]: the [answers] make up [n] rounds of
    the loop, none of which ends it.  A round takes up an ignored answer,
    or a [TypeError] and then an ignored answer of the retry. *)
Inductive passed_over (wakeword : string)
  : list (result (option string)) -> nat -> Prop :=
| passed_none : passed_over wakeword [] 0
| passed_answer (a : result (option string))
    (rest : list (result (option string))) (n : nat) :
    ignored wakeword a ->
    passed_over wakeword rest n ->
    passed_over wakeword (a :: rest) (S n)
| passed_retry (text : option string)
    (rest : list (result (option string))) (n : nat) :
    ignored wakeword (Ret text) ->
    passed_over wakeword rest n ->
    passed_over wakeword (Raise TypeError :: Ret text :: rest) (S n).

(** ** Keywords *)

(** [w] is not empty and does not start with white space. *)
Definition solid (w : string) : bool :=
  match w with
  | "" => false
  | String c _ => negb (PyStr.isspace c)
  end.

(** [w] does not end with white space. *)
Fixpoint ends_solid (w : string) : bool :=
  match w with
  | "" => true
  | String c "" => negb (PyStr.isspace c)
  | String _ w' => ends_solid w'
  end.


(** ** The voice controller

    The module [dynamicbot] is an optional collaborator: the controller
    probes it with [hasattr] and calls into it.  Its calls are answered by
    the environment: [ext c n] is the outcome of the [n]-th call made into
    the module (for [speak], [detector.listen] and [bot_main] only the
    fact that it returns or raises matters; for [listen] the value is the
    text heard; for [WakeWordDetector()] it is the detector, [None] when
    the call returns [None]), and [asides c n] is what the module says to
    the operator of its own accord during that call, as [listen] does
    when the recognition service cannot be reached and as [bot_main] does
    all along.  Of the console output only the fallback line of
    [safe_speak] is kept: it carries the message. *)

(** The attributes of [dynamicbot] the controller asks for. *)
Record bot : Type := mkBot {
  attr_speak : bool;
  attr_listen : bool;
  attr_WakeWordDetector : bool;
  attr_bot_main : bool
}.

(** What the operator is told: a message the controller had
    [dynamicbot.speak] say, a line the controller printed, or something
    [dynamicbot] said of its own accord inside one of its calls. *)
Inductive output : Type :=
| Spoken (text : string)
| Printed (line : string)
| Aside (text : string).

(** The state of the controller: the world of the registry, the module
    [dynamicbot] ([None] when the import failed), the environment variable
    [WAKEWORD], the answers of the calls into [dynamicbot], what the module
    says by itself during each call and the number of calls made, what a
    blocking [proc.wait()] on a handle ends with ([None]: it never
    returns), the iteration orders of [set(MODULE_NAMES.keys())] and of
    [list(running_procs.keys())], and what the operator has been told so
    far. *)
Record controller : Type := mkController {
  os : world;
  dynamicbot : option bot;
  WAKEWORD_env : option string;
  ext : nat -> result (option string);
  asides : nat -> list string;
  ticks : nat;
  child_exit : handle -> option (result Z);
  status_order : list string;
  sweep_order : gmap string handle -> list string;
  outputs : list output
}.

(** [os.getenv("WAKEWORD", "jarvis").lower()] *)
Definition WAKEWORD (c : controller) : string :=
  PyStr.lower (default "jarvis" (WAKEWORD_env c)).

Definition set_os (w : world) (c : controller) : controller :=
  mkController w (dynamicbot c) (WAKEWORD_env c) (ext c) (asides c) (ticks c)
    (child_exit c) (status_order c) (sweep_order c) (outputs c).

Definition set_ticks (n : nat) (c : controller) : controller :=
  mkController (os c) (dynamicbot c) (WAKEWORD_env c) (ext c) (asides c) n
    (child_exit c) (status_order c) (sweep_order c) (outputs c).

Definition tell (o : output) (c : controller) : controller :=
  mkController (os c) (dynamicbot c) (WAKEWORD_env c) (ext c) (asides c)
    (ticks c) (child_exit c) (status_order c) (sweep_order c)
    (outputs c ++ [o]).

(** The module says what it has to say during the call now made. *)
Definition say_asides (c : controller) : controller :=
  mkController (os c) (dynamicbot c) (WAKEWORD_env c) (ext c) (asides c)
    (ticks c) (child_exit c) (status_order c) (sweep_order c)
    (outputs c ++ map Aside (asides c (ticks c))).

(** Computations of the controller: they return, raise, or do not come
    back ([None]). *)
Definition C (A : Type) : Type :=
  controller -> option (result A * controller).

Definition cret {A : Type} (a : A) : C A := fun c => Some (Ret a, c).

Definition cbind {A B : Type} (m : C A) (k : A -> C B) : C B :=
  fun c =>
    match m c with
    | Some (Ret a, c') => k a c'
    | Some (Raise e, c') => Some (Raise e, c')
    | None => None
    end.

Definition cgets {A : Type} (f : controller -> A) : C A :=
  fun c => Some (Ret (f c), c).

Definition cmodify (f : controller -> controller) : C unit :=
  fun c => Some (Ret tt, f c).

Definition never {A : Type} : C A := fun _ => None.

(** A registry function run on the controller's world. *)
Definition lift_os {A : Type} (m : M A) : C A :=
  fun c => let (r, w') := m (os c) in Some (r, set_os w' c).

(** [try: body / except C: handler] *)
Definition ctry {A : Type} (body : C A) (catches : exn -> bool)
    (handler : exn -> C A) : C A :=
  fun c =>
    match body c with
    | Some (Raise e, c') => if catches e then handler e c' else Some (Raise e, c')
    | r => r
    end.

(** [try: body / except C1: h1 / except C2: h2]: the first clause that
    matches handles the exception. *)
Definition ctry2 {A : Type} (body : C A) (catches1 : exn -> bool)
    (handler1 : exn -> C A) (catches2 : exn -> bool)
    (handler2 : exn -> C A) : C A :=
  fun c =>
    match body c with
    | Some (Raise e, c') =>
        if catches1 e then handler1 e c'
        else if catches2 e then handler2 e c'
        else Some (Raise e, c')
    | r => r
    end.

(** [try: body / finally: final] *)
Definition try_finally {A : Type} (body : C A) (final : C unit) : C A :=
  fun c =>
    match body c with
    | Some (r, c') =>
        match final c' with
        | Some (Ret _, c'') => Some (r, c'')
        | Some (Raise e, c'') => Some (Raise e, c'')
        | None => None
        end
    | None => None
    end.

Declare Scope ctl_scope.
Delimit Scope ctl_scope with ctl.
Notation "x <- m ;; k" := (cbind m (fun x => k))
  (at level 100, m at next level, right associativity) : ctl_scope.
Notation "m ;;; k" := (cbind m (fun _ => k))
  (at level 100, right associativity) : ctl_scope.

Definition is_TypeError (e : exn) : bool :=
  match e with TypeError => true | _ => false end.

Definition is_KeyboardInterrupt (e : exn) : bool :=
  match e with KeyboardInterrupt => true | _ => false end.

(** [dynamicbot is not None and hasattr(dynamicbot, attr)] *)
Definition hasattr (attr : bot -> bool) (c : controller) : bool :=
  match dynamicbot c with
  | Some b => attr b
  | None => false
  end.

(** The environment's next answer. *)
Definition answer : C (option string) :=
  fun c => Some (ext c (ticks c), set_ticks (S (ticks c)) c).

(** A call of [dynamicbot.listen], [dynamicbot.WakeWordDetector],
    [detector.listen] or [dynamicbot.bot_main]: the module says what it has
    to say, and the call ends with the environment's answer. *)
Definition external : C (option string) :=
  fun c => answer (say_asides c).

(** [dynamicbot.speak(text)]: the text is said when the call returns. *)
Definition dynamicbot_speak (text : string) : C unit :=
  (answer ;;; cmodify (tell (Spoken text)))%ctl.

(** [x is not None] *)
Definition is_not_None {A : Type} (x : option A) : bool :=
  match x with
  | Some _ => true
  | None => false
  end.

(** [safe_speak(text)] *)
Definition safe_speak (text : string) : C unit :=
  (can <- cgets (hasattr attr_speak) ;;
   spoken <-
     (if can then
        ctry (dynamicbot_speak text ;;; cret true)
          is_Exception
          (fun _ => cret false)
      else cret false) ;;
   if spoken then cret tt
   else cmodify (tell (Printed ("BOT: " +:+ text))))%ctl.

(** [listen_for_wakeword_with_detector(detector)] *)
Definition listen_for_wakeword_with_detector : C bool :=
  ctry (external ;;; cret true)%ctl is_Exception (fun _ => cret false).

(** The [while True] loop of [listen_for_wakeword_fallback], run against
    the environment; [fuel] bounds the number of rounds looked at. *)
Fixpoint wake_rounds (fuel : nat) (wakeword : string)
    (max_attempts : option Z) (attempts : Z) : C bool :=
  match fuel with
  | 0 => never
  | S fuel' =>
      if budget_spent max_attempts attempts then cret false
      else
        let attempts := (attempts + 1)%Z in
        (text <-
           ctry2 external
             is_TypeError (fun _ => external)
             is_Exception (fun _ => cret None) ;;
         match text with
         | Some s =>
             if PyStr.truthy s then
               let txt := PyStr.strip (PyStr.lower s) in
               if wake_match wakeword txt then cret true
               else wake_rounds fuel' wakeword max_attempts attempts
             else wake_rounds fuel' wakeword max_attempts attempts
         | None => wake_rounds fuel' wakeword max_attempts attempts
         end)%ctl
  end.

(** [listen_for_wakeword_fallback(wakeword, max_attempts)] inside the
    controller. *)
Definition wake_fallback (fuel : nat) (wakeword : string)
    (max_attempts : option Z) : C bool :=
  (can <- cgets (hasattr attr_listen) ;;
   if negb can then cret false
   else wake_rounds fuel wakeword max_attempts 0)%ctl.

(** Lines 153-170 of [controller_listen_for_single_command]: the wake
    phase.  [used_detector] tells whether [WakeWordDetector()] was there
    and returned something other than [None].  The result is whether the
    wake word was given; an [Exception] counts as not given. *)
Definition wake_phase (fuel : nat) : C bool :=
  (can_detect <- cgets (hasattr attr_WakeWordDetector) ;;
   used_detector <-
     (if can_detect then
        ctry (detector <- external ;; cret (is_not_None detector))
          is_Exception
          (fun _ => cret false)
      else cret false) ;;
   ctry
     (if used_detector then listen_for_wakeword_with_detector
      else (ww <- cgets WAKEWORD ;; wake_fallback fuel ww None))
     is_Exception
     (fun _ => cret false))%ctl.

(** Lines 172-184: the capture of one utterance. *)
Definition capture : C (option string) :=
  (can_listen <- cgets (hasattr attr_listen) ;;
   if can_listen then
     ctry
       (ctry external is_TypeError (fun _ => external))
       is_Exception
       (fun _ => cret None)
   else cret None)%ctl.

(** [controller_listen_for_single_command()] *)
Definition controller_listen_for_single_command (fuel : nat)
  : C (option string) :=
  (ok <- wake_phase fuel ;;
   if negb ok then cret None
   else safe_speak "Yes?" ;;; capture)%ctl.

(** [proc.wait()] without a timeout: it blocks until the child has
    exited. *)
Definition wait_for_exit (h : handle) : C Z :=
  fun c =>
    let w := log (EvWait h) (os c) in
    match returncode (proc_of w h) with
    | Some code => Some (Ret code, set_os w c)
    | None =>
        match child_exit c h with
        | Some (Ret code) => Some (Ret code, set_os (set_returncode h code w) c)
        | Some (Raise e) => Some (Raise e, set_os w c)
        | None => None
        end
    end.

(** [sep.join(parts)] *)
Fixpoint str_join (sep : string) (parts : list string) : string :=
  match parts with
  | [] => ""
  | [p] => p
  | p :: rest => p +:+ sep +:+ str_join sep rest
  end.

(** The [for] loop of the status branch: one part per key. *)
Fixpoint status_parts (keys : list string) : C (list string) :=
  match keys with
  | [] => cret []
  | k :: rest =>
      (state <- lift_os (status k) ;;
       parts <- status_parts rest ;;
       cret ((k +:+ " is " +:+ state) :: parts))%ctl
  end.

Definition exit_phrases : list string :=
  ["exit controller"; "shutdown controller"; "quit controller";
   "stop controller"].

(** What an iteration of the main loop ends with. *)
Inductive flow : Type := Continue | Break.

(** [x == s] for [x] a string or [None]. *)
Definition is_str (x : option string) (s : string) : bool :=
  match x with
  | Some y => String.eqb y s
  | None => false
  end.

(** Lines 205-211: the status branch. *)
Definition report_status : C unit :=
  (order <- cgets status_order ;;
   parts <- status_parts order ;;
   safe_speak ("Status: " +:+ str_join ". " parts))%ctl.

(** Lines 216-228: starting the assistant. *)
Definition run_chatbot : C unit :=
  (safe_speak "Starting assistant." ;;;
   ctry
     (can <- cgets (hasattr attr_bot_main) ;;
      if can then external ;;; cret tt
      else safe_speak "Assistant function not found.")
     is_Exception
     (fun _ => safe_speak "Assistant crashed. Returning to controller.") ;;;
   safe_speak
     "Returned to controller. Say the wake word to give another command.")%ctl.

(** Lines 230-237: starting a feature and blocking until it exits. *)
Definition run_feature (target : string) : C unit :=
  (proc <- lift_os (start_subprocess_module target) ;;
   match proc with
   | Some h =>
       safe_speak
         ("Starting " +:+ target
          +:+ ". Controller will pause until it stops.") ;;;
       wait_for_exit h ;;;
       safe_speak (target +:+ " finished. Controller listening again.")
   | None => safe_speak ("Couldn't start " +:+ target +:+ ".")
   end)%ctl.

(** Lines 243-245: stopping a feature. *)
Definition stop_feature (target : string) : C unit :=
  (ok <- lift_os (stop_subprocess_module target) ;;
   safe_speak
     (if ok then "Stopped " +:+ target +:+ "."
      else target +:+ " was not running."))%ctl.

(** The body of the main loop from line 198 on, for a heard command. *)
Definition handle_command (heard : string) : C flow :=
  let cmd := PyStr.strip (PyStr.lower heard) in
  if PyStr.any_in exit_phrases cmd then
    (safe_speak "Controller shutting down. Goodbye." ;;; cret Break)%ctl
  else
    let (action, target) := parse_start_stop_command cmd in
    if is_str action "status" then (report_status ;;; cret Continue)%ctl
    else
      match action, target with
      | None, _ | _, None =>
          (safe_speak
             "I only listen for start or stop commands for chatbot, face, or hand." ;;;
           cret Continue)%ctl
      | Some a, Some t =>
          if String.eqb a "start" then
            if String.eqb t "chatbot" then (run_chatbot ;;; cret Continue)%ctl
            else (run_feature t ;;; cret Continue)%ctl
          else if String.eqb a "stop" then
            if String.eqb t "chatbot" then
              (safe_speak
                 "If the assistant is running, say bye to it. If you started a chatbot as a subprocess, say stop chatbot again." ;;;
               cret Continue)%ctl
            else (stop_feature t ;;; cret Continue)%ctl
          else cret Continue
      end.

(** The [while True] loop of [main_voice_controller]. *)
Fixpoint controller_loop (fuel : nat) : C unit :=
  match fuel with
  | 0 => never
  | S fuel' =>
      (cmd <- controller_listen_for_single_command fuel' ;;
       match cmd with
       | None => controller_loop fuel'
       | Some heard =>
           next <- handle_command heard ;;
           match next with
           | Continue => controller_loop fuel'
           | Break => cret tt
           end
       end)%ctl
  end.

(** The [for] loop of the [finally] clause, over a snapshot of the keys. *)
Fixpoint stop_each (keys : list string) : C unit :=
  match keys with
  | [] => cret tt
  | k :: rest =>
      (lift_os (stop_subprocess_module k) ;;; stop_each rest)%ctl
  end.

Definition stop_all : C unit :=
  (keys <- cgets (fun c => sweep_order c (running_procs (os c))) ;;
   stop_each keys)%ctl.

(** [main_voice_controller()] *)
Definition main_voice_controller (fuel : nat) : C unit :=
  (bot <- cgets dynamicbot ;;
   match bot with
   | None =>
       safe_speak
         "Controller cannot start voice mode because dynamicbot is missing."
   | Some _ =>
       ww <- cgets WAKEWORD ;;
       safe_speak
         ("Controller ready. Say the wake word '" +:+ ww
          +:+ "' and then say start or stop followed by chatbot, face, or hand.") ;;;
       try_finally
         (ctry (controller_loop fuel) is_KeyboardInterrupt
            (fun _ => cret tt))
         stop_all
   end)%ctl.

(** ** Vocabulary of the controller statements *)

(** [c'] differs from [c] at most in the world, the number of calls made
    into [dynamicbot] and what has been told: the environment is the
    same. *)
Definition same_env (c c' : controller) : Prop :=
  dynamicbot c' = dynamicbot c
  /\ WAKEWORD_env c' = WAKEWORD_env c
  /\ ext c' = ext c
  /\ child_exit c' = child_exit c
  /\ status_order c' = status_order c
  /\ sweep_order c' = sweep_order c
  /\ asides c' = asides c.

(** The message [text] as [safe_speak] prints it. *)
Definition bot_line (text : string) : output := Printed ("BOT: " +:+ text).

(** A child that can be stopped: no termination step raises, apart from
    the grace period running out. *)
Definition stoppable (p : process) : Prop :=
  on_terminate p = Ret tt
  /\ ((exists code, on_wait p = Ret code)
      \/ (on_wait p = Raise TimeoutExpired /\ on_kill p = Ret tt)).

(** Every child there is, and every child the operating system will hand
    out, can be stopped. *)
Definition all_stoppable (w : world) : Prop :=
  (forall h p, procs w !! h = Some p -> stoppable p)
  /\ (forall n p, popen_answer w n = Ret p -> stoppable p).

(** The snapshot of the keys taken by the sweep lists every registered
    key. *)
Definition sweep_covers (c : controller) : Prop :=
  forall (m : gmap string handle) (k : string),
    is_Some (m !! k) -> In k (sweep_order c m).

(** The module as [dynamicbot.py] defines it: [speak], [listen] and
    [bot_main], no wake word detector. *)
Definition the_dynamicbot : bot := mkBot true true false true.

(** [list(running_procs.keys())] for a run that inserts the keys in the
    order [inserted]: the registered keys among [inserted], in that order
    (a dictionary keeps its keys in the order of their first insertion),
    and after them the registered keys that [inserted] does not list. *)
Definition keys_in_order (inserted : list string) (m : gmap string handle)
  : list string :=
  (List.filter (fun k => bool_decide (is_Some (m !! k))) inserted
   ++ List.filter (fun k => bool_decide (k ∉ inserted)) (elements (dom m)))%list.

(** A controller at program start, for a run that registers its keys in
    the order [inserted] and in which [dynamicbot] says nothing of its own
    accord. *)
Definition fresh_controller (w : world) (b : option bot)
    (answers : nat -> result (option string))
    (exits : handle -> option (result Z)) (inserted : list string)
  : controller :=
  mkController w b None answers (fun _ => []) 0 exits
    ["face"; "hand"; "object"; "servo"]
    (keys_in_order inserted) [].

(** Answers of the environment given as a list; after the list every call
    is interrupted. *)
Definition scripted (answers : list (result (option string)))
  : nat -> result (option string) :=
  fun n => default (Raise KeyboardInterrupt) (answers !! n).

Ltac run_c :=
  unfold safe_speak, dynamicbot_speak, listen_for_wakeword_with_detector,
    external, answer, lift_os;
  unfold cbind, cret, cgets, cmodify, ctry, ctry2, try_finally, never;
  cbn beta iota zeta delta [fst snd negb].

(** Whenever [m] comes back, the states before and after are related by
    [P]. *)
Definition keeps {A : Type} (P : controller -> controller -> Prop)
    (m : C A) : Prop :=
  forall c r c', m c = Some (r, c') -> P c c'.

(** [m] raises no [Exception]. *)
Definition quiet {A : Type} (m : C A) : Prop :=
  forall c e c', m c = Some (Raise e, c') -> is_Exception e = false.

(** Something [dynamicbot] said of its own accord. *)
Definition is_aside (o : output) : Prop :=
  match o with
  | Aside _ => True
  | _ => False
  end.

(** Only calls into [dynamicbot] were made: the world and the environment
    are as before, and the operator has been told nothing but what the
    module said of its own accord. *)
Definition listened (c c' : controller) : Prop :=
  os c' = os c /\ same_env c c'
  /\ (exists said,
        outputs c' = (outputs c ++ said)%list /\ Forall is_aside said)
  /\ ticks c <= ticks c'.

(** Only talk happened: the world and the environment are as before, and
    what has been told has grown by [more]. *)
Definition talked (c c' : controller) : Prop :=
  os c' = os c /\ same_env c c' /\ ticks c <= ticks c'
  /\ exists more, outputs c' = (outputs c ++ more)%list.

(** The invariant of the controller's world. *)
Definition sound (w : world) : Prop :=
  registry_ok w /\ all_stoppable w.

(** The environment is as before and the invariant of the world is kept. *)
Definition steady (c c' : controller) : Prop :=
  same_env c c' /\ (sound (os c) -> sound (os c')).

(** No registered child is alive. *)
Definition idle (w : world) : Prop :=
  forall k h, running_procs w !! k = Some h -> ~ alive h w.

(** The command as the main loop looks at it. *)
Definition normalised (heard : string) : string :=
  PyStr.strip (PyStr.lower heard).

(** One of the controller-exit phrases occurs in the command. *)
Definition exit_requested (heard : string) : Prop :=
  exists p, In p exit_phrases /\ PyStr.contains p (normalised heard) = true.

(** The command is dispatched to the registry for [target]: it is no exit
    request, its action is start or stop, and its target is not the
    chatbot. *)
Definition registry_command (heard target : string) : Prop :=
  ~ exit_requested heard
  /\ (fst (parse_start_stop_command (normalised heard)) = Some "start"
      \/ fst (parse_start_stop_command (normalised heard)) = Some "stop")
  /\ snd (parse_start_stop_command (normalised heard)) = Some target
  /\ target <> "chatbot".

(** ** Sample controllers *)

(** A controller at program start over the sample disk, with the module
    of [dynamicbot.py], children of kind [p] that exit with status 0 when
    waited for, and the given answers; its runs register "face" before
    "hand". *)
Definition sample_controller (p : process)
    (answers : list (result (option string))) : controller :=
  fresh_controller
    (boot "/bot" "python3" bot_disk (fun _ => Ret p))
    (Some the_dynamicbot) (scripted answers) (fun _ => Some (Ret 0%Z))
    ["face"; "hand"].

(** The state a computation ends in; [c] when it does not come back. *)
Definition finished {A : Type} (x : option (result A * controller))
    (c : controller) : controller :=
  match x with
  | Some (_, c') => c'
  | None => c
  end.

(** An operation that sends no signal: a spawn or a wait. *)
Definition harmless (e : event) : Prop :=
  match e with
  | EvTerminate _ | EvKill _ => False
  | _ => True
  end.

(** From [c] to [c'] no process was terminated or killed. *)
Definition unsignalled (c c' : controller) : Prop :=
  exists evs,
    trace (os c') = (trace (os c) ++ evs)%list /\ Forall harmless evs.

(** Started with no live registered child, [m] sends no signal, and when
    it returns normally no registered child is alive. *)
Definition calm {A : Type} (m : C A) : Prop :=
  forall c r c',
    idle (os c) -> m c = Some (r, c') ->
    unsignalled c c' /\ (forall a, r = Ret a -> idle (os c')).

(** The registry entry of [k] is the same in both states. *)
Definition same_entry (k : string) (c c' : controller) : Prop :=
  running_procs (os c') !! k = running_procs (os c) !! k.

(** The next [n] answers of the environment, seen from state [c]. *)
Definition upcoming (c : controller) (n : nat)
  : list (result (option string)) :=
  map (fun i => ext c (ticks c + i)) (seq 0 n).

(** ** Tactics *)

Ltac step_py := cbn beta iota zeta delta [fst snd negb].

Ltac run_py :=
  unfold poll, os_path_exists;
  unfold bind, gets, modify, ret, lift, try_except;
  step_py.

(** * Properties *)

(** ** Text helpers *)

Section PyStrFacts.
Import PyStr.

Lemma truthy_lower (s : string) : truthy (lower s) = truthy s.
Proof. now destruct s. Qed.

Lemma startswith_app (p r : string) : startswith (p +:+ r) p = true.
Proof.
  induction p as [|a p IH]; simpl; [reflexivity |].
  destruct (ascii_dec a a); [exact IH | congruence].
Qed.

Lemma startswith_spec (s p : string) :
  startswith s p = true <-> exists r, s = p +:+ r.
Proof.
  split.
  - revert s. induction p as [|a p IH]; intros s H.
    + exists s. reflexivity.
    + destruct s as [|b s]; simpl in H; [discriminate |].
      destruct (ascii_dec a b) as [->|]; [| discriminate].
      destruct (IH _ H) as [r ->]. exists r. reflexivity.
  - intros [r ->]. apply startswith_app.
Qed.

Lemma contains_truthy (w t : string) :
  truthy w = true -> contains w t = true -> truthy t = true.
Proof.
  intros Hw H. destruct t; [| reflexivity].
  destruct w; [discriminate Hw | discriminate H].
Qed.

Lemma any_in_true (ws : list string) (t : string) :
  any_in ws t = true <-> exists w, In w ws /\ contains w t = true.
Proof. apply existsb_exists. Qed.

Example lower_strip_examples :
  lower "What's the STATUS now" = "what's the status now"
  /\ strip "  Jarvis on  " = "Jarvis on"
  /\ strip (String (ascii_of_nat 9) "jarvis" +:+ String (ascii_of_nat 10) "")
     = "jarvis"
  /\ contains "end" "pretend" = true
  /\ contains "hand" "han d" = false.
Proof. repeat split; reflexivity. Qed.

End PyStrFacts.

(** ** Command interpreter *)

Lemma occurs_truthy (w text : string) :
  PyStr.truthy w = true -> occurs w text -> PyStr.truthy text = true.
Proof.
  unfold occurs. intros Hw H. rewrite <- truthy_lower.
  exact (contains_truthy _ _ Hw H).
Qed.

Lemma has_start_verb_any (text : string) :
  has_start_verb text <-> PyStr.any_in start_verbs (PyStr.lower text) = true.
Proof. unfold has_start_verb, occurs. symmetry. apply any_in_true. Qed.

Lemma has_stop_verb_any (text : string) :
  has_stop_verb text <-> PyStr.any_in stop_verbs (PyStr.lower text) = true.
Proof. unfold has_stop_verb, occurs. symmetry. apply any_in_true. Qed.

Lemma has_hand_noun_any (text : string) :
  has_hand_noun text <-> PyStr.any_in hand_nouns (PyStr.lower text) = true.
Proof. unfold has_hand_noun, occurs. symmetry. apply any_in_true. Qed.

Lemma has_chatbot_noun_orb (text : string) :
  has_chatbot_noun text <->
  let t := PyStr.lower text in
  PyStr.contains "chat" t || PyStr.contains "assistant" t
  || PyStr.contains "bot" t = true.
Proof.
  unfold has_chatbot_noun, occurs. cbv zeta.
  rewrite !orb_true_iff. tauto.
Qed.

Lemma has_face_noun_orb (text : string) :
  has_face_noun text <->
  let t := PyStr.lower text in
  PyStr.contains "face" t || PyStr.contains "recognize" t
  || PyStr.contains "recognition" t = true.
Proof.
  unfold has_face_noun, occurs. cbv zeta.
  rewrite !orb_true_iff. tauto.
Qed.

(** The interpreter on a text without the status keyword: the action and
    the target are computed independently of each other. *)
Lemma parse_without_status (text : string) :
  ~ occurs "status" text ->
  parse_start_stop_command text =
  if negb (PyStr.truthy text) then (None, None)
  else
    let t := PyStr.lower text in
    (if PyStr.any_in stop_verbs t then Some "stop"
     else if PyStr.any_in start_verbs t then Some "start" else None,
     if PyStr.contains "chat" t || PyStr.contains "assistant" t
        || PyStr.contains "bot" t
     then Some "chatbot"
     else if PyStr.contains "face" t || PyStr.contains "recognize" t
             || PyStr.contains "recognition" t
     then Some "face"
     else if PyStr.any_in hand_nouns t then Some "hand" else None).
Proof.
  unfold occurs, parse_start_stop_command. intros Hs.
  apply not_true_is_false in Hs.
  destruct (negb (PyStr.truthy text)); [reflexivity |].
  cbv zeta. rewrite Hs.
  destruct (PyStr.any_in stop_verbs (PyStr.lower text)),
    (PyStr.any_in start_verbs (PyStr.lower text)); reflexivity.
Qed.

Example parse_examples :
  parse_start_stop_command "please start the hand tracker"
  = (Some "start", Some "hand")
  /\ parse_start_stop_command "what's the status now" = (Some "status", None)
  /\ parse_start_stop_command "Launch Face Recognition"
     = (Some "start", Some "face")
  /\ parse_start_stop_command "start" = (Some "start", None)
  /\ parse_start_stop_command "" = (None, None).
Proof. repeat split; reflexivity. Qed.

(** C2. If "status" occurs anywhere in the lower-cased text, the
    interpreter returns the pair (status, none), whatever verbs and nouns
    the text also has. *)
Theorem status_overrides (text : string) :
  occurs "status" text ->
  parse_start_stop_command text = (Some "status", None).
Proof.
  intros H. unfold parse_start_stop_command.
  rewrite (occurs_truthy "status" text eq_refl H). simpl negb. cbv iota zeta.
  unfold occurs in H. rewrite H. reflexivity.
Qed.

Lemma status_overrides_witness :
  parse_start_stop_command "Stop the chat and show STATUS"
  = (Some "status", None).
Proof. apply (status_overrides "Stop the chat and show STATUS"). reflexivity. Defined.

(** C3. A text with both a start-verb and a stop-verb, and without the
    status keyword, is classified with action stop. *)
Theorem stop_verb_wins (text : string) :
  has_start_verb text ->
  has_stop_verb text ->
  ~ occurs "status" text ->
  fst (parse_start_stop_command text) = Some "stop".
Proof.
  intros _ Hstop Hs. rewrite (parse_without_status text Hs).
  destruct Hstop as [v [Hv Hocc]].
  assert (Ht : PyStr.truthy text = true).
  { apply (occurs_truthy v); [| exact Hocc].
    unfold stop_verbs in Hv. simpl in Hv.
    destruct Hv as [<-|[<-|[<-|[<-|[<-|[<-|[]]]]]]]; reflexivity. }
  rewrite Ht. simpl negb. cbv iota zeta.
  assert (Ha : PyStr.any_in stop_verbs (PyStr.lower text) = true).
  { apply any_in_true. exists v. split; assumption. }
  rewrite Ha. reflexivity.
Qed.

Lemma stop_verb_wins_witness :
  fst (parse_start_stop_command "start face then stop it") = Some "stop".
Proof.
  apply (stop_verb_wins "start face then stop it").
  - exists "start". split; [simpl; tauto | reflexivity].
  - exists "stop". split; [simpl; tauto | reflexivity].
  - unfold occurs. vm_compute. discriminate.
Defined.

Lemma no_action_verb_any (text : string) :
  ~ has_action_verb text ->
  PyStr.any_in start_verbs (PyStr.lower text) = false
  /\ PyStr.any_in stop_verbs (PyStr.lower text) = false.
Proof.
  unfold has_action_verb. rewrite has_start_verb_any, has_stop_verb_any.
  intros H. split; apply not_true_is_false; tauto.
Qed.

Lemma no_target_noun_any (text : string) :
  ~ has_target_noun text ->
  let t := PyStr.lower text in
  PyStr.contains "chat" t || PyStr.contains "assistant" t
  || PyStr.contains "bot" t = false
  /\ PyStr.contains "face" t || PyStr.contains "recognize" t
     || PyStr.contains "recognition" t = false
  /\ PyStr.any_in hand_nouns t = false.
Proof.
  unfold has_target_noun.
  rewrite has_chatbot_noun_orb, has_face_noun_orb, has_hand_noun_any.
  cbv zeta. intros H. repeat split; apply not_true_is_false; tauto.
Qed.

(** A verb or a noun in the text makes the text non-empty. *)
Lemma action_verb_truthy (text : string) :
  has_action_verb text -> PyStr.truthy text = true.
Proof.
  intros [[v [Hv H]]|[v [Hv H]]]; apply (occurs_truthy v); try exact H.
  - simpl in Hv. destruct Hv as [<-|[<-|[<-|[<-|[]]]]]; reflexivity.
  - simpl in Hv.
    destruct Hv as [<-|[<-|[<-|[<-|[<-|[<-|[]]]]]]]; reflexivity.
Qed.

Lemma target_noun_truthy (text : string) :
  has_target_noun text -> PyStr.truthy text = true.
Proof.
  intros [[H|[H|H]]|[[H|[H|H]]|[n [Hn H]]]];
    try (eapply occurs_truthy; [| exact H]; reflexivity).
  apply (occurs_truthy n); [| exact H].
  simpl in Hn. destruct Hn as [<-|[<-|[<-|[<-|[]]]]]; reflexivity.
Qed.

(** C6, as the code has it. On a text without the status keyword the two
    components are computed independently of each other and returned as
    computed.  With no action verb the action is none; otherwise it is stop
    when a stop-verb occurs and start when only start-verbs occur.  With no
    target noun the target is none; otherwise it is the target of the first
    group that has a noun in the text.  So with neither a verb nor a noun
    the result is the pair (none, none), and when only one of the two is
    missing the other component is still returned. *)
Theorem missing_part_is_none (text : string) :
  ~ occurs "status" text ->
  let r := parse_start_stop_command text in
  (~ has_action_verb text -> fst r = None)
  /\ (~ has_target_noun text -> snd r = None)
  /\ (~ has_action_verb text -> ~ has_target_noun text -> r = (None, None))
  /\ (has_stop_verb text -> fst r = Some "stop")
  /\ (has_start_verb text -> ~ has_stop_verb text -> fst r = Some "start")
  /\ (has_chatbot_noun text -> snd r = Some "chatbot")
  /\ (~ has_chatbot_noun text -> has_face_noun text -> snd r = Some "face")
  /\ (~ has_chatbot_noun text -> ~ has_face_noun text -> has_hand_noun text ->
      snd r = Some "hand").
Proof.
  intros Hs. cbv zeta. rewrite (parse_without_status text Hs).
  pose proof (action_verb_truthy text) as Hta.
  pose proof (target_noun_truthy text) as Htn.
  unfold has_action_verb, has_target_noun in *.
  rewrite has_start_verb_any, has_stop_verb_any, has_chatbot_noun_orb,
    has_face_noun_orb, has_hand_noun_any in *.
  cbv zeta in *. revert Hta Htn.
  destruct (PyStr.truthy text);
    destruct (PyStr.any_in stop_verbs (PyStr.lower text));
    destruct (PyStr.any_in start_verbs (PyStr.lower text));
    destruct (PyStr.contains "chat" (PyStr.lower text)
              || PyStr.contains "assistant" (PyStr.lower text)
              || PyStr.contains "bot" (PyStr.lower text));
    destruct (PyStr.contains "face" (PyStr.lower text)
              || PyStr.contains "recognize" (PyStr.lower text)
              || PyStr.contains "recognition" (PyStr.lower text));
    destruct (PyStr.any_in hand_nouns (PyStr.lower text));
    cbn [negb fst snd]; intros Hta Htn;
    repeat split; intros; try reflexivity;
    try (exfalso; intuition congruence).
Qed.

Lemma no_status_in_okay : ~ occurs "status" "okay".
Proof. unfold occurs. vm_compute. discriminate. Qed.

Lemma no_action_verb_in_okay : ~ has_action_verb "okay".
Proof.
  unfold has_action_verb. rewrite has_start_verb_any, has_stop_verb_any.
  vm_compute. intros [H|H]; discriminate H.
Qed.

Lemma no_target_noun_in_okay : ~ has_target_noun "okay".
Proof.
  unfold has_target_noun.
  rewrite has_chatbot_noun_orb, has_face_noun_orb, has_hand_noun_any.
  vm_compute. intros [H|[H|H]]; discriminate H.
Qed.

Lemma no_status_in_show_my_face : ~ occurs "status" "show my face".
Proof. unfold occurs. vm_compute. discriminate. Qed.

Lemma no_action_verb_in_show_my_face : ~ has_action_verb "show my face".
Proof.
  unfold has_action_verb. rewrite has_start_verb_any, has_stop_verb_any.
  vm_compute. intros [H|H]; discriminate H.
Qed.

Lemma no_chatbot_noun_in_show_my_face : ~ has_chatbot_noun "show my face".
Proof. rewrite has_chatbot_noun_orb. vm_compute. discriminate. Qed.

Lemma no_status_in_launch_it : ~ occurs "status" "Launch it".
Proof. unfold occurs. vm_compute. discriminate. Qed.

Lemma no_target_noun_in_launch_it : ~ has_target_noun "Launch it".
Proof.
  unfold has_target_noun.
  rewrite has_chatbot_noun_orb, has_face_noun_orb, has_hand_noun_any.
  vm_compute. intros [H|[H|H]]; discriminate H.
Qed.

Lemma no_stop_verb_in_launch_it : ~ has_stop_verb "Launch it".
Proof. rewrite has_stop_verb_any. vm_compute. discriminate. Qed.

Lemma missing_part_is_none_witness :
  parse_start_stop_command "okay" = (None, None)
  /\ (fst (parse_start_stop_command "show my face") = None
      /\ snd (parse_start_stop_command "show my face") = Some "face")
  /\ (fst (parse_start_stop_command "Launch it") = Some "start"
      /\ snd (parse_start_stop_command "Launch it") = None).
Proof.
  split; [| split; split].
  - apply (missing_part_is_none "okay" no_status_in_okay).
    + exact no_action_verb_in_okay.
    + exact no_target_noun_in_okay.
  - apply (missing_part_is_none "show my face" no_status_in_show_my_face).
    exact no_action_verb_in_show_my_face.
  - apply (missing_part_is_none "show my face" no_status_in_show_my_face).
    + exact no_chatbot_noun_in_show_my_face.
    + left. reflexivity.
  - apply (missing_part_is_none "Launch it" no_status_in_launch_it).
    + exists "launch". split; [simpl; tauto | reflexivity].
    + exact no_stop_verb_in_launch_it.
  - apply (missing_part_is_none "Launch it" no_status_in_launch_it).
    exact no_target_noun_in_launch_it.
Defined.

(** C6 as stated fails on the text "face": it has no status keyword and no
    action verb, yet the result keeps the target and is not (none, none). *)
Lemma lone_noun_keeps_target :
  ~ occurs "status" "face"
  /\ ~ has_action_verb "face"
  /\ parse_start_stop_command "face" = (None, Some "face")
  /\ parse_start_stop_command "face" <> (None, None).
Proof.
  split; [| split; [| split]].
  - unfold occurs. vm_compute. discriminate.
  - unfold has_action_verb. rewrite has_start_verb_any, has_stop_verb_any.
    vm_compute. intros [H|H]; discriminate H.
  - reflexivity.
  - vm_compute. discriminate.
Qed.

(** C7, as the code has it. On a text without the status keyword the
    target goes to the first group that has a noun in the text: chatbot for
    chat/assistant/bot; otherwise face for face/recognize/recognition;
    otherwise hand for hand/servo/object/finger. *)
Theorem target_first_match_wins (text : string) :
  ~ occurs "status" text ->
  (has_chatbot_noun text ->
   snd (parse_start_stop_command text) = Some "chatbot")
  /\ (~ has_chatbot_noun text -> has_face_noun text ->
      snd (parse_start_stop_command text) = Some "face")
  /\ (~ has_chatbot_noun text -> ~ has_face_noun text ->
      has_hand_noun text ->
      snd (parse_start_stop_command text) = Some "hand").
Proof.
  intros Hs. rewrite (parse_without_status text Hs).
  assert (Ht : has_target_noun text -> PyStr.truthy text = true).
  { intros [[H|[H|H]]|[[H|[H|H]]|[n [Hn H]]]];
      try (eapply occurs_truthy; [| exact H]; reflexivity).
    apply (occurs_truthy n); [| exact H].
    simpl in Hn. destruct Hn as [<-|[<-|[<-|[<-|[]]]]]; reflexivity. }
  unfold has_target_noun in Ht.
  rewrite has_chatbot_noun_orb, has_face_noun_orb, has_hand_noun_any in *.
  cbv zeta in *.
  split; [| split].
  - intros H. rewrite Ht by tauto. cbn [negb snd].
    rewrite H. reflexivity.
  - intros H1 H2. rewrite Ht by tauto. cbn [negb snd].
    apply not_true_is_false in H1. rewrite H1, H2. reflexivity.
  - intros H1 H2 H3. rewrite Ht by tauto. cbn [negb snd].
    apply not_true_is_false in H1, H2. rewrite H1, H2, H3. reflexivity.
Qed.

Lemma no_status_in_chat_and_face :
  ~ occurs "status" "open the face chat".
Proof. unfold occurs. vm_compute. discriminate. Qed.

Lemma target_first_match_wins_witness :
  snd (parse_start_stop_command "open the face chat") = Some "chatbot".
Proof.
  apply (target_first_match_wins "open the face chat"
           no_status_in_chat_and_face).
  left. reflexivity.
Defined.

(** C7 as stated fails on the text "chat status": a chatbot noun occurs,
    yet the status keyword clears the target. *)
Lemma status_clears_target :
  has_chatbot_noun "chat status"
  /\ snd (parse_start_stop_command "chat status") = None
  /\ snd (parse_start_stop_command "chat status") <> Some "chatbot".
Proof.
  split; [| split].
  - left. reflexivity.
  - reflexivity.
  - vm_compute. discriminate.
Qed.

(** ** Wake gate *)

Lemma append_assoc (a b c : string) : (a +:+ b) +:+ c = a +:+ b +:+ c.
Proof.
  induction a as [|x a IH]; [reflexivity |].
  change (String x ((a +:+ b) +:+ c) = String x (a +:+ b +:+ c)).
  now rewrite IH.
Qed.

(** The test of the gate, read as the matching rule. *)
Lemma wake_match_spec (wakeword txt : string) :
  wake_match wakeword txt = true <->
  txt = wakeword \/ exists rest, txt = wakeword +:+ " " +:+ rest.
Proof.
  unfold wake_match.
  rewrite orb_true_iff, String.eqb_eq, startswith_spec.
  split; (intros [H|[r H]]; [left; exact H | right; exists r]).
  - now rewrite <- append_assoc.
  - now rewrite append_assoc.
Qed.

(** After an ignored answer the loop carries on; with no answer left it has
    not reported a wake word. *)
Lemma wake_loop_no_answers (wakeword : string) (max_attempts : option Z)
    (attempts : Z) :
  wake_loop wakeword max_attempts attempts [] <> Some (Ret true).
Proof. simpl. destruct (budget_spent max_attempts attempts); discriminate. Qed.

Lemma truthy_spec (s : string) : PyStr.truthy s = true <-> s <> "".
Proof. destruct s; cbn; split; congruence. Qed.

Lemma wake_body_ignored (wakeword : string) (text : option string)
    (k : option (result bool)) :
  ignored wakeword (Ret text) -> wake_body wakeword text k = k.
Proof.
  destruct text as [s|]; [| reflexivity]. cbn [ignored wake_body].
  intros [H|H]; [rewrite H; reflexivity |].
  destruct (PyStr.truthy s); [| reflexivity]. rewrite H. reflexivity.
Qed.

Lemma wake_loop_ignored_head (wakeword : string) (max_attempts : option Z)
    (attempts : Z) (a : result (option string))
    (rest : list (result (option string))) :
  ignored wakeword a ->
  budget_spent max_attempts attempts = false ->
  wake_loop wakeword max_attempts attempts (a :: rest)
  = wake_loop wakeword max_attempts (attempts + 1) rest.
Proof.
  intros Hi Hb. cbn [wake_loop]. rewrite Hb.
  destruct a as [text|e].
  - apply wake_body_ignored, Hi.
  - destruct Hi as [He Hne].
    destruct e; try reflexivity; [congruence | discriminate He].
Qed.

Lemma budget_spent_mono (max_attempts : option Z) (a b : Z) :
  (a <= b)%Z -> budget_spent max_attempts b = false ->
  budget_spent max_attempts a = false.
Proof.
  destruct max_attempts as [m|]; [| reflexivity]. cbn [budget_spent].
  rewrite !Z.leb_gt. lia.
Qed.

(** Ignored answers are passed over one attempt each. *)
Lemma wake_loop_skips (wakeword : string) (max_attempts : option Z)
    (pre rest : list (result (option string))) (attempts : Z) :
  Forall (ignored wakeword) pre ->
  (pre = [] \/
   budget_spent max_attempts (attempts + Z.of_nat (length pre) - 1) = false) ->
  wake_loop wakeword max_attempts attempts (pre ++ rest)%list
  = wake_loop wakeword max_attempts (attempts + Z.of_nat (length pre)) rest.
Proof.
  intros Hpre. revert attempts.
  induction Hpre as [|a pre Ha Hpre IH]; intros attempts Hb.
  - cbn [length app]. now rewrite Z.add_0_r.
  - destruct Hb as [Hb|Hb]; [discriminate Hb |].
    cbn [length] in *. rewrite Nat2Z.inj_succ in *.
    change ((a :: pre) ++ rest)%list with (a :: (pre ++ rest))%list.
    rewrite wake_loop_ignored_head; [| exact Ha |].
    2:{ apply (budget_spent_mono _ attempts
                 (attempts + Z.succ (Z.of_nat (length pre)) - 1));
          [lia | exact Hb]. }
    rewrite IH.
    + f_equal. lia.
    + destruct pre as [|b pre']; [left; reflexivity | right].
      replace (attempts + 1 + Z.of_nat (length (b :: pre')) - 1)%Z
        with (attempts + Z.succ (Z.of_nat (length (b :: pre'))) - 1)%Z
        by lia.
      exact Hb.
Qed.

(** Rounds that do not end the loop are passed over, one attempt each. *)
Lemma wake_loop_passes (wakeword : string) (max_attempts : option Z)
    (pre rest : list (result (option string))) (n : nat) :
  passed_over wakeword pre n ->
  forall attempts : Z,
    budget_spent max_attempts (attempts + Z.of_nat n) = false ->
    wake_loop wakeword max_attempts attempts (pre ++ rest)%list
    = wake_loop wakeword max_attempts (attempts + Z.of_nat n) rest.
Proof.
  induction 1 as [|a pre n Ha _ IH|text pre n Ha _ IH]; intros attempts Hb.
  - cbn [app]. now rewrite Z.add_0_r.
  - rewrite Nat2Z.inj_succ in *.
    change ((a :: pre) ++ rest)%list with (a :: (pre ++ rest))%list.
    rewrite wake_loop_ignored_head; [| exact Ha |].
    2:{ apply (budget_spent_mono _ _ (attempts + Z.succ (Z.of_nat n)));
          [lia | exact Hb]. }
    replace (attempts + Z.succ (Z.of_nat n))%Z
      with (attempts + 1 + Z.of_nat n)%Z in * by lia.
    apply IH. exact Hb.
  - rewrite Nat2Z.inj_succ in *.
    assert (Hnow : budget_spent max_attempts attempts = false).
    { apply (budget_spent_mono _ _ (attempts + Z.succ (Z.of_nat n)));
        [lia | exact Hb]. }
    replace (attempts + Z.succ (Z.of_nat n))%Z
      with (attempts + 1 + Z.of_nat n)%Z in * by lia.
    cbn [app wake_loop]. rewrite Hnow.
    rewrite (wake_body_ignored _ _ _ Ha). apply IH. exact Hb.
Qed.

(** The round in which an utterance is heard, after any number of rounds
    that were passed over: the utterance goes through the test of lines
    142-146, and the loop goes on when it fails. *)
Lemma wake_round_heard (wakeword text : string) (max_attempts : option Z)
    (pre later : list (result (option string))) (n : nat) (retry : bool) :
  passed_over wakeword pre n ->
  budget_spent max_attempts (Z.of_nat n) = false ->
  listen_for_wakeword_fallback true wakeword max_attempts
    (pre ++ hearing retry text ++ later)%list
  = wake_body wakeword (Some text)
      (wake_loop wakeword max_attempts (Z.of_nat n + 1) later).
Proof.
  intros Hpre Hb. unfold listen_for_wakeword_fallback. cbn [negb].
  rewrite (wake_loop_passes _ _ _ _ _ Hpre) by exact Hb.
  rewrite Z.add_0_l.
  destruct retry; cbn [hearing app wake_loop]; rewrite Hb; reflexivity.
Qed.

(** C4, as the code has it.  Wherever an utterance is heard in the wake
    loop (after any number of rounds that were passed over, as the answer
    of [listen] or of its retry after a [TypeError], the attempt budget not
    yet spent), the gate reports the wake word at that utterance exactly
    when the utterance is not empty and its lower-cased, trimmed form is
    the wake phrase or starts with the wake phrase followed by a space.  An
    utterance that triggers does so whatever would be heard later; one that
    does not is passed over like a silence, and the loop listens on. *)
Theorem wake_gate_strict (wakeword text : string) (max_attempts : option Z)
    (pre : list (result (option string))) (n : nat) (retry : bool) :
  passed_over wakeword pre n ->
  budget_spent max_attempts (Z.of_nat n) = false ->
  let gate := listen_for_wakeword_fallback true wakeword max_attempts in
  let txt := PyStr.strip (PyStr.lower text) in
  let triggers :=
    text <> ""
    /\ (txt = wakeword \/ exists rest, txt = wakeword +:+ " " +:+ rest) in
  (gate (pre ++ hearing retry text)%list = Some (Ret true) <-> triggers)
  /\ (triggers ->
      forall later,
        gate (pre ++ hearing retry text ++ later)%list = Some (Ret true))
  /\ (~ triggers ->
      forall later,
        gate (pre ++ hearing retry text ++ later)%list
        = gate (pre ++ Ret None :: later)%list).
Proof.
  intros Hpre Hb. cbv zeta.
  rewrite <- wake_match_spec, <- truthy_spec.
  assert (Hlast : (pre ++ hearing retry text)%list
                  = (pre ++ hearing retry text ++ [])%list)
    by now rewrite app_nil_r.
  rewrite Hlast. clear Hlast.
  assert (Hsilence : forall later,
            listen_for_wakeword_fallback true wakeword max_attempts
              (pre ++ Ret None :: later)%list
            = wake_loop wakeword max_attempts (Z.of_nat n + 1) later).
  { intros later. unfold listen_for_wakeword_fallback. cbn [negb].
    rewrite (wake_loop_passes _ _ _ _ _ Hpre) by exact Hb.
    rewrite Z.add_0_l. cbn [wake_loop wake_body]. rewrite Hb. reflexivity. }
  pose proof (wake_loop_no_answers wakeword max_attempts (Z.of_nat n + 1))
    as Hnone.
  split; [| split].
  - rewrite (wake_round_heard _ _ _ _ _ _ _ Hpre Hb). cbn [wake_body].
    destruct (PyStr.truthy text);
      destruct (wake_match wakeword (PyStr.strip (PyStr.lower text)));
      split; try tauto; intros [H1 H2]; discriminate.
  - intros [Ht Hm] later.
    rewrite (wake_round_heard _ _ _ _ _ _ _ Hpre Hb). cbn [wake_body].
    rewrite Ht, Hm. reflexivity.
  - intros Hn later.
    rewrite (wake_round_heard _ _ _ _ _ _ _ Hpre Hb), Hsilence.
    cbn [wake_body].
    destruct (PyStr.truthy text); [| reflexivity].
    destruct (wake_match wakeword (PyStr.strip (PyStr.lower text)));
      [| reflexivity].
    destruct Hn. split; reflexivity.
Qed.

Lemma wake_gate_strict_witness :
  let gate := listen_for_wakeword_fallback true "jarvis" (Some 9%Z) in
  let pre :=
    [Ret None; Ret (Some "jarvisson"); Raise OSError;
     Raise TypeError; Ret (Some "please say jarvis now")] in
  let text := "  Jarvis turn on the light " in
  let txt := PyStr.strip (PyStr.lower text) in
  let triggers :=
    text <> ""
    /\ (txt = "jarvis" \/ exists rest, txt = "jarvis" +:+ " " +:+ rest) in
  (gate (pre ++ hearing true text)%list = Some (Ret true) <-> triggers)
  /\ (triggers ->
      forall later,
        gate (pre ++ hearing true text ++ later)%list = Some (Ret true))
  /\ (~ triggers ->
      forall later,
        gate (pre ++ hearing true text ++ later)%list
        = gate (pre ++ Ret None :: later)%list).
Proof.
  apply (wake_gate_strict "jarvis" "  Jarvis turn on the light " (Some 9%Z)
           [Ret None; Ret (Some "jarvisson"); Raise OSError;
            Raise TypeError; Ret (Some "please say jarvis now")] 4 true).
  - apply passed_answer; [exact I |].
    apply passed_answer; [right; reflexivity |].
    apply passed_answer; [split; [reflexivity | discriminate] |].
    apply passed_retry; [right; reflexivity |].
    apply passed_none.
  - reflexivity.
Defined.

(** C4 as stated fails at one point: with an empty wake phrase, an empty
    answer of [listen] is, lower-cased and trimmed, equal to the wake
    phrase, yet the gate does not trigger on it; the truth test of line
    142 passes it over, and the loop listens on until its budget is
    spent. *)
Lemma empty_answer_does_not_wake :
  PyStr.strip (PyStr.lower "") = ""
  /\ listen_for_wakeword_fallback true "" None [Ret (Some "")]
     <> Some (Ret true)
  /\ listen_for_wakeword_fallback true "" (Some 1%Z) [Ret (Some "")]
     = Some (Ret false).
Proof.
  split; [reflexivity | split; [| reflexivity]].
  vm_compute. discriminate.
Qed.

(** The four utterances the matching rule is illustrated with, heard
    first, and heard after other answers. *)
Example wake_examples :
  let gate text :=
    listen_for_wakeword_fallback true "jarvis" None [Ret (Some text)] in
  let late text :=
    listen_for_wakeword_fallback true "jarvis" None
      [Ret (Some "hello"); Ret None; Ret (Some text)] in
  gate "jarvis" = Some (Ret true)
  /\ gate "jarvis turn on the light" = Some (Ret true)
  /\ gate "jarvisson" = None
  /\ gate "please say jarvis now" = None
  /\ late "jarvis" = Some (Ret true)
  /\ late "jarvis turn on the light" = Some (Ret true)
  /\ late "jarvisson" = None
  /\ late "please say jarvis now" = None.
Proof. repeat split; reflexivity. Qed.

(** An exhausted budget ends the loop with [False]; a missing listen
    primitive does so at once. *)
Example wake_budget :
  listen_for_wakeword_fallback true "jarvis" (Some 2%Z)
    [Ret None; Raise OSError; Ret (Some "jarvis")] = Some (Ret false)
  /\ listen_for_wakeword_fallback true "jarvis" (Some 3%Z)
       [Ret None; Raise TypeError; Ret (Some "hello"); Ret (Some "JARVIS")]
     = Some (Ret true)
  /\ listen_for_wakeword_fallback false "jarvis" None [Ret (Some "jarvis")]
     = Some (Ret false).
Proof. repeat split; reflexivity. Qed.

(** ** Process registry *)

Lemma MODULE_NAMES_unknown (k : string) :
  k ∉ ["face"; "hand"; "object"; "servo"] -> MODULE_NAMES !! k = None.
Proof.
  intros H. unfold MODULE_NAMES.
  repeat (rewrite lookup_insert_ne; [| intros <-; apply H; set_solver]).
  apply lookup_singleton_ne. intros <-. apply H. set_solver.
Qed.

Lemma MODULE_NAMES_known (k script : string) :
  MODULE_NAMES !! k = Some script ->
  k ∈ ["face"; "hand"; "object"; "servo"] /\ PyStr.truthy script = true.
Proof.
  unfold MODULE_NAMES. intros H.
  repeat (apply lookup_insert_Some in H as [[<- <-]|[_ H]];
          [split; [set_solver | reflexivity] |]).
  apply lookup_singleton_Some in H as [<- <-].
  split; [set_solver | reflexivity].
Qed.

(** C10. A key outside the module table gets no process: the call returns
    [None] and the world, registry included, is as before. *)
Theorem start_unknown_key (key : string) (w : world) :
  PyStr.lower key ∉ ["face"; "hand"; "object"; "servo"] ->
  start_subprocess_module key w = (Ret None, w).
Proof.
  intros H. unfold start_subprocess_module.
  rewrite (MODULE_NAMES_unknown _ H). reflexivity.
Qed.

Lemma start_unknown_key_witness :
  let w := boot "/bot" "python3" bot_disk (fun _ => Ret child) in
  start_subprocess_module "Chatbot" w = (Ret None, w).
Proof.
  intros w. apply (start_unknown_key "Chatbot" w).
  vm_compute. intros H.
  repeat (apply elem_of_cons in H as [H|H]; [discriminate H |]).
  exact (not_elem_of_nil _ H).
Defined.

(** Every path of [start_subprocess_module] before the spawn. *)
Lemma start_script_missing (key : string) (w : world) :
  script_missing key w -> start_subprocess_module key w = (Ret None, w).
Proof.
  intros [script [Hs Hf]]. unfold start_subprocess_module.
  rewrite Hs. destruct (MODULE_NAMES_known _ _ Hs) as [_ ->].
  run_py. rewrite bool_decide_eq_false_2 by exact Hf. reflexivity.
Qed.

Lemma start_already_running (key : string) (h : handle) (w : world) :
  script_on_disk key w ->
  running_procs w !! PyStr.lower key = Some h ->
  alive h w ->
  start_subprocess_module key w = (Ret (Some h), w).
Proof.
  intros [script [Hs Hf]] Hr Ha. unfold start_subprocess_module.
  rewrite Hs. destruct (MODULE_NAMES_known _ _ Hs) as [_ ->].
  run_py. rewrite bool_decide_eq_true_2 by exact Hf.
  step_py. rewrite Hr. unfold alive in Ha. rewrite Ha. reflexivity.
Qed.

Lemma start_spawn (key script : string) (w : world) :
  MODULE_NAMES !! PyStr.lower key = Some script ->
  os_path_join (BASE_DIR w) script ∈ files w ->
  ~ live (PyStr.lower key) w ->
  let argv := [PYTHON_EXE w; os_path_join (BASE_DIR w) script] in
  start_subprocess_module key w =
  match popen_answer w (popen_calls w) with
  | Ret p =>
      (Ret (Some (length (procs w))), spawned (PyStr.lower key) argv p w)
  | Raise e =>
      (if is_Exception e then Ret None else Raise e, spawn_refused argv w)
  end.
Proof.
  intros Hs Hf Hl argv. unfold start_subprocess_module.
  rewrite Hs. destruct (MODULE_NAMES_known _ _ Hs) as [_ ->].
  run_py. rewrite bool_decide_eq_true_2 by exact Hf. step_py.
  assert (Hspawn :
    (let (r, w') :=
       let (r, w') :=
         Popen [PYTHON_EXE w; os_path_join (BASE_DIR w) script]
           (BASE_DIR w) w in
       match r with
       | Ret a =>
           (Ret (Some a),
            set_running_procs (<[PyStr.lower key:=a]> (running_procs w')) w')
       | Raise e => (Raise e, w')
       end in
     match r with
     | Ret a => (Ret a, w')
     | Raise e => if is_Exception e then (Ret None, w') else (Raise e, w')
     end) =
    match popen_answer w (popen_calls w) with
    | Ret p =>
        (Ret (Some (length (procs w))), spawned (PyStr.lower key) argv p w)
    | Raise e =>
        (if is_Exception e then Ret None else Raise e, spawn_refused argv w)
    end).
  { unfold Popen. run_py. cbn [popen_answer set_popen_calls].
    destruct (popen_answer w (popen_calls w)) as [p|e]; [reflexivity |].
    step_py. destruct (is_Exception e); reflexivity. }
  destruct (running_procs w !! PyStr.lower key) as [h|] eqn:Hr;
    [| exact Hspawn].
  destruct (returncode (proc_of w h)) as [code|] eqn:Hc; [exact Hspawn |].
  exfalso. apply Hl. exists h. split; [exact Hr | exact Hc].
Qed.

Lemma live_cases (k : string) (w : world) :
  (exists h, running_procs w !! k = Some h /\ alive h w) \/ ~ live k w.
Proof.
  unfold live, alive.
  destruct (running_procs w !! k) as [h|] eqn:Hr.
  - destruct (returncode (proc_of w h)) as [c|] eqn:Hc.
    + right. intros [h' [Hh Ha]]. congruence.
    + left. exists h. split; [reflexivity | exact Hc].
  - right. intros [h' [Hh _]]. discriminate Hh.
Qed.

(** The four ways through [start_subprocess_module]. *)
Lemma start_cases (key : string) (w : world) :
  MODULE_NAMES !! PyStr.lower key = None
  \/ script_missing key w
  \/ (script_on_disk key w
      /\ exists h, running_procs w !! PyStr.lower key = Some h /\ alive h w)
  \/ (exists script,
        MODULE_NAMES !! PyStr.lower key = Some script
        /\ os_path_join (BASE_DIR w) script ∈ files w
        /\ ~ live (PyStr.lower key) w).
Proof.
  destruct (MODULE_NAMES !! PyStr.lower key) as [script|] eqn:Hs;
    [| left; reflexivity].
  right.
  destruct (decide (os_path_join (BASE_DIR w) script ∈ files w)) as [Hf|Hf].
  - right. destruct (live_cases (PyStr.lower key) w) as [Hl|Hl].
    + left. split; [exists script; split; assumption | exact Hl].
    + right. exists script. repeat split; assumption.
  - left. exists script. split; assumption.
Qed.

(** A call that returned a handle leaves that handle registered under the
    key, with the script still on disk. *)
Lemma start_returns_registered (key : string) (h : handle) (w w1 : world) :
  start_subprocess_module key w = (Ret (Some h), w1) ->
  script_on_disk key w1 /\ running_procs w1 !! PyStr.lower key = Some h.
Proof.
  intros H.
  destruct (start_cases key w)
    as [Hn|[Hm|[[Hd [h' [Hr Ha]]]|[script [Hs [Hf Hl]]]]]].
  - unfold start_subprocess_module in H. rewrite Hn in H. discriminate H.
  - rewrite (start_script_missing key w Hm) in H. discriminate H.
  - rewrite (start_already_running key h' w Hd Hr Ha) in H.
    injection H as -> ->. split; assumption.
  - rewrite (start_spawn key script w Hs Hf Hl) in H.
    destruct (popen_answer w (popen_calls w)) as [p|e].
    + injection H as <- <-. split.
      * exists script. split; [exact Hs | exact Hf].
      * unfold spawned. cbn [running_procs set_running_procs].
        apply lookup_insert_eq.
    + destruct (is_Exception e); discriminate H.
Qed.

(** With a live handle registered, [start_subprocess_module] changes
    nothing, whatever the disk holds. *)
Lemma start_live_keeps_world (key : string) (h : handle) (w : world) :
  running_procs w !! PyStr.lower key = Some h ->
  alive h w ->
  snd (start_subprocess_module key w) = w.
Proof.
  intros Hr Ha.
  destruct (start_cases key w)
    as [Hn|[Hm|[[Hd [h' [Hr' Ha']]]|[script [Hs [Hf Hl]]]]]].
  - unfold start_subprocess_module. rewrite Hn. reflexivity.
  - rewrite (start_script_missing key w Hm). reflexivity.
  - rewrite (start_already_running key h' w Hd Hr' Ha'). reflexivity.
  - exfalso. apply Hl. exists h. split; assumption.
Qed.

Lemma script_missing_not_on_disk (key : string) (w : world) :
  script_missing key w -> ~ script_on_disk key w.
Proof.
  intros [s [Hs Hf]] [s' [Hs' Hf']]. rewrite Hs in Hs'.
  injection Hs' as <-. exact (Hf Hf').
Qed.

(** C5, as the code has it. A key whose registered handle is alive gets no
    new process: the world (registry, processes, spawn count, trace) is
    unchanged, whatever the disk holds.  What the call returns is that same
    handle when the feature's script is on disk, and [None] when it is
    not.  Hence a second [start] right after one that returned a handle
    still alive returns the same handle and changes nothing. *)
Theorem start_idempotent (key : string) (h : handle) (w : world) :
  (running_procs w !! PyStr.lower key = Some h ->
   alive h w ->
   snd (start_subprocess_module key w) = w
   /\ (script_on_disk key w ->
       fst (start_subprocess_module key w) = Ret (Some h))
   /\ (~ script_on_disk key w ->
       fst (start_subprocess_module key w) = Ret None))
  /\ (forall w1,
        start_subprocess_module key w = (Ret (Some h), w1) ->
        alive h w1 ->
        start_subprocess_module key w1 = (Ret (Some h), w1)).
Proof.
  split.
  - intros Hr Ha. split; [exact (start_live_keeps_world key h w Hr Ha) |].
    split.
    + intros Hd. rewrite (start_already_running key h w Hd Hr Ha).
      reflexivity.
    + intros Hnd.
      destruct (start_cases key w)
        as [Hn|[Hm|[[Hd _]|[script [Hs [Hf Hl]]]]]].
      * unfold start_subprocess_module. rewrite Hn. reflexivity.
      * rewrite (start_script_missing key w Hm). reflexivity.
      * destruct (Hnd Hd).
      * exfalso. apply Hl. exists h. split; assumption.
  - intros w1 H Ha.
    destruct (start_returns_registered key h w w1 H) as [Hd Hr].
    exact (start_already_running key h w1 Hd Hr Ha).
Qed.

Lemma start_idempotent_witness :
  let w0 := boot "/bot" "python3" bot_disk (fun _ => Ret child) in
  let w1 := snd (start_subprocess_module "hand" w0) in
  let w2 := with_files ∅ w1 in
  (snd (start_subprocess_module "hand" w1) = w1
   /\ fst (start_subprocess_module "hand" w1) = Ret (Some 0))
  /\ (snd (start_subprocess_module "hand" w2) = w2
      /\ fst (start_subprocess_module "hand" w2) = Ret None)
  /\ start_subprocess_module "hand" w1 = (Ret (Some 0), w1).
Proof.
  intros w0 w1 w2.
  assert (H0 : start_subprocess_module "hand" w0 = (Ret (Some 0), w1))
    by (vm_compute; reflexivity).
  assert (Hr1 : running_procs w1 !! PyStr.lower "hand" = Some 0)
    by (vm_compute; reflexivity).
  assert (Ha1 : alive 0 w1) by (vm_compute; reflexivity).
  assert (Hr2 : running_procs w2 !! PyStr.lower "hand" = Some 0)
    by (vm_compute; reflexivity).
  assert (Ha2 : alive 0 w2) by (vm_compute; reflexivity).
  split; [| split].
  - destruct (proj1 (start_idempotent "hand" 0 w1) Hr1 Ha1) as [Hw [Hh _]].
    split; [exact Hw |]. apply Hh.
    exists "objectdetection.py". split; vm_compute; reflexivity.
  - destruct (proj1 (start_idempotent "hand" 0 w2) Hr2 Ha2) as [Hw [_ Hn]].
    split; [exact Hw |]. apply Hn.
    apply script_missing_not_on_disk.
    exists "objectdetection.py". split; [vm_compute; reflexivity |].
    apply not_elem_of_empty.
  - apply (proj2 (start_idempotent "hand" 0 w0) w1 H0). exact Ha1.
Defined.

(** C5 as stated fails once the script has left the disk: after a
    successful [start] of "face" and the removal of the script, the handle
    is registered and alive, yet [start] returns [None] (and, as always
    with a live handle, changes nothing). *)
Lemma live_handle_not_returned_without_script :
  let w0 := boot "/bot" "python3" bot_disk (fun _ => Ret child) in
  let w := with_files ∅ (snd (start_subprocess_module "face" w0)) in
  fst (start_subprocess_module "face" w0) = Ret (Some 0)
  /\ running_procs w !! "face" = Some 0
  /\ alive 0 w
  /\ start_subprocess_module "face" w = (Ret None, w).
Proof. repeat split; vm_compute; reflexivity. Qed.

(** C8. If the feature's script is not on disk, or the spawn fails with an
    [OSError], [start_subprocess_module] returns [None]; it does not raise. *)
Theorem start_failure_returns_none (key : string) (w : world) :
  script_missing key w \/ spawn_failed OSError key w ->
  fst (start_subprocess_module key w) = Ret None.
Proof.
  intros [Hm|[Hcalls Hanswer]].
  - rewrite (start_script_missing key w Hm). reflexivity.
  - destruct (start_cases key w)
      as [Hn|[Hm|[[Hd [h [Hr Ha]]]|[script [Hs [Hf Hl]]]]]].
    + unfold start_subprocess_module. rewrite Hn. reflexivity.
    + rewrite (start_script_missing key w Hm). reflexivity.
    + rewrite (start_already_running key h w Hd Hr Ha) in Hcalls.
      cbn [snd] in Hcalls. lia.
    + rewrite (start_spawn key script w Hs Hf Hl), Hanswer. reflexivity.
Qed.

Lemma start_failure_returns_none_witness :
  fst (start_subprocess_module "Face"
         (boot "/bot" "python3" bot_disk (fun _ => Raise OSError)))
  = Ret None.
Proof.
  apply (start_failure_returns_none "Face"
           (boot "/bot" "python3" bot_disk (fun _ => Raise OSError))).
  right. split; vm_compute; reflexivity.
Defined.

Example start_missing_script :
  let w := boot "/bot" "python3" ∅ (fun _ => Ret child) in
  script_missing "servo" w
  /\ start_subprocess_module "servo" w = (Ret None, w).
Proof.
  split.
  - exists "objectdetection.py". split; [vm_compute; reflexivity |].
    apply not_elem_of_empty.
  - vm_compute. reflexivity.
Qed.

(** An interrupt raised inside [Popen] is not an [Exception]: it passes
    through [start_subprocess_module]. *)
Example start_interrupted :
  fst (start_subprocess_module "face"
         (boot "/bot" "python3" bot_disk (fun _ => Raise KeyboardInterrupt)))
  = Raise KeyboardInterrupt.
Proof. vm_compute. reflexivity. Qed.

(** C9. When the registered handle's [poll()] reports an exit,
    [stop_subprocess_module] signals nothing (the trace of process
    operations is unchanged), pops the handle and returns [True]. *)
Theorem stop_exited_handle (key : string) (h : handle) (w : world) :
  running_procs w !! PyStr.lower key = Some h ->
  ~ alive h w ->
  stop_subprocess_module key w = (Ret true, unregistered (PyStr.lower key) w)
  /\ running_procs (unregistered (PyStr.lower key) w) !! PyStr.lower key = None
  /\ trace (unregistered (PyStr.lower key) w) = trace w
  /\ procs (unregistered (PyStr.lower key) w) = procs w.
Proof.
  intros Hr Ha. split; [| split; [| split]].
  - unfold stop_subprocess_module. run_py. rewrite Hr. step_py.
    unfold alive in Ha.
    destruct (returncode (proc_of w h)) as [c|]; [reflexivity | congruence].
  - unfold unregistered. cbn [running_procs set_running_procs].
    apply lookup_delete_eq.
  - reflexivity.
  - reflexivity.
Qed.

Lemma stop_exited_handle_witness :
  let w := snd (start_subprocess_module "face"
                  (boot "/bot" "python3" bot_disk (fun _ => Ret exited_child)))
  in
  stop_subprocess_module "FACE" w = (Ret true, unregistered "face" w)
  /\ running_procs (unregistered "face" w) !! "face" = None
  /\ trace (unregistered "face" w) = trace w
  /\ procs (unregistered "face" w) = procs w.
Proof.
  intros w. apply (stop_exited_handle "FACE" 0 w).
  - vm_compute. reflexivity.
  - vm_compute. discriminate.
Defined.

(** Without a registered handle there is nothing to stop. *)
Lemma stop_not_registered (key : string) (w : world) :
  running_procs w !! PyStr.lower key = None ->
  stop_subprocess_module key w = (Ret false, w).
Proof.
  intros Hr. unfold stop_subprocess_module. run_py. rewrite Hr. reflexivity.
Qed.

Lemma proc_of_log (e : event) (w : world) (h : handle) :
  proc_of (log e w) h = proc_of w h.
Proof. reflexivity. Qed.

(** [stop_subprocess_module] pops the handle exactly on the paths that
    return [True]; where it returns [False] or raises, the registry is as
    it was. *)
Lemma stop_registry (key : string) (w : world) :
  let r := stop_subprocess_module key w in
  running_procs (snd r) =
  match fst r with
  | Ret true => delete (PyStr.lower key) (running_procs w)
  | _ => running_procs w
  end.
Proof.
  unfold stop_subprocess_module, terminate, wait, kill. run_py.
  destruct (running_procs w !! PyStr.lower key) as [h|]; [| reflexivity].
  step_py. destruct (returncode (proc_of w h)); [reflexivity |].
  rewrite !proc_of_log.
  destruct (on_terminate (proc_of w h)) as [[]|e]; step_py.
  - destruct (on_wait (proc_of w h)) as [code|e]; step_py.
    + reflexivity.
    + destruct (is_TimeoutExpired e); step_py.
      * rewrite !proc_of_log.
        destruct (on_kill (proc_of w h)) as [[]|e']; step_py;
          [reflexivity |].
        destruct (is_Exception e'); reflexivity.
      * destruct (is_Exception e); reflexivity.
  - destruct (is_Exception e); reflexivity.
Qed.

(** C1 on the code: [start_subprocess_module] registers a child whose
    [terminate()] raises an [OSError]; [stop_subprocess_module] then
    returns [False] with the handle still registered, and the status of the
    key stays "running". *)
Theorem stop_keeps_handle_when_terminate_raises :
  let w0 := boot "/bot" "python3" bot_disk (fun _ => Ret unstoppable) in
  let w1 := snd (start_subprocess_module "face" w0) in
  let w2 := snd (stop_subprocess_module "face" w1) in
  fst (start_subprocess_module "face" w0) = Ret (Some 0)
  /\ fst (stop_subprocess_module "face" w1) = Ret false
  /\ running_procs w2 !! "face" = Some 0
  /\ trace w2 =
     [EvPopen ["python3"; "/bot/facerecognition.py"] "/bot" (Some 0);
      EvTerminate 0]
  /\ fst (status "face" w2) = Ret "running".
Proof. repeat split; vm_compute; reflexivity. Qed.

(** The sibling paths do pop the handle: a graceful exit, and a forced kill
    after the grace period ran out. *)
Example stop_graceful :
  let w1 := snd (start_subprocess_module "face"
                   (boot "/bot" "python3" bot_disk (fun _ => Ret child))) in
  let r := stop_subprocess_module "face" w1 in
  fst r = Ret true
  /\ running_procs (snd r) !! "face" = None
  /\ fst (status "face" (snd r)) = Ret "stopped".
Proof. repeat split; vm_compute; reflexivity. Qed.

Example stop_forced :
  let w1 := snd (start_subprocess_module "face"
                   (boot "/bot" "python3" bot_disk
                      (fun _ => Ret slow_child))) in
  let r := stop_subprocess_module "face" w1 in
  fst r = Ret true
  /\ running_procs (snd r) !! "face" = None
  /\ trace (snd r) =
     [EvPopen ["python3"; "/bot/facerecognition.py"] "/bot" (Some 0);
      EvTerminate 0; EvWait 0; EvKill 0].
Proof. repeat split; vm_compute; reflexivity. Qed.


(** ** The registry invariant *)

Lemma boot_registry_ok (base exe : string) (disk : gset string)
    (answer : nat -> result process) :
  registry_ok (boot base exe disk answer).
Proof. intros k h H. cbn in H. rewrite lookup_empty in H. discriminate H. Qed.

Lemma start_keeps_registry_ok (key : string) (w : world) :
  registry_ok w -> registry_ok (snd (start_subprocess_module key w)).
Proof.
  intros Hok.
  destruct (start_cases key w)
    as [Hn|[Hm|[[Hd [h [Hr Ha]]]|[script [Hs [Hf Hl]]]]]].
  - unfold start_subprocess_module. rewrite Hn. exact Hok.
  - rewrite (start_script_missing key w Hm). exact Hok.
  - rewrite (start_already_running key h w Hd Hr Ha). exact Hok.
  - rewrite (start_spawn key script w Hs Hf Hl).
    destruct (popen_answer w (popen_calls w)) as [p|e]; cbn [snd].
    + intros k h. unfold spawned.
      cbn [running_procs procs set_running_procs log set_procs].
      rewrite length_app. cbn [length].
      destruct (decide (PyStr.lower key = k)) as [<-|Hk].
      * rewrite lookup_insert_eq. intros [= <-]. split; [lia |].
        rewrite Hs. eauto.
      * rewrite lookup_insert_ne by exact Hk. intros H.
        destruct (Hok k h H) as [Hlt Htab]. split; [lia | exact Htab].
    + exact Hok.
Qed.

Lemma stop_store_length (key : string) (w : world) :
  length (procs (snd (stop_subprocess_module key w))) = length (procs w).
Proof.
  unfold stop_subprocess_module, terminate, wait, kill. run_py.
  destruct (running_procs w !! PyStr.lower key) as [h|]; [| reflexivity].
  step_py. destruct (returncode (proc_of w h)); [reflexivity |].
  rewrite !proc_of_log.
  destruct (on_terminate (proc_of w h)) as [[]|e]; step_py.
  - destruct (on_wait (proc_of w h)) as [code|e]; step_py.
    + cbn. apply length_insert.
    + destruct (is_TimeoutExpired e); step_py.
      * rewrite !proc_of_log.
        destruct (on_kill (proc_of w h)) as [[]|e']; step_py.
        -- reflexivity.
        -- destruct (is_Exception e'); reflexivity.
      * destruct (is_Exception e); reflexivity.
  - destruct (is_Exception e); reflexivity.
Qed.

Lemma stop_keeps_registry_ok (key : string) (w : world) :
  registry_ok w -> registry_ok (snd (stop_subprocess_module key w)).
Proof.
  intros Hok k h. rewrite stop_store_length.
  pose proof (stop_registry key w) as Hreg. cbv zeta in Hreg.
  rewrite Hreg.
  destruct (fst (stop_subprocess_module key w)) as [[|]|e];
    try apply Hok.
  intros H. apply lookup_delete_Some in H as [_ H]. exact (Hok k h H).
Qed.

(** ** The paths of [stop_subprocess_module] on a live handle *)

Lemma stop_terminate_raises (key : string) (h : handle) (e : exn)
    (w : world) :
  running_procs w !! PyStr.lower key = Some h ->
  alive h w ->
  on_terminate (proc_of w h) = Raise e ->
  stop_subprocess_module key w =
  (if is_Exception e then Ret false else Raise e, log (EvTerminate h) w).
Proof.
  intros Hr Ha Ht. unfold alive in Ha.
  unfold stop_subprocess_module, terminate, wait, kill. run_py.
  rewrite Hr. step_py. rewrite Ha. rewrite !proc_of_log, Ht. step_py.
  destruct (is_Exception e); reflexivity.
Qed.

Lemma stop_waited (key : string) (h : handle) (code : Z) (w : world) :
  running_procs w !! PyStr.lower key = Some h ->
  alive h w ->
  on_terminate (proc_of w h) = Ret tt ->
  on_wait (proc_of w h) = Ret code ->
  stop_subprocess_module key w =
  (Ret true,
   unregistered (PyStr.lower key)
     (set_returncode h code (log (EvWait h) (log (EvTerminate h) w)))).
Proof.
  intros Hr Ha Ht Hw. unfold alive in Ha.
  unfold stop_subprocess_module, terminate, wait, kill. run_py.
  rewrite Hr. step_py. rewrite Ha. rewrite !proc_of_log, Ht. step_py.
  rewrite Hw. reflexivity.
Qed.

Lemma stop_wait_raises (key : string) (h : handle) (e : exn) (w : world) :
  running_procs w !! PyStr.lower key = Some h ->
  alive h w ->
  on_terminate (proc_of w h) = Ret tt ->
  on_wait (proc_of w h) = Raise e ->
  is_TimeoutExpired e = false ->
  stop_subprocess_module key w =
  (if is_Exception e then Ret false else Raise e,
   log (EvWait h) (log (EvTerminate h) w)).
Proof.
  intros Hr Ha Ht Hw He. unfold alive in Ha.
  unfold stop_subprocess_module, terminate, wait, kill. run_py.
  rewrite Hr. step_py. rewrite Ha. rewrite !proc_of_log, Ht. step_py.
  rewrite Hw. step_py. rewrite He.
  destruct (is_Exception e); reflexivity.
Qed.

Lemma stop_killed (key : string) (h : handle) (w : world) :
  running_procs w !! PyStr.lower key = Some h ->
  alive h w ->
  on_terminate (proc_of w h) = Ret tt ->
  on_wait (proc_of w h) = Raise TimeoutExpired ->
  on_kill (proc_of w h) = Ret tt ->
  stop_subprocess_module key w =
  (Ret true,
   unregistered (PyStr.lower key)
     (log (EvKill h) (log (EvWait h) (log (EvTerminate h) w)))).
Proof.
  intros Hr Ha Ht Hw Hk. unfold alive in Ha.
  unfold stop_subprocess_module, terminate, wait, kill. run_py.
  rewrite Hr. step_py. rewrite Ha. rewrite !proc_of_log, Ht. step_py.
  rewrite Hw. step_py. rewrite !proc_of_log, Hk. reflexivity.
Qed.

Lemma stop_kill_raises (key : string) (h : handle) (e : exn) (w : world) :
  running_procs w !! PyStr.lower key = Some h ->
  alive h w ->
  on_terminate (proc_of w h) = Ret tt ->
  on_wait (proc_of w h) = Raise TimeoutExpired ->
  on_kill (proc_of w h) = Raise e ->
  stop_subprocess_module key w =
  (if is_Exception e then Ret false else Raise e,
   log (EvKill h) (log (EvWait h) (log (EvTerminate h) w))).
Proof.
  intros Hr Ha Ht Hw Hk. unfold alive in Ha.
  unfold stop_subprocess_module, terminate, wait, kill. run_py.
  rewrite Hr. step_py. rewrite Ha. rewrite !proc_of_log, Ht. step_py.
  rewrite Hw. step_py. rewrite !proc_of_log, Hk.
  cbn [is_TimeoutExpired]. step_py.
  destruct (is_Exception e); reflexivity.
Qed.

Lemma is_TimeoutExpired_true (e : exn) :
  is_TimeoutExpired e = true -> e = TimeoutExpired.
Proof. destruct e; (reflexivity || discriminate). Qed.

Lemma stop_exited_path (key : string) (h : handle) (w : world) :
  running_procs w !! PyStr.lower key = Some h ->
  ~ alive h w ->
  stop_subprocess_module key w = (Ret true, unregistered (PyStr.lower key) w).
Proof.
  intros Hr Ha. unfold stop_subprocess_module. run_py. rewrite Hr. step_py.
  unfold alive in Ha.
  destruct (returncode (proc_of w h)) as [c|]; [reflexivity | congruence].
Qed.

Lemma stop_paths (key : string) (w : world) :
  stop_path key w (fst (stop_subprocess_module key w))
    (snd (stop_subprocess_module key w)).
Proof.
  destruct (running_procs w !! PyStr.lower key) as [h|] eqn:Hr.
  2:{ rewrite (stop_not_registered key w Hr). now constructor. }
  destruct (returncode (proc_of w h)) as [c|] eqn:Ha.
  { assert (Hn : ~ alive h w) by (unfold alive; congruence).
    rewrite (stop_exited_path key h w Hr Hn).
    now apply (path_exited key w h). }
  destruct (on_terminate (proc_of w h)) as [[]|e] eqn:Ht.
  2:{ rewrite (stop_terminate_raises key h e w Hr Ha Ht).
      now apply (path_terminate_raises key w h e). }
  destruct (on_wait (proc_of w h)) as [code|e] eqn:Hw.
  { rewrite (stop_waited key h code w Hr Ha Ht Hw).
    now apply (path_waited key w h code). }
  destruct (is_TimeoutExpired e) eqn:He.
  2:{ rewrite (stop_wait_raises key h e w Hr Ha Ht Hw He).
      now apply (path_wait_raises key w h e). }
  apply is_TimeoutExpired_true in He. subst e.
  destruct (on_kill (proc_of w h)) as [[]|e] eqn:Hk.
  - rewrite (stop_killed key h w Hr Ha Ht Hw Hk).
    now apply (path_killed key w h).
  - rewrite (stop_kill_raises key h e w Hr Ha Ht Hw Hk).
    now apply (path_kill_raises key w h e).
Qed.

(** ** What the registry functions do and never do *)

Lemma lookup_unregistered (k k' : string) (w : world) :
  k' <> k ->
  running_procs (unregistered k w) !! k' = running_procs w !! k'.
Proof.
  intros H. unfold unregistered. cbn [running_procs set_running_procs].
  apply lookup_delete_ne. congruence.
Qed.

(** X1. [stop_subprocess_module] pops the entry of the key exactly when it
    returns [True]; on every other outcome the registry is as it was.  It
    never spawns and never touches the disk. *)
Theorem stop_pops_exactly_on_true (key : string) (w : world) :
  let r := stop_subprocess_module key w in
  running_procs (snd r) =
    match fst r with
    | Ret true => delete (PyStr.lower key) (running_procs w)
    | _ => running_procs w
    end
  /\ popen_calls (snd r) = popen_calls w
  /\ files (snd r) = files w
  /\ length (procs (snd r)) = length (procs w).
Proof.
  cbv zeta.
  destruct (stop_paths key w);
    repeat match goal with
           | |- context [is_Exception ?e] => destruct (is_Exception e)
           end;
    (split; [reflexivity | split; [reflexivity | split; [reflexivity |]]]);
    cbn; rewrite ?length_insert; reflexivity.
Qed.

(** X2. Once [stop_subprocess_module] has returned [True], a second call
    for the same key finds nothing: it returns [False] and leaves the world
    as it is. *)
Theorem stop_twice (key : string) (w w' : world) :
  stop_subprocess_module key w = (Ret true, w') ->
  stop_subprocess_module key w' = (Ret false, w').
Proof.
  intros H. apply stop_not_registered.
  pose proof (stop_registry key w) as Hreg. cbv zeta in Hreg.
  rewrite H in Hreg. cbn [fst snd] in Hreg. rewrite Hreg.
  apply lookup_delete_eq.
Qed.

Lemma stop_twice_witness :
  let w1 := snd (start_subprocess_module "hand"
                   (boot "/bot" "python3" bot_disk (fun _ => Ret child))) in
  let w2 := snd (stop_subprocess_module "hand" w1) in
  stop_subprocess_module "hand" w2 = (Ret false, w2).
Proof.
  intros w1 w2. apply (stop_twice "hand" w1 w2).
  vm_compute. reflexivity.
Defined.

Lemma raise_if_Exception {A : Type} (e e' : exn) (a : A) :
  (if is_Exception e then Ret a else Raise e) = Raise e' ->
  e = e' /\ is_Exception e' = false.
Proof.
  destruct (is_Exception e) eqn:He; [discriminate |].
  intros [= <-]. split; [reflexivity | exact He].
Qed.

(** X3. Neither registry function raises an [Exception]: what comes out of
    [start_subprocess_module] or [stop_subprocess_module] as an exception
    is not caught by [except Exception] (an interrupt, say). *)
Theorem registry_calls_raise_no_Exception (key : string) (e : exn)
    (w : world) :
  fst (start_subprocess_module key w) = Raise e
  \/ fst (stop_subprocess_module key w) = Raise e ->
  is_Exception e = false.
Proof.
  intros [H|H].
  - destruct (start_cases key w)
      as [Hn|[Hm|[[Hd [h [Hr Ha]]]|[script [Hs [Hf Hl]]]]]].
    + unfold start_subprocess_module in H. rewrite Hn in H. discriminate H.
    + rewrite (start_script_missing key w Hm) in H. discriminate H.
    + rewrite (start_already_running key h w Hd Hr Ha) in H. discriminate H.
    + rewrite (start_spawn key script w Hs Hf Hl) in H.
      destruct (popen_answer w (popen_calls w)) as [p|e0];
        [discriminate H |].
      cbn [fst] in H. apply raise_if_Exception in H. tauto.
  - destruct (stop_paths key w); try discriminate H;
      apply raise_if_Exception in H; tauto.
Qed.

Lemma registry_calls_raise_no_Exception_witness :
  is_Exception KeyboardInterrupt = false.
Proof.
  apply (registry_calls_raise_no_Exception "face" KeyboardInterrupt
           (boot "/bot" "python3" bot_disk
              (fun _ => Raise KeyboardInterrupt))).
  left. vm_compute. reflexivity.
Defined.

(** X4. A call for one key leaves the registry entries of all other keys
    alone, whether it starts or stops. *)
Theorem registry_frame (key k' : string) (w : world) :
  k' <> PyStr.lower key ->
  running_procs (snd (start_subprocess_module key w)) !! k'
  = running_procs w !! k'
  /\ running_procs (snd (stop_subprocess_module key w)) !! k'
     = running_procs w !! k'.
Proof.
  intros Hk. split.
  - destruct (start_cases key w)
      as [Hn|[Hm|[[Hd [h [Hr Ha]]]|[script [Hs [Hf Hl]]]]]].
    + unfold start_subprocess_module. rewrite Hn. reflexivity.
    + rewrite (start_script_missing key w Hm). reflexivity.
    + rewrite (start_already_running key h w Hd Hr Ha). reflexivity.
    + rewrite (start_spawn key script w Hs Hf Hl).
      destruct (popen_answer w (popen_calls w)) as [p|e]; [| reflexivity].
      unfold spawned. cbn [snd running_procs set_running_procs].
      apply lookup_insert_ne. congruence.
  - pose proof (stop_registry key w) as Hreg. cbv zeta in Hreg.
    rewrite Hreg.
    destruct (fst (stop_subprocess_module key w)) as [[|]|e];
      try reflexivity.
    apply lookup_delete_ne. congruence.
Qed.

Lemma registry_frame_witness :
  let w1 := snd (start_subprocess_module "face"
                   (boot "/bot" "python3" bot_disk (fun _ => Ret child))) in
  running_procs (snd (start_subprocess_module "HAND" w1)) !! "face"
  = running_procs w1 !! "face"
  /\ running_procs (snd (stop_subprocess_module "HAND" w1)) !! "face"
     = running_procs w1 !! "face".
Proof.
  intros w1. apply (registry_frame "HAND" "face" w1).
  vm_compute. discriminate.
Defined.

Lemma alive_in_store (h : handle) (w : world) :
  alive h w -> exists p, procs w !! h = Some p /\ returncode p = None.
Proof.
  unfold alive, proc_of. destruct (procs w !! h) as [p|]; [eauto |].
  discriminate.
Qed.

Lemma returncode_set (h : handle) (code : Z) (w : world) :
  h < length (procs w) ->
  returncode (proc_of (set_returncode h code w) h) = Some code.
Proof.
  intros Hlt. unfold proc_of at 1, set_returncode.
  cbn [procs set_procs]. rewrite list_lookup_insert_eq by exact Hlt.
  reflexivity.
Qed.

(** X5. Graceful stop.  For a live registered child that takes the
    termination request and exits within the grace period,
    [stop_subprocess_module] returns [True], drops the entry, records the
    exit status, and has done exactly [terminate()] then [wait()]: no
    [kill()]. *)
Theorem stop_graceful_exit (key : string) (h : handle) (code : Z)
    (w : world) :
  running_procs w !! PyStr.lower key = Some h ->
  alive h w ->
  on_terminate (proc_of w h) = Ret tt ->
  on_wait (proc_of w h) = Ret code ->
  let r := stop_subprocess_module key w in
  fst r = Ret true
  /\ running_procs (snd r) !! PyStr.lower key = None
  /\ trace (snd r) = (trace w ++ [EvTerminate h; EvWait h])%list
  /\ returncode (proc_of (snd r) h) = Some code.
Proof.
  intros Hr Ha Ht Hw. cbv zeta.
  rewrite (stop_waited key h code w Hr Ha Ht Hw). cbn [fst snd].
  split; [reflexivity | split; [| split]].
  - unfold unregistered. cbn [running_procs set_running_procs].
    apply lookup_delete_eq.
  - cbn. rewrite <- app_assoc. reflexivity.
  - destruct (alive_in_store h w Ha) as [p [Hp _]].
    apply lookup_lt_Some in Hp.
    exact (returncode_set h code _ Hp).
Qed.

Lemma stop_graceful_exit_witness :
  let w1 := snd (start_subprocess_module "face"
                   (boot "/bot" "python3" bot_disk (fun _ => Ret child))) in
  let r := stop_subprocess_module "face" w1 in
  fst r = Ret true
  /\ running_procs (snd r) !! PyStr.lower "face" = None
  /\ trace (snd r) = (trace w1 ++ [EvTerminate 0; EvWait 0])%list
  /\ returncode (proc_of (snd r) 0) = Some (-15)%Z.
Proof.
  intros w1.
  apply (stop_graceful_exit "face" 0 (-15)%Z w1);
    vm_compute; reflexivity.
Defined.



Lemma if_Exception_false (e : exn) :
  (if is_Exception e then Ret false else Raise e) = Ret false ->
  is_Exception e = true.
Proof. destruct (is_Exception e); [reflexivity | discriminate]. Qed.

(** X7. [stop_subprocess_module] returns [False] in two situations only:
    nothing is registered under the key, or the registered child is alive
    and one of the termination steps raised an [Exception]. *)
Theorem stop_false_iff (key : string) (w : world) :
  fst (stop_subprocess_module key w) = Ret false <->
  running_procs w !! PyStr.lower key = None
  \/ exists h e,
       running_procs w !! PyStr.lower key = Some h
       /\ alive h w
       /\ termination_raises (proc_of w h) e
       /\ is_Exception e = true.
Proof.
  split.
  - intros H. destruct (stop_paths key w) as
      [Hr|h Hr Ha|h e Hr Ha Ht|h code Hr Ha Ht Hw|h e Hr Ha Ht Hw He
      |h Hr Ha Ht Hw Hk|h e Hr Ha Ht Hw Hk];
      try discriminate H.
    + left. exact Hr.
    + right. exists h, e. unfold termination_raises.
      apply if_Exception_false in H. tauto.
    + right. exists h, e. unfold termination_raises.
      apply if_Exception_false in H. tauto.
    + right. exists h, e. unfold termination_raises.
      apply if_Exception_false in H. tauto.
  - intros [Hr|[h [e [Hr [Ha [[Ht|[[Ht [Hw He]]|[Ht [Hw Hk]]]] Hex]]]]]].
    + rewrite (stop_not_registered key w Hr). reflexivity.
    + rewrite (stop_terminate_raises key h e w Hr Ha Ht), Hex. reflexivity.
    + rewrite (stop_wait_raises key h e w Hr Ha Ht Hw He), Hex. reflexivity.
    + rewrite (stop_kill_raises key h e w Hr Ha Ht Hw Hk), Hex. reflexivity.
Qed.

(** X8. Restart.  When the registered child has exited, the script is on
    disk and the spawn succeeds, [start_subprocess_module] returns a new
    handle, different from the old one, and registers it in place of the
    old one; the old [Popen] object stays in the store as it was. *)
Theorem start_replaces_exited_handle (key : string) (h : handle)
    (p : process) (w : world) :
  registry_ok w ->
  script_on_disk key w ->
  running_procs w !! PyStr.lower key = Some h ->
  ~ alive h w ->
  popen_answer w (popen_calls w) = Ret p ->
  let r := start_subprocess_module key w in
  let h' := length (procs w) in
  fst r = Ret (Some h')
  /\ h' <> h
  /\ running_procs (snd r) !! PyStr.lower key = Some h'
  /\ procs (snd r) !! h' = Some p
  /\ procs (snd r) !! h = procs w !! h.
Proof.
  intros Hok [script [Hs Hf]] Hr Ha Hp. cbv zeta.
  assert (Hl : ~ live (PyStr.lower key) w).
  { intros [h0 [Hr0 Ha0]]. rewrite Hr in Hr0. injection Hr0 as <-. tauto. }
  rewrite (start_spawn key script w Hs Hf Hl), Hp. cbn [fst snd].
  destruct (Hok _ _ Hr) as [Hlt _].
  unfold spawned. cbn [running_procs procs set_running_procs log set_procs].
  split; [reflexivity | split; [lia | split; [| split]]].
  - apply lookup_insert_eq.
  - rewrite lookup_app_r by lia. rewrite Nat.sub_diag. reflexivity.
  - apply lookup_app_l. exact Hlt.
Qed.

Lemma start_replaces_exited_handle_witness :
  let w1 := snd (start_subprocess_module "face"
                   (boot "/bot" "python3" bot_disk
                      (fun _ => Ret exited_child))) in
  let r := start_subprocess_module "face" w1 in
  fst r = Ret (Some 1)
  /\ 1 <> 0
  /\ running_procs (snd r) !! PyStr.lower "face" = Some 1
  /\ procs (snd r) !! 1 = Some exited_child
  /\ procs (snd r) !! 0 = procs w1 !! 0.
Proof.
  intros w1.
  apply (start_replaces_exited_handle "face" 0 exited_child w1).
  - apply start_keeps_registry_ok, boot_registry_ok.
  - exists "facerecognition.py". split; vm_compute; reflexivity.
  - vm_compute. reflexivity.
  - vm_compute. discriminate.
  - vm_compute. reflexivity.
Defined.

(** X9. [start_subprocess_module] performs at most one process operation,
    a spawn, and only for a key of the module table whose script is on
    disk and which has no live handle; the command is the interpreter
    followed by the script path, run in the base directory.  It never
    signals or reaps a process, and the [Popen] objects already in the
    store stay as they are. *)
Theorem start_only_spawns (key : string) (w : world) :
  let w' := snd (start_subprocess_module key w) in
  (trace w' = trace w
   \/ exists script spawned_handle,
        MODULE_NAMES !! PyStr.lower key = Some script
        /\ os_path_join (BASE_DIR w) script ∈ files w
        /\ ~ live (PyStr.lower key) w
        /\ trace w' =
           (trace w ++
            [EvPopen [PYTHON_EXE w; os_path_join (BASE_DIR w) script]
               (BASE_DIR w) spawned_handle])%list)
  /\ (forall h, h < length (procs w) -> procs w' !! h = procs w !! h)
  /\ files w' = files w.
Proof.
  cbv zeta.
  destruct (start_cases key w)
    as [Hn|[Hm|[[Hd [h [Hr Ha]]]|[script [Hs [Hf Hl]]]]]].
  - unfold start_subprocess_module. rewrite Hn. cbn [snd ret]. tauto.
  - rewrite (start_script_missing key w Hm). cbn [snd]. tauto.
  - rewrite (start_already_running key h w Hd Hr Ha). cbn [snd]. tauto.
  - rewrite (start_spawn key script w Hs Hf Hl).
    destruct (popen_answer w (popen_calls w)) as [p|e]; cbn [snd].
    + split; [| split].
      * right. exists script, (Some (length (procs w))).
        repeat split; assumption || reflexivity.
      * intros h Hlt. unfold spawned.
        cbn [procs set_running_procs log set_procs].
        apply lookup_app_l. exact Hlt.
      * reflexivity.
    + split; [| split].
      * right. exists script, None.
        repeat split; assumption || reflexivity.
      * reflexivity.
      * reflexivity.
Qed.

Lemma lookup_set_returncode_ne (h h' : handle) (code : Z) (w : world) :
  h' <> h -> procs (set_returncode h code w) !! h' = procs w !! h'.
Proof.
  intros Hne. unfold set_returncode. cbn [procs set_procs].
  apply list_lookup_insert_ne. congruence.
Qed.

(** X10. [stop_subprocess_module] acts on the registered child only: the
    operations it adds to the trace are a prefix of [terminate()],
    [wait()], [kill()] on the handle registered under the key (none when
    nothing is registered), and every other [Popen] object of the store is
    untouched. *)
Theorem stop_signals_only_registered (key : string) (w : world) :
  let w' := snd (stop_subprocess_module key w) in
  (exists evs,
     trace w' = (trace w ++ evs)%list
     /\ match running_procs w !! PyStr.lower key with
        | Some h =>
            evs = [] \/ evs = [EvTerminate h]
            \/ evs = [EvTerminate h; EvWait h]
            \/ evs = [EvTerminate h; EvWait h; EvKill h]
        | None => evs = []
        end)
  /\ (forall h',
        running_procs w !! PyStr.lower key <> Some h' ->
        procs w' !! h' = procs w !! h').
Proof.
  cbv zeta.
  destruct (stop_paths key w) as
    [Hr|h Hr Ha|h e Hr Ha Ht|h code Hr Ha Ht Hw|h e Hr Ha Ht Hw He
    |h Hr Ha Ht Hw Hk|h e Hr Ha Ht Hw Hk]; rewrite Hr.
  - split; [exists []; split; [symmetry; apply app_nil_r | reflexivity] |].
    reflexivity.
  - split; [exists []; split; [symmetry; apply app_nil_r | tauto] |].
    reflexivity.
  - split; [exists [EvTerminate h]; split; [reflexivity | tauto] |].
    reflexivity.
  - split.
    + exists [EvTerminate h; EvWait h]. split; [| tauto].
      cbn. rewrite <- app_assoc. reflexivity.
    + intros h' Hne. unfold unregistered. cbn [procs set_running_procs].
      rewrite lookup_set_returncode_ne by congruence. reflexivity.
  - split; [| reflexivity].
    exists [EvTerminate h; EvWait h]. split; [| tauto].
    cbn. rewrite <- app_assoc. reflexivity.
  - split; [| reflexivity].
    exists [EvTerminate h; EvWait h; EvKill h]. split; [| tauto].
    cbn. rewrite <- !app_assoc. reflexivity.
  - split; [| reflexivity].
    exists [EvTerminate h; EvWait h; EvKill h]. split; [| tauto].
    cbn. rewrite <- !app_assoc. reflexivity.
Qed.

(** X12. A call of [start_subprocess_module] that returns no handle leaves
    the registry and the store untouched: a stale entry stays, no entry is
    added. *)
Theorem failed_start_keeps_registry (key : string) (w : world) :
  (forall h, fst (start_subprocess_module key w) <> Ret (Some h)) ->
  running_procs (snd (start_subprocess_module key w)) = running_procs w
  /\ procs (snd (start_subprocess_module key w)) = procs w.
Proof.
  intros H.
  destruct (start_cases key w)
    as [Hn|[Hm|[[Hd [h [Hr Ha]]]|[script [Hs [Hf Hl]]]]]].
  - unfold start_subprocess_module. rewrite Hn. cbn [snd ret]. tauto.
  - rewrite (start_script_missing key w Hm). cbn [snd]. tauto.
  - rewrite (start_already_running key h w Hd Hr Ha). cbn [snd]. tauto.
  - rewrite (start_spawn key script w Hs Hf Hl) in *.
    destruct (popen_answer w (popen_calls w)) as [p|e]; cbn [fst snd] in *.
    + exfalso. apply (H (length (procs w))). reflexivity.
    + split; reflexivity.
Qed.

Lemma failed_start_keeps_registry_witness :
  let w1 := snd (start_subprocess_module "face"
                   (boot "/bot" "python3" bot_disk
                      (fun n => match n with
                                | 0 => Ret exited_child
                                | _ => Raise OSError
                                end))) in
  running_procs (snd (start_subprocess_module "face" w1)) = running_procs w1
  /\ procs (snd (start_subprocess_module "face" w1)) = procs w1.
Proof.
  intros w1. apply (failed_start_keeps_registry "face" w1).
  intros h. vm_compute. discriminate.
Defined.

(** ** Invariants over runs *)

Lemma start_keeps_registry_inj (key : string) (w : world) :
  registry_ok w -> registry_inj w ->
  registry_inj (snd (start_subprocess_module key w)).
Proof.
  intros Hok Hinj.
  destruct (start_cases key w)
    as [Hn|[Hm|[[Hd [h [Hr Ha]]]|[script [Hs [Hf Hl]]]]]].
  - unfold start_subprocess_module. rewrite Hn. exact Hinj.
  - rewrite (start_script_missing key w Hm). exact Hinj.
  - rewrite (start_already_running key h w Hd Hr Ha). exact Hinj.
  - rewrite (start_spawn key script w Hs Hf Hl).
    destruct (popen_answer w (popen_calls w)) as [p|e]; cbn [snd];
      [| exact Hinj].
    intros k1 k2 h. unfold spawned.
    cbn [running_procs set_running_procs].
    destruct (decide (PyStr.lower key = k1)) as [<-|H1];
      destruct (decide (PyStr.lower key = k2)) as [<-|H2];
      rewrite ?lookup_insert_eq, ?lookup_insert_ne by assumption.
    + reflexivity.
    + intros [= <-] H. destruct (Hok _ _ H) as [Hlt _]. lia.
    + intros H [= <-]. destruct (Hok _ _ H) as [Hlt _]. lia.
    + apply Hinj.
Qed.

Lemma stop_keeps_registry_inj (key : string) (w : world) :
  registry_inj w -> registry_inj (snd (stop_subprocess_module key w)).
Proof.
  intros Hinj k1 k2 h.
  pose proof (stop_registry key w) as Hreg. cbv zeta in Hreg.
  rewrite Hreg.
  destruct (fst (stop_subprocess_module key w)) as [[|]|e];
    try apply Hinj.
  intros H1 H2. apply lookup_delete_Some in H1 as [_ H1].
  apply lookup_delete_Some in H2 as [_ H2]. exact (Hinj _ _ _ H1 H2).
Qed.

Lemma step_keeps_invariant (w w' : world) :
  step w w' ->
  registry_ok w /\ registry_inj w -> registry_ok w' /\ registry_inj w'.
Proof.
  intros Hstep [Hok Hinj]. destruct Hstep as [key w|key w|h code w|disk w].
  - split; [apply start_keeps_registry_ok; exact Hok |].
    apply start_keeps_registry_inj; assumption.
  - split; [apply stop_keeps_registry_ok; exact Hok |].
    apply stop_keeps_registry_inj; exact Hinj.
  - split; [| exact Hinj].
    intros k h0 H. unfold set_returncode. cbn [procs set_procs].
    rewrite length_insert. exact (Hok k h0 H).
  - split; [exact Hok | exact Hinj].
Qed.

(** X11. In every world reached from the import-time state by calls of the
    two registry functions, children exiting and the disk changing, each
    registered handle is a [Popen] object of the store under a key of the
    module table, and no two keys share a [Popen] object. *)
Theorem reachable_registry_sound (w : world) :
  reachable w -> registry_ok w /\ registry_inj w.
Proof.
  induction 1 as [base exe disk answer|w w' _ IH Hstep].
  - split; [apply boot_registry_ok |].
    intros k1 k2 h H. cbn in H. rewrite lookup_empty in H. discriminate H.
  - exact (step_keeps_invariant w w' Hstep IH).
Qed.

Lemma reachable_registry_sound_witness :
  let w0 := boot "/bot" "python3" bot_disk (fun _ => Ret child) in
  let w := snd (start_subprocess_module "hand"
                  (snd (start_subprocess_module "face" w0))) in
  registry_ok w /\ registry_inj w.
Proof.
  intros w0 w. apply (reachable_registry_sound w).
  apply (reach_step (snd (start_subprocess_module "face" w0)) w).
  - apply (reach_step w0 _ (reach_boot _ _ _ _)). apply step_start.
  - apply step_start.
Defined.

(** ** More on the text helpers *)

Section PyStrMore.
Import PyStr.

Lemma lower_char_idempotent (c : ascii) :
  lower_char (lower_char c) = lower_char c.
Proof. destruct c as [[] [] [] [] [] [] [] []]; reflexivity. Qed.

Lemma lower_idempotent (s : string) : lower (lower s) = lower s.
Proof.
  induction s as [|c s IH]; [reflexivity |].
  cbn [lower]. now rewrite lower_char_idempotent, IH.
Qed.

Lemma lower_app (a b : string) : lower (a +:+ b) = lower a +:+ lower b.
Proof.
  induction a as [|c a IH]; [reflexivity |].
  change (String (lower_char c) (lower (a +:+ b))
          = String (lower_char c) (lower a +:+ lower b)).
  now rewrite IH.
Qed.

Lemma contains_cons (w : string) (c : ascii) (t : string) :
  contains w t = true -> contains w (String c t) = true.
Proof. intros H. cbn [contains]. rewrite H. apply orb_true_r. Qed.

Lemma contains_app_l (w a t : string) :
  contains w t = true -> contains w (a +:+ t) = true.
Proof.
  intros H. induction a as [|c a IH]; [exact H |].
  change (contains w (String c (a +:+ t)) = true).
  apply contains_cons, IH.
Qed.

Lemma startswith_app_r (t w b : string) :
  startswith t w = true -> startswith (t +:+ b) w = true.
Proof.
  rewrite !startswith_spec. intros [r ->]. exists (r +:+ b).
  apply append_assoc.
Qed.

Lemma contains_app_r (w t b : string) :
  contains w t = true -> contains w (t +:+ b) = true.
Proof.
  induction t as [|c t IH]; intros H.
  - cbn [contains] in H. rewrite orb_false_r in H.
    destruct w; [| discriminate H].
    destruct b; reflexivity.
  - cbn [contains] in H. apply orb_true_iff in H as [H|H].
    + change (contains w (String c (t +:+ b)) = true).
      cbn [contains].
      change (String c (t +:+ b)) with (String c t +:+ b).
      rewrite (startswith_app_r _ _ b H). reflexivity.
    + change (contains w (String c (t +:+ b)) = true).
      apply contains_cons, IH, H.
Qed.

(** The [in] operator, read as a statement about the text. *)
Lemma contains_spec (w t : string) :
  contains w t = true <-> exists a b, t = a +:+ w +:+ b.
Proof.
  split.
  - induction t as [|c t IH]; cbn [contains]; intros H.
    + rewrite orb_false_r in H. apply startswith_spec in H as [r ->].
      exists "", r. reflexivity.
    + apply orb_true_iff in H as [H|H].
      * apply startswith_spec in H as [r ->]. exists "", r. reflexivity.
      * destruct (IH H) as [a [b ->]]. exists (String c a), b. reflexivity.
  - intros [a [b ->]]. apply contains_app_l, contains_app_r.
    clear. induction w as [|c w IH]; [reflexivity |].
    cbn [contains startswith]. destruct (ascii_dec c c); [| congruence].
    assert (H : startswith (w +:+ "") w = true) by apply startswith_app.
    assert (Hw : w +:+ "" = w).
    { clear. induction w as [|c w IH]; [reflexivity |].
      change (String c (w +:+ "") = String c w). now rewrite IH. }
    rewrite Hw in H. rewrite H. reflexivity.
Qed.

End PyStrMore.

(** ** More on the command interpreter *)

Lemma isspace_lower_char (c : ascii) :
  PyStr.isspace (PyStr.lower_char c) = PyStr.isspace c.
Proof. destruct c as [[] [] [] [] [] [] [] []]; reflexivity. Qed.

Lemma lower_lstrip (s : string) :
  PyStr.lower (PyStr.lstrip s) = PyStr.lstrip (PyStr.lower s).
Proof.
  induction s as [|c s IH]; [reflexivity |].
  cbn [PyStr.lstrip PyStr.lower]. rewrite isspace_lower_char.
  destruct (PyStr.isspace c); [exact IH | reflexivity].
Qed.

Lemma lower_rstrip (s : string) :
  PyStr.lower (PyStr.rstrip s) = PyStr.rstrip (PyStr.lower s).
Proof.
  induction s as [|c s IH]; [reflexivity |].
  cbn [PyStr.rstrip PyStr.lower]. rewrite <- IH, isspace_lower_char.
  destruct (PyStr.rstrip s); [destruct (PyStr.isspace c) |]; reflexivity.
Qed.

Lemma lower_strip (s : string) :
  PyStr.lower (PyStr.strip s) = PyStr.strip (PyStr.lower s).
Proof. unfold PyStr.strip. now rewrite lower_rstrip, lower_lstrip. Qed.

Lemma startswith_space (c : ascii) (t w : string) :
  solid w = true -> PyStr.isspace c = true ->
  PyStr.startswith (String c t) w = false.
Proof.
  destruct w as [|a w]; [discriminate |]. cbn [solid PyStr.startswith].
  intros Ha Hc. destruct (ascii_dec a c) as [->|]; [| reflexivity].
  rewrite Hc in Ha. discriminate Ha.
Qed.

Lemma contains_lstrip (w t : string) :
  solid w = true ->
  PyStr.contains w (PyStr.lstrip t) = PyStr.contains w t.
Proof.
  intros Hw. induction t as [|c t IH]; [reflexivity |].
  cbn [PyStr.lstrip]. destruct (PyStr.isspace c) eqn:Hc; [| reflexivity].
  rewrite IH. cbn [PyStr.contains].
  now rewrite (startswith_space c t w Hw Hc).
Qed.

Lemma ends_solid_tail (a : ascii) (w : string) :
  ends_solid (String a w) = true -> ends_solid w = true.
Proof. destruct w; [reflexivity | intros H; exact H]. Qed.

Lemma startswith_rstrip (t w : string) :
  ends_solid w = true ->
  PyStr.startswith (PyStr.rstrip t) w = PyStr.startswith t w.
Proof.
  revert w. induction t as [|c s IH]; intros w Hw; [reflexivity |].
  destruct w as [|a w]; [reflexivity |].
  pose proof (ends_solid_tail a w Hw) as Hw'.
  specialize (IH w Hw').
  cbn [PyStr.rstrip]. destruct (PyStr.rstrip s) as [|b r] eqn:Hr.
  - destruct (PyStr.isspace c) eqn:Hc; cbn [PyStr.startswith];
      destruct (ascii_dec a c) as [->|]; try reflexivity.
    + destruct w as [|a' w]; [| exact IH].
      cbn [ends_solid] in Hw. rewrite Hc in Hw. discriminate Hw.
    + exact IH.
  - cbn [PyStr.startswith]. destruct (ascii_dec a c); [exact IH | reflexivity].
Qed.

Lemma contains_rstrip (w t : string) :
  solid w = true -> ends_solid w = true ->
  PyStr.contains w (PyStr.rstrip t) = PyStr.contains w t.
Proof.
  intros Hs He.
  assert (Hnil : PyStr.contains w "" = false).
  { destruct w; [discriminate Hs | reflexivity]. }
  induction t as [|c s IH]; [reflexivity |].
  pose proof (startswith_rstrip (String c s) w He) as Hsw.
  assert (Hc : PyStr.contains w (String c s)
               = PyStr.startswith (String c s) w || PyStr.contains w s)
    by reflexivity.
  rewrite Hc, <- Hsw, <- IH.
  cbn [PyStr.rstrip]. destruct (PyStr.rstrip s) as [|b r].
  - destruct (PyStr.isspace c).
    + rewrite Hnil. destruct w; [discriminate Hs | reflexivity].
    + cbn [PyStr.contains]. reflexivity.
  - cbn [PyStr.contains]. reflexivity.
Qed.

Lemma contains_strip (w t : string) :
  solid w = true -> ends_solid w = true ->
  PyStr.contains w (PyStr.strip t) = PyStr.contains w t.
Proof.
  intros Hs He. unfold PyStr.strip.
  now rewrite contains_rstrip, contains_lstrip.
Qed.

Lemma any_in_strip (ws : list string) (t : string) :
  forallb (fun w => solid w && ends_solid w) ws = true ->
  PyStr.any_in ws (PyStr.strip t) = PyStr.any_in ws t.
Proof.
  unfold PyStr.any_in. induction ws as [|w ws IH]; [reflexivity |].
  cbn [forallb existsb]. intros H.
  apply andb_true_iff in H as [Hw Hws]. apply andb_true_iff in Hw as [Hs He].
  now rewrite (contains_strip w t Hs He), (IH Hws).
Qed.

Lemma parse_normalised (text : string) :
  parse_start_stop_command (PyStr.strip (PyStr.lower text))
  = parse_start_stop_command text.
Proof.
  unfold parse_start_stop_command.
  rewrite lower_strip, lower_idempotent.
  rewrite !any_in_strip by reflexivity.
  rewrite !contains_strip by reflexivity.
  destruct (PyStr.truthy (PyStr.strip (PyStr.lower text))) eqn:Hs.
  - assert (Ht : PyStr.truthy text = true).
    { destruct text; [discriminate Hs | reflexivity]. }
    rewrite Ht. reflexivity.
  - destruct (PyStr.truthy text) eqn:Ht; [| reflexivity].
    cbn [negb]. cbv zeta.
    assert (He : PyStr.strip (PyStr.lower text) = "").
    { destruct (PyStr.strip (PyStr.lower text)); [reflexivity | discriminate]. }
    rewrite <- (any_in_strip start_verbs (PyStr.lower text)) by reflexivity.
    rewrite <- (any_in_strip stop_verbs (PyStr.lower text)) by reflexivity.
    rewrite <- (any_in_strip hand_nouns (PyStr.lower text)) by reflexivity.
    rewrite <- !(contains_strip _ (PyStr.lower text)) by reflexivity.
    rewrite He. reflexivity.
Qed.

(** X13. The interpreter ignores case and surrounding white space: texts
    with the same lower-cased, trimmed form get the same classification.
    In particular the controller's [cmd.lower().strip()] changes nothing. *)
Theorem parse_ignores_case_and_margins (t1 t2 : string) :
  PyStr.strip (PyStr.lower t1) = PyStr.strip (PyStr.lower t2) ->
  parse_start_stop_command t1 = parse_start_stop_command t2.
Proof.
  intros H. rewrite <- (parse_normalised t1), <- (parse_normalised t2), H.
  reflexivity.
Qed.

Lemma parse_ignores_case_and_margins_witness :
  parse_start_stop_command "  STOP the Face Recognition "
  = parse_start_stop_command "stop the face recognition".
Proof.
  apply (parse_ignores_case_and_margins "  STOP the Face Recognition "
           "stop the face recognition").
  reflexivity.
Defined.

(** X14. The interpreter's results are a closed set: the action is none,
    start, stop or status; the target is none, chatbot, face or hand (never
    object or servo, though both are keys of the module table); and a
    status action comes with no target. *)
Theorem parse_range (text : string) :
  let r := parse_start_stop_command text in
  (fst r = None \/ fst r = Some "start" \/ fst r = Some "stop"
   \/ fst r = Some "status")
  /\ (snd r = None \/ snd r = Some "chatbot" \/ snd r = Some "face"
      \/ snd r = Some "hand")
  /\ (fst r = Some "status" -> snd r = None).
Proof.
  cbv zeta. unfold parse_start_stop_command.
  destruct (negb (PyStr.truthy text)); [cbn; intuition discriminate |].
  cbv zeta.
  destruct (PyStr.contains "status" (PyStr.lower text)).
  { cbn [fst snd]. intuition. }
  destruct (PyStr.any_in start_verbs (PyStr.lower text)),
    (PyStr.any_in stop_verbs (PyStr.lower text)),
    (PyStr.contains "chat" (PyStr.lower text)
     || PyStr.contains "assistant" (PyStr.lower text)
     || PyStr.contains "bot" (PyStr.lower text)),
    (PyStr.contains "face" (PyStr.lower text)
     || PyStr.contains "recognize" (PyStr.lower text)
     || PyStr.contains "recognition" (PyStr.lower text)),
    (PyStr.any_in hand_nouns (PyStr.lower text));
    cbn [fst snd]; intuition discriminate.
Qed.

Lemma status_overrides_helper (text : string) :
  occurs "status" text ->
  parse_start_stop_command text = (Some "status", None).
Proof.
  intros H. unfold parse_start_stop_command.
  rewrite (occurs_truthy "status" text eq_refl H). cbn [negb]. cbv zeta.
  unfold occurs in H. rewrite H. reflexivity.
Qed.

(** X15. Without the status keyword the action follows the verbs alone:
    stop exactly when a stop-verb occurs, start exactly when a start-verb
    occurs and no stop-verb does, none exactly when no verb occurs; and the
    action is status exactly when the keyword occurs. *)
Theorem action_classification (text : string) :
  (fst (parse_start_stop_command text) = Some "status"
   <-> occurs "status" text)
  /\ (~ occurs "status" text ->
      (fst (parse_start_stop_command text) = Some "stop"
       <-> has_stop_verb text)
      /\ (fst (parse_start_stop_command text) = Some "start"
          <-> has_start_verb text /\ ~ has_stop_verb text)
      /\ (fst (parse_start_stop_command text) = None
          <-> ~ has_action_verb text)).
Proof.
  assert (Hst : forall v, In v start_verbs -> PyStr.truthy v = true).
  { intros v Hv. simpl in Hv.
    destruct Hv as [<-|[<-|[<-|[<-|[]]]]]; reflexivity. }
  assert (Hsp : forall v, In v stop_verbs -> PyStr.truthy v = true).
  { intros v Hv. simpl in Hv.
    destruct Hv as [<-|[<-|[<-|[<-|[<-|[<-|[]]]]]]]; reflexivity. }
  assert (Hstart : has_start_verb text -> PyStr.truthy text = true).
  { intros [v [Hv H]]. exact (occurs_truthy v text (Hst v Hv) H). }
  assert (Hstop : has_stop_verb text -> PyStr.truthy text = true).
  { intros [v [Hv H]]. exact (occurs_truthy v text (Hsp v Hv) H). }
  split.
  - split.
    + intros H. destruct (PyStr.contains "status" (PyStr.lower text)) eqn:Hs;
        [exact Hs |].
      exfalso. revert H.
      rewrite (parse_without_status text) by (unfold occurs; congruence).
      destruct (negb (PyStr.truthy text)); [discriminate |]. cbv zeta.
      destruct (PyStr.any_in stop_verbs (PyStr.lower text)),
        (PyStr.any_in start_verbs (PyStr.lower text)); discriminate.
    + intros H. rewrite (status_overrides_helper text H). reflexivity.
  - intros Hs. rewrite (parse_without_status text Hs).
    unfold has_action_verb.
    revert Hstart Hstop. rewrite has_start_verb_any, has_stop_verb_any.
    destruct (PyStr.truthy text); cbn [negb fst]; cbv zeta;
      destruct (PyStr.any_in stop_verbs (PyStr.lower text)),
        (PyStr.any_in start_verbs (PyStr.lower text));
      intros Hstart Hstop; cbn [fst];
      intuition (discriminate || congruence).
Qed.


Lemma stop_verb_gives_stop (text : string) :
  has_stop_verb text ->
  ~ occurs "status" text ->
  fst (parse_start_stop_command text) = Some "stop".
Proof.
  intros Hstop Hs. rewrite (parse_without_status text Hs).
  assert (Ht : PyStr.truthy text = true).
  { destruct Hstop as [v [Hv Hocc]]. apply (occurs_truthy v); [| exact Hocc].
    simpl in Hv.
    destruct Hv as [<-|[<-|[<-|[<-|[<-|[<-|[]]]]]]]; reflexivity. }
  apply has_stop_verb_any in Hstop.
  rewrite Ht. cbn [negb]. cbv zeta. rewrite Hstop. reflexivity.
Qed.

Lemma occurs_in_context (w text pre post : string) :
  occurs w text -> occurs w (pre +:+ text +:+ post).
Proof.
  unfold occurs. intros H. rewrite !lower_app.
  apply contains_app_l, contains_app_r, H.
Qed.

(** X16. Keywords are found by containment, so context cannot hide them: a
    text with a stop-verb keeps the action stop whatever is put before and
    after it, as long as the whole does not contain the status keyword. *)
Theorem stop_verb_survives_context (text pre post : string) :
  has_stop_verb text ->
  ~ occurs "status" (pre +:+ text +:+ post) ->
  fst (parse_start_stop_command (pre +:+ text +:+ post)) = Some "stop".
Proof.
  intros [v [Hv H]] Hs.
  apply stop_verb_gives_stop; [| exact Hs].
  exists v. split; [exact Hv | apply occurs_in_context, H].
Qed.

Lemma stop_verb_survives_context_witness :
  fst (parse_start_stop_command ("pret" +:+ "end" +:+ "ing to open the hand"))
  = Some "stop".
Proof.
  apply (stop_verb_survives_context "end" "pret" "ing to open the hand").
  - exists "end". split; [simpl; tauto | reflexivity].
  - unfold occurs. vm_compute. discriminate.
Defined.

(** ** More on the wake gate *)

(** X17. The fallback gate passes over silences, empty or non-matching
    utterances and listen errors, and reports the wake word at the first
    utterance that passes the test, provided the attempt budget (if any)
    reaches that far. *)
Theorem wake_at_first_match (wakeword text : string)
    (max_attempts : option Z) (pre rest : list (result (option string))) :
  Forall (ignored wakeword) pre ->
  wakes wakeword text ->
  budget_spent max_attempts (Z.of_nat (length pre)) = false ->
  listen_for_wakeword_fallback true wakeword max_attempts
    (pre ++ Ret (Some text) :: rest)%list
  = Some (Ret true).
Proof.
  intros Hpre [Ht Hm] Hb. unfold listen_for_wakeword_fallback. cbn [negb].
  rewrite wake_loop_skips; [| exact Hpre |].
  2:{ destruct pre as [|a pre']; [left; reflexivity | right].
      apply (budget_spent_mono _ _ (Z.of_nat (length (a :: pre'))));
        [lia | exact Hb]. }
  cbn [wake_loop wake_body]. rewrite Z.add_0_l, Hb, Ht, Hm. reflexivity.
Qed.

Lemma wake_at_first_match_witness :
  listen_for_wakeword_fallback true "jarvis" (Some 5%Z)
    ([Ret None; Ret (Some "start the hand"); Raise OSError]
     ++ Ret (Some "Jarvis stop face") :: [Ret (Some "later")])%list
  = Some (Ret true).
Proof.
  apply (wake_at_first_match "jarvis" "Jarvis stop face" (Some 5%Z)
           [Ret None; Ret (Some "start the hand"); Raise OSError]
           [Ret (Some "later")]).
  - constructor; [exact I |].
    constructor; [right; reflexivity |].
    constructor; [split; [reflexivity | discriminate] |].
    constructor.
  - split; reflexivity.
  - reflexivity.
Defined.

(** X18. With a budget of [m] attempts, the gate gives up after [m]
    passed-over answers and returns [False], whatever would have been heard
    next; with a budget of zero or less it returns [False] without
    listening. *)
Theorem wake_gives_up_after_budget (wakeword : string) (m : Z)
    (pre rest : list (result (option string))) :
  Forall (ignored wakeword) pre ->
  Z.of_nat (length pre) = Z.max 0 m ->
  listen_for_wakeword_fallback true wakeword (Some m) (pre ++ rest)%list
  = Some (Ret false).
Proof.
  intros Hpre Hlen. unfold listen_for_wakeword_fallback. cbn [negb].
  rewrite wake_loop_skips; [| exact Hpre |].
  2:{ destruct pre as [|a pre']; [left; reflexivity | right].
      cbn [budget_spent]. apply Z.leb_gt. cbn [length] in *. lia. }
  assert (Hs : budget_spent (Some m) (0 + Z.of_nat (length pre)) = true).
  { cbn [budget_spent]. apply Z.leb_le. lia. }
  destruct rest; cbn [wake_loop]; rewrite Hs; reflexivity.
Qed.

Lemma wake_gives_up_after_budget_witness :
  listen_for_wakeword_fallback true "jarvis" (Some 2%Z)
    ([Ret None; Ret (Some "jarvisson")] ++ [Ret (Some "jarvis")])%list
  = Some (Ret false).
Proof.
  apply (wake_gives_up_after_budget "jarvis" 2%Z
           [Ret None; Ret (Some "jarvisson")] [Ret (Some "jarvis")]).
  - constructor; [exact I |].
    constructor; [right; reflexivity | constructor].
  - reflexivity.
Defined.

Lemma wake_body_true (wakeword : string) (text : option string)
    (k : option (result bool)) :
  wake_body wakeword text k = Some (Ret true) ->
  (exists s, text = Some s /\ wakes wakeword s) \/ k = Some (Ret true).
Proof.
  destruct text as [s|]; cbn [wake_body]; [| tauto].
  destruct (PyStr.truthy s) eqn:Ht; [| tauto].
  destruct (wake_match wakeword (PyStr.strip (PyStr.lower s))) eqn:Hm;
    [| tauto].
  intros _. left. exists s. repeat split; assumption.
Qed.

Lemma wake_loop_true (wakeword : string) (max_attempts : option Z)
    (n : nat) :
  forall (answers : list (result (option string))) (attempts : Z),
    length answers <= n ->
    wake_loop wakeword max_attempts attempts answers = Some (Ret true) ->
    exists text, In (Ret (Some text)) answers /\ wakes wakeword text.
Proof.
  induction n as [|n IH]; intros answers attempts Hlen H.
  - destruct answers; [| cbn in Hlen; lia].
    cbn [wake_loop] in H. destruct (budget_spent max_attempts attempts);
      discriminate H.
  - destruct answers as [|a rest]; cbn [wake_loop] in H;
      destruct (budget_spent max_attempts attempts); try discriminate H.
    cbn [length] in Hlen.
    destruct a as [text|e].
    + apply wake_body_true in H as [[s [-> Hw]]|H].
      * exists s. split; [left; reflexivity | exact Hw].
      * destruct (IH rest _ ltac:(lia) H) as [s [Hin Hw]].
        exists s. split; [right; exact Hin | exact Hw].
    + assert (Hgo : wake_loop wakeword max_attempts (attempts + 1) rest
                    = Some (Ret true) ->
                    exists text, In (Ret (Some text)) (Raise e :: rest)
                                 /\ wakes wakeword text).
      { intros H'. destruct (IH rest _ ltac:(lia) H') as [s [Hin Hw]].
        exists s. split; [right; exact Hin | exact Hw]. }
      destruct e; cbn [is_Exception wake_body] in H;
        try (apply Hgo; exact H); try discriminate H.
      destruct rest as [|[text|e'] rest']; try discriminate H.
      cbn [length] in Hlen.
      apply wake_body_true in H as [[s [-> Hw]]|H].
      * exists s. split; [right; left; reflexivity | exact Hw].
      * destruct (IH rest' _ ltac:(lia) H) as [s [Hin Hw]].
        exists s. split; [right; right; exact Hin | exact Hw].
Qed.

(** X19. The fallback gate reports the wake word only if it was heard:
    whenever it returns [True], one of the answers of the listen primitive
    was a non-empty text whose lower-cased, trimmed form is the wake phrase
    or starts with the wake phrase and a space. *)
Theorem wake_true_needs_match (has_listen : bool) (wakeword : string)
    (max_attempts : option Z) (answers : list (result (option string))) :
  listen_for_wakeword_fallback has_listen wakeword max_attempts answers
  = Some (Ret true) ->
  exists text,
    In (Ret (Some text)) answers
    /\ text <> ""
    /\ (PyStr.strip (PyStr.lower text) = wakeword
        \/ exists rest,
             PyStr.strip (PyStr.lower text) = wakeword +:+ " " +:+ rest).
Proof.
  unfold listen_for_wakeword_fallback.
  destruct has_listen; cbn [negb]; [| discriminate].
  intros H.
  destruct (wake_loop_true wakeword max_attempts (length answers) answers 0
              (le_n _) H) as [text [Hin [Ht Hm]]].
  exists text. split; [exact Hin | split].
  - intros ->. discriminate Ht.
  - apply wake_match_spec. exact Hm.
Qed.

Lemma wake_true_needs_match_witness :
  exists text,
    In (Ret (Some text)) [Ret None; Ret (Some "JARVIS open hand")]
    /\ text <> ""
    /\ (PyStr.strip (PyStr.lower text) = "jarvis"
        \/ exists rest,
             PyStr.strip (PyStr.lower text) = "jarvis" +:+ " " +:+ rest).
Proof.
  apply (wake_true_needs_match true "jarvis" None
           [Ret None; Ret (Some "JARVIS open hand")]).
  reflexivity.
Defined.

(** ** The controller: speaking *)

Lemma safe_speak_eq (text : string) (c : controller) :
  safe_speak text c =
  if hasattr attr_speak c then
    match ext c (ticks c) with
    | Ret _ =>
        Some (Ret tt, tell (Spoken text) (set_ticks (S (ticks c)) c))
    | Raise e =>
        if is_Exception e
        then Some (Ret tt, tell (bot_line text) (set_ticks (S (ticks c)) c))
        else Some (Raise e, set_ticks (S (ticks c)) c)
    end
  else Some (Ret tt, tell (bot_line text) c).
Proof.
  run_c. destruct (hasattr attr_speak c); [| reflexivity].
  cbn beta iota. destruct (ext c (ticks c)) as [v|e]; [reflexivity |].
  cbn beta iota. destruct (is_Exception e); reflexivity.
Qed.

(** X20. [safe_speak] always comes back and never raises an [Exception].
    It does not touch the registry world.  Unless an interrupt passes
    through, the message is delivered exactly once: spoken when
    [dynamicbot.speak] is there and returns, printed with the prefix BOT
    otherwise. *)
Theorem safe_speak_delivers (text : string) (c : controller) :
  exists r c',
    safe_speak text c = Some (r, c')
    /\ os c' = os c
    /\ same_env c c'
    /\ match r with
       | Ret _ =>
           (outputs c' = outputs c ++ [Spoken text])%list
           /\ hasattr attr_speak c = true
           /\ (exists v, ext c (ticks c) = Ret v)
           \/
           (outputs c' = outputs c ++ [bot_line text])%list
           /\ (hasattr attr_speak c = false
               \/ exists e, ext c (ticks c) = Raise e
                            /\ is_Exception e = true)
       | Raise e => is_Exception e = false /\ outputs c' = outputs c
       end.
Proof.
  rewrite safe_speak_eq. unfold same_env.
  destruct (hasattr attr_speak c).
  - destruct (ext c (ticks c)) as [v|e] eqn:He.
    + eexists _, _. split; [reflexivity |]. cbn. intuition eauto.
    + destruct (is_Exception e) eqn:Hx;
        (eexists _, _; split; [reflexivity |]); cbn; intuition eauto.
  - eexists _, _. split; [reflexivity |]. cbn. intuition eauto.
Qed.

(** ** Reasoning along the controller's computations *)

Lemma same_env_refl (c : controller) : same_env c c.
Proof. unfold same_env. tauto. Qed.

Lemma same_env_trans (a b c : controller) :
  same_env a b -> same_env b c -> same_env a c.
Proof. unfold same_env. intuition congruence. Qed.

Section Keeps.
Variable P : controller -> controller -> Prop.
Hypothesis P_refl : forall c, P c c.
Hypothesis P_trans : forall a b c, P a b -> P b c -> P a c.

Lemma keeps_cret {A : Type} (a : A) : keeps P (cret a).
Proof. intros c r c' [= <- <-]. apply P_refl. Qed.

Lemma keeps_cgets {A : Type} (f : controller -> A) : keeps P (cgets f).
Proof. intros c r c' [= <- <-]. apply P_refl. Qed.

Lemma keeps_never {A : Type} : keeps P (@never A).
Proof. intros c r c' H. discriminate H. Qed.

Lemma keeps_cbind {A B : Type} (m : C A) (k : A -> C B) :
  keeps P m -> (forall a, keeps P (k a)) -> keeps P (cbind m k).
Proof.
  intros Hm Hk c r c' H. unfold cbind in H.
  destruct (m c) as [[[a|e] c1]|] eqn:Hmc; [| | discriminate H].
  - apply (P_trans _ c1); [exact (Hm _ _ _ Hmc) | exact (Hk a _ _ _ H)].
  - injection H as <- <-. exact (Hm _ _ _ Hmc).
Qed.

Lemma keeps_ctry {A : Type} (body : C A) (catches : exn -> bool)
    (handler : exn -> C A) :
  keeps P body -> (forall e, keeps P (handler e)) ->
  keeps P (ctry body catches handler).
Proof.
  intros Hb Hh c r c' H. unfold ctry in H.
  destruct (body c) as [[[a|e] c1]|] eqn:Hbc; [| | discriminate H].
  - injection H as <- <-. exact (Hb _ _ _ Hbc).
  - destruct (catches e).
    + apply (P_trans _ c1); [exact (Hb _ _ _ Hbc) | exact (Hh e _ _ _ H)].
    + injection H as <- <-. exact (Hb _ _ _ Hbc).
Qed.

Lemma keeps_ctry2 {A : Type} (body : C A) (catches1 : exn -> bool)
    (handler1 : exn -> C A) (catches2 : exn -> bool)
    (handler2 : exn -> C A) :
  keeps P body -> (forall e, keeps P (handler1 e)) ->
  (forall e, keeps P (handler2 e)) ->
  keeps P (ctry2 body catches1 handler1 catches2 handler2).
Proof.
  intros Hb H1 H2 c r c' H. unfold ctry2 in H.
  destruct (body c) as [[[a|e] c1]|] eqn:Hbc; [| | discriminate H].
  - injection H as <- <-. exact (Hb _ _ _ Hbc).
  - destruct (catches1 e).
    + apply (P_trans _ c1); [exact (Hb _ _ _ Hbc) | exact (H1 e _ _ _ H)].
    + destruct (catches2 e).
      * apply (P_trans _ c1); [exact (Hb _ _ _ Hbc) | exact (H2 e _ _ _ H)].
      * injection H as <- <-. exact (Hb _ _ _ Hbc).
Qed.

Lemma keeps_try_finally {A : Type} (body : C A) (final : C unit) :
  keeps P body -> keeps P final -> keeps P (try_finally body final).
Proof.
  intros Hb Hf c r c' H. unfold try_finally in H.
  destruct (body c) as [[r1 c1]|] eqn:Hbc; [| discriminate H].
  destruct (final c1) as [[[u|e] c2]|] eqn:Hfc; [| | discriminate H];
    injection H as <- <-;
    apply (P_trans _ c1); [exact (Hb _ _ _ Hbc) | exact (Hf _ _ _ Hfc)
                          | exact (Hb _ _ _ Hbc) | exact (Hf _ _ _ Hfc)].
Qed.

End Keeps.

Lemma keeps_weaken {A : Type} (P Q : controller -> controller -> Prop)
    (m : C A) :
  (forall c c', P c c' -> Q c c') -> keeps P m -> keeps Q m.
Proof. intros HPQ Hm c r c' H. exact (HPQ _ _ (Hm _ _ _ H)). Qed.

Lemma quiet_cret {A : Type} (a : A) : quiet (cret a).
Proof. intros c e c' H. discriminate H. Qed.

Lemma quiet_cgets {A : Type} (f : controller -> A) : quiet (cgets f).
Proof. intros c e c' H. discriminate H. Qed.

Lemma quiet_cmodify (f : controller -> controller) : quiet (cmodify f).
Proof. intros c e c' H. discriminate H. Qed.

Lemma quiet_cbind {A B : Type} (m : C A) (k : A -> C B) :
  quiet m -> (forall a, quiet (k a)) -> quiet (cbind m k).
Proof.
  intros Hm Hk c e c' H. unfold cbind in H.
  destruct (m c) as [[[a|e1] c1]|] eqn:Hmc; [| | discriminate H].
  - exact (Hk a _ _ _ H).
  - injection H as <- <-. exact (Hm _ _ _ Hmc).
Qed.

(** [try: ... except Exception: ...] lets no [Exception] out, whatever the
    body does, when the handler raises none. *)
Lemma quiet_ctry_Exception {A : Type} (body : C A) (handler : exn -> C A) :
  (forall e, quiet (handler e)) -> quiet (ctry body is_Exception handler).
Proof.
  intros Hh c e c' H. unfold ctry in H.
  destruct (body c) as [[[a|e1] c1]|] eqn:Hbc; try discriminate H.
  destruct (is_Exception e1) eqn:He1.
  - exact (Hh e1 _ _ _ H).
  - injection H as <- <-. exact He1.
Qed.

Lemma listened_refl (c : controller) : listened c c.
Proof.
  unfold listened.
  split; [reflexivity | split; [apply same_env_refl | split; [| lia]]].
  exists []. split; [symmetry; apply app_nil_r | constructor].
Qed.

Lemma listened_trans (a b c : controller) :
  listened a b -> listened b c -> listened a c.
Proof.
  unfold listened.
  intros [H1 [H2 [[s1 [H3 F1]] H4]]] [H5 [H6 [[s2 [H7 F2]] H8]]].
  split; [congruence | split; [| split; [| lia]]].
  - eapply same_env_trans; eassumption.
  - exists (s1 ++ s2)%list. split.
    + rewrite H7, H3. symmetry. apply app_assoc.
    + apply Forall_app. split; assumption.
Qed.

Lemma talked_refl (c : controller) : talked c c.
Proof.
  unfold talked.
  split; [reflexivity | split; [apply same_env_refl | split; [lia |]]].
  exists []. symmetry. apply app_nil_r.
Qed.

Lemma talked_trans (a b c : controller) :
  talked a b -> talked b c -> talked a c.
Proof.
  unfold talked. intros [H1 [H2 [H3 [m1 H4]]]] [H5 [H6 [H7 [m2 H8]]]].
  split; [congruence | split; [| split; [lia |]]].
  { eapply same_env_trans; eassumption. }
  exists (m1 ++ m2)%list. rewrite H8, H4. symmetry. apply app_assoc.
Qed.

Lemma listened_talked (c c' : controller) : listened c c' -> talked c c'.
Proof.
  unfold listened, talked. intros [H1 [H2 [[said [H3 _]] H4]]].
  split; [exact H1 | split; [exact H2 | split; [exact H4 |]]].
  exists said. exact H3.
Qed.

Lemma steady_refl (c : controller) : steady c c.
Proof. unfold steady. auto using same_env_refl. Qed.

Lemma steady_trans (a b c : controller) :
  steady a b -> steady b c -> steady a c.
Proof.
  unfold steady. intros [H1 H2] [H3 H4].
  split; [eapply same_env_trans; eassumption | tauto].
Qed.

Lemma talked_steady (c c' : controller) : talked c c' -> steady c c'.
Proof.
  unfold talked, steady. intros [H1 [H2 _]]. split; [exact H2 |].
  now rewrite H1.
Qed.

Lemma Forall_asides (texts : list string) :
  Forall is_aside (map Aside texts).
Proof. induction texts; constructor; [exact I | assumption]. Qed.

Lemma keeps_external : keeps listened external.
Proof.
  intros c r c' [= <- <-]. unfold listened, same_env. cbn.
  split; [reflexivity | split; [tauto | split; [| lia]]].
  eexists. split; [reflexivity | apply Forall_asides].
Qed.

Lemma keeps_safe_speak (text : string) : keeps talked (safe_speak text).
Proof.
  intros c r c' H. rewrite safe_speak_eq in H. unfold talked, same_env.
  destruct (hasattr attr_speak c).
  - destruct (ext c (ticks c)) as [v|e].
    + injection H as <- <-. cbn. intuition (lia || eauto).
    + destruct (is_Exception e); injection H as <- <-; cbn;
        intuition (lia || eauto).
      exists []. symmetry. apply app_nil_r.
  - injection H as <- <-. cbn. intuition (lia || eauto).
Qed.

Lemma quiet_safe_speak (text : string) : quiet (safe_speak text).
Proof.
  intros c e c' H. rewrite safe_speak_eq in H.
  destruct (hasattr attr_speak c); [| discriminate H].
  destruct (ext c (ticks c)) as [v|e1]; [discriminate H |].
  destruct (is_Exception e1) eqn:He; [discriminate H |].
  injection H as <- <-. exact He.
Qed.

Lemma keeps_wake_rounds (fuel : nat) (wakeword : string)
    (max_attempts : option Z) (attempts : Z) :
  keeps listened (wake_rounds fuel wakeword max_attempts attempts).
Proof.
  revert attempts. induction fuel as [|fuel IH]; intros attempts.
  - apply keeps_never.
  - cbn [wake_rounds]. destruct (budget_spent max_attempts attempts).
    + apply (keeps_cret listened listened_refl).
    + apply (keeps_cbind listened listened_trans).
      * apply (keeps_ctry2 listened listened_trans).
        -- apply keeps_external.
        -- intros e. apply keeps_external.
        -- intros e. apply (keeps_cret listened listened_refl).
      * intros [s|]; [| apply IH].
        destruct (PyStr.truthy s); [| apply IH].
        destruct (wake_match wakeword (PyStr.strip (PyStr.lower s)));
          [| apply IH].
        apply (keeps_cret listened listened_refl).
Qed.

(** ** The controller: waiting for one command *)

Lemma cbind_Some {A B : Type} (m : C A) (k : A -> C B) (c c' : controller)
    (r : result B) :
  cbind m k c = Some (r, c') ->
  (exists a c1, m c = Some (Ret a, c1) /\ k a c1 = Some (r, c'))
  \/ (exists e, m c = Some (Raise e, c') /\ r = Raise e).
Proof.
  unfold cbind. destruct (m c) as [[[a|e] c1]|]; [| | discriminate].
  - intros H. left. eauto.
  - intros [= <- <-]. right. eauto.
Qed.

Lemma capture_heard (c c' : controller) (cmd : string) :
  capture c = Some (Ret (Some cmd), c') ->
  hasattr attr_listen c = true /\ ext c (ticks c' - 1) = Ret (Some cmd).
Proof.
  unfold capture, cbind, cgets, ctry, external, answer, cret.
  destruct (hasattr attr_listen c); [| discriminate].
  intros H. split; [reflexivity |]. revert H.
  cbn [ext ticks say_asides].
  destruct (ext c (ticks c)) as [v|e] eqn:H0.
  - intros [= -> <-]. cbn [ticks set_ticks say_asides].
    rewrite Nat.sub_succ, Nat.sub_0_r. exact H0.
  - destruct (is_TypeError e).
    + cbn [ext ticks set_ticks say_asides].
      destruct (ext c (S (ticks c))) as [v|e'] eqn:H1.
      * intros [= -> <-]. cbn [ticks set_ticks say_asides].
        rewrite Nat.sub_succ, Nat.sub_0_r. exact H1.
      * destruct (is_Exception e'); discriminate.
    + destruct (is_Exception e); discriminate.
Qed.

Lemma keeps_capture : keeps listened capture.
Proof.
  apply (keeps_cbind listened listened_trans);
    [apply (keeps_cgets listened listened_refl) |].
  intros [|]; [| apply (keeps_cret listened listened_refl)].
  apply (keeps_ctry listened listened_trans).
  - apply (keeps_ctry listened listened_trans); [apply keeps_external |].
    intros e. apply keeps_external.
  - intros e. apply (keeps_cret listened listened_refl).
Qed.

Lemma quiet_capture : quiet capture.
Proof.
  apply quiet_cbind; [apply quiet_cgets |].
  intros [|]; [| apply quiet_cret].
  apply quiet_ctry_Exception. intros e. apply quiet_cret.
Qed.

Lemma keeps_wake_phase (fuel : nat) : keeps listened (wake_phase fuel).
Proof.
  apply (keeps_cbind listened listened_trans);
    [apply (keeps_cgets listened listened_refl) |].
  intros can_detect.
  apply (keeps_cbind listened listened_trans).
  - destruct can_detect; [| apply (keeps_cret listened listened_refl)].
    apply (keeps_ctry listened listened_trans).
    + apply (keeps_cbind listened listened_trans); [apply keeps_external |].
      intros detector. apply (keeps_cret listened listened_refl).
    + intros e. apply (keeps_cret listened listened_refl).
  - intros used. apply (keeps_ctry listened listened_trans).
    + destruct used.
      * apply (keeps_ctry listened listened_trans).
        -- apply (keeps_cbind listened listened_trans);
             [apply keeps_external |].
           intros _. apply (keeps_cret listened listened_refl).
        -- intros e. apply (keeps_cret listened listened_refl).
      * apply (keeps_cbind listened listened_trans);
          [apply (keeps_cgets listened listened_refl) |].
        intros ww. apply (keeps_cbind listened listened_trans);
          [apply (keeps_cgets listened listened_refl) |].
        intros [|]; cbn [negb];
          [apply keeps_wake_rounds | apply (keeps_cret listened listened_refl)].
    + intros e. apply (keeps_cret listened listened_refl).
Qed.

Lemma quiet_wake_phase (fuel : nat) : quiet (wake_phase fuel).
Proof.
  apply quiet_cbind; [apply quiet_cgets |]. intros can_detect.
  apply quiet_cbind.
  - destruct can_detect; [| apply quiet_cret].
    apply quiet_ctry_Exception. intros e. apply quiet_cret.
  - intros used. apply quiet_ctry_Exception. intros e. apply quiet_cret.
Qed.

Lemma safe_speak_one_line (text : string) (c c' : controller) :
  safe_speak text c = Some (Ret tt, c') ->
  exists o,
    outputs c' = (outputs c ++ [o])%list
    /\ (o = Spoken text \/ o = bot_line text).
Proof.
  rewrite safe_speak_eq. destruct (hasattr attr_speak c).
  - destruct (ext c (ticks c)) as [v|e].
    + intros [= <-]. eexists. split; [reflexivity | tauto].
    + destruct (is_Exception e); [| discriminate].
      intros [= <-]. eexists. split; [reflexivity | tauto].
  - intros [= <-]. eexists. split; [reflexivity | tauto].
Qed.

Lemma safe_speak_raises (text : string) (c c' : controller) (e : exn) :
  safe_speak text c = Some (Raise e, c') -> outputs c' = outputs c.
Proof.
  rewrite safe_speak_eq. destruct (hasattr attr_speak c); [| discriminate].
  destruct (ext c (ticks c)) as [v|e1]; [discriminate |].
  destruct (is_Exception e1); [discriminate |]. intros [= _ <-]. reflexivity.
Qed.

(** X21. [controller_listen_for_single_command] raises no [Exception] and
    leaves the registry world alone.  Of its own the controller tells the
    operator at most the acknowledgement "Yes?", once; whatever else the
    operator hears during the call is said by [dynamicbot] itself, inside
    the calls that listen for the wake word before the acknowledgement or
    inside the capture after it.  A command is handed back only after the
    acknowledgement has been delivered, and it is what the last call of
    [dynamicbot.listen] returned. *)
Theorem listen_for_single_command_outcome (fuel : nat) (c c' : controller)
    (r : result (option string)) :
  controller_listen_for_single_command fuel c = Some (r, c') ->
  os c' = os c
  /\ same_env c c'
  /\ exists before yes after,
       outputs c' = (outputs c ++ before ++ yes ++ after)%list
       /\ Forall is_aside before
       /\ Forall is_aside after
       /\ (yes = [] /\ after = []
           \/ yes = [Spoken "Yes?"] \/ yes = [bot_line "Yes?"])
       /\ match r with
          | Raise e => is_Exception e = false
          | Ret None => True
          | Ret (Some cmd) =>
              yes <> []
              /\ hasattr attr_listen c = true
              /\ ext c (ticks c' - 1) = Ret (Some cmd)
          end.
Proof.
  unfold controller_listen_for_single_command. intros H.
  assert (Hquiet : forall before c1,
            outputs c1 = (outputs c ++ before)%list ->
            outputs c1 = (outputs c ++ before ++ [] ++ [])%list).
  { intros before c1 ->. cbn [app]. now rewrite app_nil_r. }
  apply cbind_Some in H as [[ok [c1 [Hw H]]]|[e [Hw ->]]].
  2:{ destruct (keeps_wake_phase fuel _ _ _ Hw)
        as [Hos [Henv [[said [Hout Hsaid]] _]]].
      split; [exact Hos | split; [exact Henv |]].
      exists said, [], []. split; [exact (Hquiet _ _ Hout) |].
      split; [exact Hsaid | split; [constructor | split; [tauto |]]].
      exact (quiet_wake_phase fuel _ _ _ Hw). }
  destruct (keeps_wake_phase fuel _ _ _ Hw)
    as [Hos1 [Henv1 [[said1 [Hout1 Hsaid1]] _]]].
  destruct ok; cbn [negb] in H.
  2:{ injection H as <- <-.
      split; [exact Hos1 | split; [exact Henv1 |]].
      exists said1, [], []. split; [exact (Hquiet _ _ Hout1) |].
      split; [exact Hsaid1 | split; [constructor | split; [tauto | exact I]]]. }
  apply cbind_Some in H as [[[] [c2 [Hs H]]]|[e [Hs ->]]].
  2:{ destruct (keeps_safe_speak _ _ _ _ Hs) as [Hos2 [Henv2 _]].
      split; [congruence | split; [eapply same_env_trans; eassumption |]].
      exists said1, [], []. split.
      { apply Hquiet. rewrite (safe_speak_raises _ _ _ _ Hs). exact Hout1. }
      split; [exact Hsaid1 | split; [constructor | split; [tauto |]]].
      exact (quiet_safe_speak _ _ _ _ Hs). }
  destruct (keeps_safe_speak _ _ _ _ Hs) as [Hos2 [Henv2 _]].
  destruct (safe_speak_one_line _ _ _ Hs) as [o [Hout2 Ho]].
  destruct (keeps_capture _ _ _ H)
    as [Hos3 [Henv3 [[said3 [Hout3 Hsaid3]] _]]].
  split; [congruence | split].
  { eapply same_env_trans; [| exact Henv3].
    eapply same_env_trans; eassumption. }
  exists said1, [o], said3. split.
  { rewrite Hout3, Hout2, Hout1. rewrite <- !app_assoc. reflexivity. }
  split; [exact Hsaid1 | split; [exact Hsaid3 | split]].
  { destruct Ho as [->| ->]; tauto. }
  destruct r as [[cmd|]|e].
  - split; [discriminate |].
    destruct (capture_heard _ _ _ H) as [Hl He].
    assert (Hattr : hasattr attr_listen c = hasattr attr_listen c2).
    { unfold hasattr. destruct Henv1 as [Hd1 _]. destruct Henv2 as [Hd2 _].
      rewrite Hd2, Hd1. reflexivity. }
    assert (Hext : ext c2 = ext c).
    { destruct Henv1 as [_ [_ [Ha _]]]. destruct Henv2 as [_ [_ [Hb _]]].
      congruence. }
    rewrite Hattr, <- Hext. split; assumption.
  - exact I.
  - exact (quiet_capture _ _ _ H).
Qed.

Lemma listen_for_single_command_outcome_witness :
  let c := sample_controller child
             [Ret (Some "Jarvis"); Ret None; Ret (Some "stop face")] in
  let c' := tell (Spoken "Yes?") (set_ticks 3 c) in
  os c' = os c
  /\ same_env c c'
  /\ exists before yes after,
       outputs c' = (outputs c ++ before ++ yes ++ after)%list
       /\ Forall is_aside before
       /\ Forall is_aside after
       /\ (yes = [] /\ after = []
           \/ yes = [Spoken "Yes?"] \/ yes = [bot_line "Yes?"])
       /\ (yes <> []
           /\ hasattr attr_listen c = true
           /\ ext c (ticks c' - 1) = Ret (Some "stop face")).
Proof.
  intros c c'.
  apply (listen_for_single_command_outcome 2 c c' (Ret (Some "stop face"))).
  vm_compute. reflexivity.
Defined.

(** The module may speak while it listens: when the recognition service
    cannot be reached, [dynamicbot.listen] says so and returns [None]; the
    operator hears it before the acknowledgement. *)
Example listen_with_aside :
  let c0 := sample_controller child
              [Ret None; Ret (Some "jarvis"); Ret None; Ret (Some "status")] in
  let c :=
    mkController (os c0) (dynamicbot c0) (WAKEWORD_env c0) (ext c0)
      (fun n => match n with
                | 0 => ["Speech recognition service is unavailable."]
                | _ => []
                end)
      (ticks c0) (child_exit c0) (status_order c0) (sweep_order c0)
      (outputs c0) in
  let c' := finished (controller_listen_for_single_command 3 c) c in
  fst <$> controller_listen_for_single_command 3 c
  = Some (Ret (Some "status"))
  /\ outputs c' =
     [Aside "Speech recognition service is unavailable."; Spoken "Yes?"].
Proof. split; vm_compute; reflexivity. Qed.

(** With a [WakeWordDetector] attribute: a detector that was built is
    listened to, and whatever it hears counts as the wake word; when the
    call returns [None] the controller falls back to the wake loop, which
    passes over "hello" and wakes on "jarvis". *)
Example detector_or_fallback :
  let with_detector answers :=
    fresh_controller
      (boot "/bot" "python3" bot_disk (fun _ => Ret child))
      (Some (mkBot true true true true)) (scripted answers)
      (fun _ => Some (Ret 0%Z)) [] in
  fst <$> controller_listen_for_single_command 3
            (with_detector
               [Ret (Some "detector"); Ret None; Ret None;
                Ret (Some "start face")])
  = Some (Ret (Some "start face"))
  /\ fst <$> controller_listen_for_single_command 3
               (with_detector
                  [Ret None; Ret (Some "hello"); Ret (Some "jarvis");
                   Ret None; Ret (Some "start face")])
     = Some (Ret (Some "start face"))
  /\ fst <$> controller_listen_for_single_command 3
               (with_detector
                  [Raise OSError; Ret (Some "hello"); Ret (Some "jarvis");
                   Ret None; Ret (Some "start face")])
     = Some (Ret (Some "start face")).
Proof. repeat split; vm_compute; reflexivity. Qed.




(** ** The controller: dispatching a command *)

Lemma status_query (k : string) (w : world) :
  exists s, status k w = (Ret s, w)
            /\ (s = "running" \/ s = "stopped")
            /\ (s = "running" <-> live k w).
Proof.
  unfold status, live, alive. run_py.
  destruct (running_procs w !! k) as [h|] eqn:Hr.
  - step_py. destruct (returncode (proc_of w h)) as [code|] eqn:Hc.
    + exists "stopped". split; [reflexivity | split; [tauto |]].
      split; [discriminate |]. intros [h' [[= <-] Ha]]. congruence.
    + exists "running". split; [reflexivity | split; [tauto |]].
      split; [| reflexivity]. intros _. exists h. tauto.
  - exists "stopped". split; [reflexivity | split; [tauto |]].
    split; [discriminate |]. intros [h' [Hh _]]. discriminate Hh.
Qed.

Lemma set_os_same (c : controller) : set_os (os c) c = c.
Proof. destruct c. reflexivity. Qed.

Lemma keeps_status_parts (keys : list string) :
  keeps listened (status_parts keys).
Proof.
  induction keys as [|k keys IH].
  - apply (keeps_cret listened listened_refl).
  - cbn [status_parts]. apply (keeps_cbind listened listened_trans).
    + intros c r c'. unfold lift_os.
      destruct (status_query k (os c)) as [s [-> _]].
      intros [= <- <-]. rewrite set_os_same. apply listened_refl.
    + intros state. apply (keeps_cbind listened listened_trans); [exact IH |].
      intros parts. apply (keeps_cret listened listened_refl).
Qed.

Lemma keeps_talked_listened {A : Type} (m : C A) :
  keeps listened m -> keeps talked m.
Proof. apply keeps_weaken. exact listened_talked. Qed.

Lemma keeps_report_status : keeps talked report_status.
Proof.
  apply (keeps_cbind talked talked_trans);
    [apply (keeps_cgets talked talked_refl) |].
  intros order. apply (keeps_cbind talked talked_trans).
  - apply keeps_talked_listened, keeps_status_parts.
  - intros parts. apply keeps_safe_speak.
Qed.

Lemma keeps_run_chatbot : keeps talked run_chatbot.
Proof.
  apply (keeps_cbind talked talked_trans); [apply keeps_safe_speak |].
  intros _. apply (keeps_cbind talked talked_trans);
    [| intros _; apply keeps_safe_speak].
  apply (keeps_ctry talked talked_trans);
    [| intros e; apply keeps_safe_speak].
  apply (keeps_cbind talked talked_trans);
    [apply (keeps_cgets talked talked_refl) |].
  intros [|]; [| apply keeps_safe_speak].
  apply (keeps_cbind talked talked_trans).
  - apply keeps_talked_listened, keeps_external.
  - intros _. apply (keeps_cret talked talked_refl).
Qed.

Lemma keeps_then_continue (P : controller -> controller -> Prop)
    (m : C unit) :
  (forall c, P c c) -> (forall a b c, P a b -> P b c -> P a c) ->
  keeps P m -> keeps P (m ;;; cret Continue)%ctl.
Proof.
  intros Hrefl Htrans Hm. apply (keeps_cbind P Htrans); [exact Hm |].
  intros _. apply (keeps_cret P Hrefl).
Qed.

Lemma any_in_exit (heard : string) :
  exit_requested heard <->
  PyStr.any_in exit_phrases (normalised heard) = true.
Proof. unfold exit_requested. symmetry. apply any_in_true. Qed.

Lemma safe_speak_total (text : string) (c : controller) :
  exists r c', safe_speak text c = Some (r, c').
Proof.
  rewrite safe_speak_eq. destruct (hasattr attr_speak c); [| eauto].
  destruct (ext c (ticks c)) as [v|e]; [eauto |].
  destruct (is_Exception e); eauto.
Qed.

(** X23. An exit phrase takes precedence over everything else in the
    command: the iteration says goodbye and leaves the loop without
    touching the registry world, whatever verbs and targets the command
    also has (every exit phrase but one contains a stop-verb itself). *)
Theorem exit_phrase_breaks (heard : string) (c : controller) :
  exit_requested heard ->
  exists r c',
    handle_command heard c = Some (r, c')
    /\ os c' = os c
    /\ match r with
       | Ret next =>
           next = Break
           /\ (outputs c' =
               (outputs c ++ [Spoken "Controller shutting down. Goodbye."])%list
               \/ outputs c' =
                  (outputs c
                   ++ [bot_line "Controller shutting down. Goodbye."])%list)
       | Raise e => is_Exception e = false
       end.
Proof.
  intros Hx. apply any_in_exit in Hx. unfold handle_command.
  fold (normalised heard). rewrite Hx.
  destruct (safe_speak_total "Controller shutting down. Goodbye." c)
    as [r [c' Hs]].
  unfold cbind. rewrite Hs.
  destruct (keeps_safe_speak _ _ _ _ Hs) as [Hos _].
  destruct r as [[]|e].
  - eexists _, _. split; [reflexivity |]. split; [exact Hos |].
    split; [reflexivity |].
    destruct (safe_speak_one_line _ _ _ Hs) as [o [-> [->| ->]]]; tauto.
  - eexists _, _. split; [reflexivity |]. split; [exact Hos |].
    exact (quiet_safe_speak _ _ _ _ Hs).
Qed.

Lemma exit_phrase_breaks_witness :
  let c := sample_controller child [Ret None] in
  exists r c',
    handle_command "Please STOP controller and the face" c = Some (r, c')
    /\ os c' = os c
    /\ match r with
       | Ret next =>
           next = Break
           /\ (outputs c' =
               (outputs c ++ [Spoken "Controller shutting down. Goodbye."])%list
               \/ outputs c' =
                  (outputs c
                   ++ [bot_line "Controller shutting down. Goodbye."])%list)
       | Raise e => is_Exception e = false
       end.
Proof.
  intros c.
  apply (exit_phrase_breaks "Please STOP controller and the face" c).
  exists "stop controller". split; [simpl; tauto | reflexivity].
Defined.

(** ** The controller: the invariant of the world *)

Lemma stoppable_update (p : process) (code : Z) :
  stoppable p ->
  stoppable (mkProcess (Some code) (on_terminate p) (on_wait p) (on_kill p)).
Proof. intros H. exact H. Qed.

Lemma all_stoppable_set_returncode (h : handle) (code : Z) (w : world) :
  all_stoppable w -> all_stoppable (set_returncode h code w).
Proof.
  intros [Hp Ha]. split; [| exact Ha].
  intros h' p. unfold set_returncode. cbn [procs set_procs].
  intros H. apply list_lookup_insert_Some in H as [[-> [<- Hlt]]|[_ H]].
  - apply stoppable_update. unfold proc_of.
    destruct (lookup_lt_is_Some_2 (procs w) h' Hlt) as [q Hq].
    unfold handle. rewrite Hq. exact (Hp _ _ Hq).
  - exact (Hp _ _ H).
Qed.

Lemma registry_ok_set_returncode (h : handle) (code : Z) (w : world) :
  registry_ok w -> registry_ok (set_returncode h code w).
Proof.
  intros Hok k h0 H. unfold set_returncode. cbn [procs set_procs].
  rewrite length_insert. exact (Hok k h0 H).
Qed.

Lemma sound_set_returncode (h : handle) (code : Z) (w : world) :
  sound w -> sound (set_returncode h code w).
Proof.
  intros [H1 H2].
  split; [apply registry_ok_set_returncode | apply all_stoppable_set_returncode];
    assumption.
Qed.

Lemma sound_log (e : event) (w : world) : sound w -> sound (log e w).
Proof. intros H. exact H. Qed.

Lemma sound_start (key : string) (w : world) :
  sound w -> sound (snd (start_subprocess_module key w)).
Proof.
  intros [Hok [Hp Ha]]. split; [apply start_keeps_registry_ok, Hok |].
  destruct (start_cases key w)
    as [Hn|[Hm|[[Hd [h [Hr Hal]]]|[script [Hs [Hf Hl]]]]]].
  - unfold start_subprocess_module. rewrite Hn. split; assumption.
  - rewrite (start_script_missing key w Hm). split; assumption.
  - rewrite (start_already_running key h w Hd Hr Hal). split; assumption.
  - rewrite (start_spawn key script w Hs Hf Hl).
    destruct (popen_answer w (popen_calls w)) as [p|e] eqn:Hpa; cbn [snd];
      [| split; assumption].
    split; [| exact Ha].
    intros h q. unfold spawned. cbn [procs set_running_procs log set_procs].
    intros H. apply lookup_app_Some in H as [H|[_ H]]; [exact (Hp _ _ H) |].
    apply list_lookup_singleton_Some in H as [_ <-]. exact (Ha _ _ Hpa).
Qed.

Lemma sound_stop (key : string) (w : world) :
  sound w -> sound (snd (stop_subprocess_module key w)).
Proof.
  intros Hs. pose proof Hs as [Hok Hst].
  split; [apply stop_keeps_registry_ok, Hok |].
  destruct (stop_paths key w);
    try exact Hst;
    unfold unregistered;
    try apply (all_stoppable_set_returncode _ _ _ Hst).
Qed.

Lemma keeps_steady_start (key : string) :
  keeps steady (lift_os (start_subprocess_module key)).
Proof.
  intros c r c'. unfold lift_os.
  pose proof (sound_start key (os c)) as Hs.
  destruct (start_subprocess_module key (os c)) as [r0 w'].
  intros [= <- <-]. split; [unfold same_env; cbn; tauto | exact Hs].
Qed.

Lemma keeps_steady_stop (key : string) :
  keeps steady (lift_os (stop_subprocess_module key)).
Proof.
  intros c r c'. unfold lift_os.
  pose proof (sound_stop key (os c)) as Hs.
  destruct (stop_subprocess_module key (os c)) as [r0 w'].
  intros [= <- <-]. split; [unfold same_env; cbn; tauto | exact Hs].
Qed.

Lemma keeps_steady_wait (h : handle) : keeps steady (wait_for_exit h).
Proof.
  intros c r c'. unfold wait_for_exit.
  destruct (returncode (proc_of (log (EvWait h) (os c)) h)).
  - intros [= <- <-]. split; [unfold same_env; cbn; tauto |]. intros H; exact H.
  - destruct (child_exit c h) as [[code|e]|]; [| | discriminate];
      intros [= <- <-]; (split; [unfold same_env; cbn; tauto |]).
    + intros H. apply sound_set_returncode. exact H.
    + intros H. exact H.
Qed.

Lemma keeps_steady_talk {A : Type} (m : C A) :
  keeps talked m -> keeps steady m.
Proof. apply keeps_weaken. exact talked_steady. Qed.

Lemma keeps_steady_run_feature (target : string) :
  keeps steady (run_feature target).
Proof.
  apply (keeps_cbind steady steady_trans); [apply keeps_steady_start |].
  intros [h|]; [| apply keeps_steady_talk, keeps_safe_speak].
  apply (keeps_cbind steady steady_trans);
    [apply keeps_steady_talk, keeps_safe_speak |].
  intros _. apply (keeps_cbind steady steady_trans);
    [apply keeps_steady_wait |].
  intros _. apply keeps_steady_talk, keeps_safe_speak.
Qed.

Lemma keeps_steady_stop_feature (target : string) :
  keeps steady (stop_feature target).
Proof.
  apply (keeps_cbind steady steady_trans); [apply keeps_steady_stop |].
  intros ok. apply keeps_steady_talk, keeps_safe_speak.
Qed.

Lemma keeps_steady_handle_command (heard : string) :
  keeps steady (handle_command heard).
Proof.
  unfold handle_command.
  destruct (PyStr.any_in exit_phrases (PyStr.strip (PyStr.lower heard))).
  { apply (keeps_cbind steady steady_trans);
      [apply keeps_steady_talk, keeps_safe_speak |].
    intros _. apply (keeps_cret steady steady_refl). }
  destruct (parse_start_stop_command (PyStr.strip (PyStr.lower heard)))
    as [action target].
  destruct (is_str action "status").
  { apply (keeps_then_continue steady _ steady_refl steady_trans).
    apply keeps_steady_talk, keeps_report_status. }
  destruct action as [a|], target as [t|];
    try (apply (keeps_then_continue steady _ steady_refl steady_trans);
         apply keeps_steady_talk, keeps_safe_speak).
  destruct (String.eqb a "start").
  { destruct (String.eqb t "chatbot");
      apply (keeps_then_continue steady _ steady_refl steady_trans).
    - apply keeps_steady_talk, keeps_run_chatbot.
    - apply keeps_steady_run_feature. }
  destruct (String.eqb a "stop"); [| apply (keeps_cret steady steady_refl)].
  destruct (String.eqb t "chatbot");
    apply (keeps_then_continue steady _ steady_refl steady_trans).
  - apply keeps_steady_talk, keeps_safe_speak.
  - apply keeps_steady_stop_feature.
Qed.

Lemma keeps_steady_listen (fuel : nat) :
  keeps steady (controller_listen_for_single_command fuel).
Proof.
  apply keeps_steady_talk.
  apply (keeps_cbind talked talked_trans).
  - apply keeps_talked_listened, keeps_wake_phase.
  - intros [|]; cbn [negb]; [| apply (keeps_cret talked talked_refl)].
    apply (keeps_cbind talked talked_trans); [apply keeps_safe_speak |].
    intros _. apply keeps_talked_listened, keeps_capture.
Qed.

Lemma keeps_steady_loop (fuel : nat) : keeps steady (controller_loop fuel).
Proof.
  induction fuel as [|fuel IH]; [apply keeps_never |].
  cbn [controller_loop].
  apply (keeps_cbind steady steady_trans); [apply keeps_steady_listen |].
  intros [heard|]; [| exact IH].
  apply (keeps_cbind steady steady_trans);
    [apply keeps_steady_handle_command |].
  intros [|]; [exact IH | apply (keeps_cret steady steady_refl)].
Qed.

(** ** The controller: the sweep and the whole run *)

Lemma registered_stoppable (k : string) (h : handle) (w : world) :
  sound w -> running_procs w !! k = Some h -> stoppable (proc_of w h).
Proof.
  intros [Hok [Hp _]] Hr. destruct (Hok _ _ Hr) as [Hlt _].
  destruct (lookup_lt_is_Some_2 (procs w) h Hlt) as [p Hq].
  unfold proc_of, handle in *. rewrite Hq. exact (Hp _ _ Hq).
Qed.

(** Where every child can be stopped, [stop_subprocess_module] returns and
    the entry of the key is gone. *)
Lemma stop_sound (key : string) (w : world) :
  sound w ->
  exists b w',
    stop_subprocess_module key w = (Ret b, w')
    /\ running_procs w' = delete (PyStr.lower key) (running_procs w).
Proof.
  intros Hs.
  destruct (running_procs w !! PyStr.lower key) as [h|] eqn:Hr.
  2:{ exists false, w. rewrite (stop_not_registered key w Hr).
      split; [reflexivity |]. symmetry. apply delete_id. exact Hr. }
  destruct (registered_stoppable _ _ _ Hs Hr) as [Ht Hw].
  destruct (returncode (proc_of w h)) as [c0|] eqn:Ha.
  { assert (Hn : ~ alive h w) by (unfold alive; congruence).
    rewrite (stop_exited_path key h w Hr Hn). eauto. }
  destruct Hw as [[code Hw]|[Hw Hk]].
  - rewrite (stop_waited key h code w Hr Ha Ht Hw). eauto.
  - rewrite (stop_killed key h w Hr Ha Ht Hw Hk). eauto.
Qed.

Lemma stop_each_sound (keys : list string) :
  forall c,
    sound (os c) ->
    exists c',
      stop_each keys c = Some (Ret tt, c')
      /\ sound (os c')
      /\ same_env c c'
      /\ outputs c' = outputs c
      /\ forall k,
           (In k (map PyStr.lower keys) ->
            running_procs (os c') !! k = None)
           /\ (running_procs (os c') !! k = None
               \/ running_procs (os c') !! k = running_procs (os c) !! k).
Proof.
  induction keys as [|key keys IH]; intros c Hs.
  - exists c. split; [reflexivity |]. split; [exact Hs |].
    split; [apply same_env_refl |]. split; [reflexivity |].
    intros k. split; [intros [] | tauto].
  - cbn [stop_each]. unfold cbind, lift_os.
    destruct (stop_sound key (os c) Hs) as [b [w' [Hstop Hreg]]].
    pose proof (sound_stop key (os c) Hs) as Hs'.
    rewrite Hstop in *. cbn [snd] in Hs'.
    destruct (IH (set_os w' c) Hs') as [c' [Hrun [Hsc' [Henv [Hout Hk]]]]].
    exists c'. split; [exact Hrun |]. split; [exact Hsc' |].
    split; [exact Henv |]. split; [exact Hout |].
    intros k. destruct (Hk k) as [Hin Hkeep].
    cbn [os set_os] in Hkeep. rewrite Hreg in Hkeep. split.
    + cbn [map]. intros [<-|Hin']; [| exact (Hin Hin')].
      destruct Hkeep as [Hn|Hn]; [exact Hn |].
      rewrite Hn. apply lookup_delete_eq.
    + destruct Hkeep as [Hn|Hn]; [left; exact Hn |].
      destruct (decide (PyStr.lower key = k)) as [<-|Hne].
      * left. rewrite Hn. apply lookup_delete_eq.
      * right. rewrite Hn. apply lookup_delete_ne. exact Hne.
Qed.

Lemma registered_key_lower (k : string) (h : handle) (w : world) :
  registry_ok w -> running_procs w !! k = Some h -> PyStr.lower k = k.
Proof.
  intros Hok Hr. destruct (Hok _ _ Hr) as [_ [script Hs]].
  destruct (MODULE_NAMES_known _ _ Hs) as [Hin _].
  repeat (apply elem_of_cons in Hin as [->|Hin]; [reflexivity |]).
  apply elem_of_nil in Hin. destruct Hin.
Qed.

Lemma stop_all_sound (c : controller) :
  sound (os c) ->
  sweep_covers c ->
  exists c',
    stop_all c = Some (Ret tt, c')
    /\ running_procs (os c') = ∅
    /\ same_env c c'
    /\ outputs c' = outputs c.
Proof.
  intros Hs Hcov. unfold stop_all, cbind, cgets.
  destruct (stop_each_sound (sweep_order c (running_procs (os c))) c Hs)
    as [c' [Hrun [_ [Henv [Hout Hk]]]]].
  exists c'. split; [exact Hrun |]. split; [| split; assumption].
  apply map_eq. intros k. rewrite lookup_empty.
  destruct (Hk k) as [Hin [Hn|Hn]]; [exact Hn |].
  destruct (running_procs (os c) !! k) as [h|] eqn:Hr; [| exact Hn].
  apply Hin. apply in_map_iff. exists k. split.
  - destruct Hs as [Hok _]. exact (registered_key_lower _ _ _ Hok Hr).
  - apply Hcov. rewrite Hr. eauto.
Qed.


(** X24. The sweep of the [finally] clause.  Where every child can be
    stopped (no termination step raises), the sweep over a snapshot that
    lists every registered key comes back normally and leaves the registry
    empty; it tells the operator nothing. *)
Theorem sweep_empties_registry (c : controller) :
  sound (os c) ->
  sweep_covers c ->
  exists c',
    stop_all c = Some (Ret tt, c')
    /\ running_procs (os c') = ∅
    /\ same_env c c'
    /\ outputs c' = outputs c.
Proof. exact (stop_all_sound c). Qed.

Lemma keys_in_order_covers (inserted : list string)
    (m : gmap string handle) (k : string) :
  is_Some (m !! k) -> In k (keys_in_order inserted m).
Proof.
  intros Hk. unfold keys_in_order. apply in_or_app.
  destruct (decide (k ∈ inserted)) as [Hin|Hout].
  - left. apply filter_In. split.
    + apply list_elem_of_In. exact Hin.
    + apply bool_decide_eq_true_2. exact Hk.
  - right. apply filter_In. split.
    + apply list_elem_of_In, elem_of_elements, elem_of_dom. exact Hk.
    + apply bool_decide_eq_true_2. exact Hout.
Qed.

Lemma sample_covers (w : world) (b : option bot)
    (answers : nat -> result (option string))
    (exits : handle -> option (result Z)) (inserted : list string) :
  sweep_covers (fresh_controller w b answers exits inserted).
Proof.
  intros m k Hk. cbn [sweep_order fresh_controller].
  apply keys_in_order_covers. exact Hk.
Qed.

Lemma boot_all_stoppable (base exe : string) (disk : gset string)
    (answer : nat -> result process) :
  (forall n p, answer n = Ret p -> stoppable p) ->
  all_stoppable (boot base exe disk answer).
Proof.
  intros H. split; [| exact H]. intros h p Hp. cbn in Hp.
  rewrite lookup_nil in Hp. discriminate Hp.
Qed.

Lemma child_stoppable : stoppable child.
Proof. split; [reflexivity | left; exists (-15)%Z; reflexivity]. Qed.

Lemma slow_child_stoppable : stoppable slow_child.
Proof. split; [reflexivity | right; split; reflexivity]. Qed.

Lemma sweep_empties_registry_witness :
  let c0 := sample_controller slow_child [] in
  let c := set_os (snd (start_subprocess_module "hand"
                          (snd (start_subprocess_module "face" (os c0)))))
             c0 in
  exists c',
    stop_all c = Some (Ret tt, c')
    /\ running_procs (os c') = ∅
    /\ same_env c c'
    /\ outputs c' = outputs c.
Proof.
  intros c0 c. apply (sweep_empties_registry c).
  - cbn [os set_os]. apply sound_start, sound_start. split.
    + apply boot_registry_ok.
    + apply boot_all_stoppable. intros n p [= <-].
      exact slow_child_stoppable.
  - apply sample_covers.
Defined.

(** X25. Whenever [main_voice_controller] comes back (after an exit
    phrase, an interrupt or an error), no child is left registered,
    provided it started with an empty registry, every child can be stopped,
    and the sweep's snapshot lists every registered key. *)
Theorem main_leaves_no_child (fuel : nat) (c c' : controller)
    (r : result unit) :
  running_procs (os c) = ∅ ->
  all_stoppable (os c) ->
  sweep_covers c ->
  main_voice_controller fuel c = Some (r, c') ->
  running_procs (os c') = ∅.
Proof.
  intros Hempty Hstop Hcov H.
  assert (Hsound : sound (os c)).
  { split; [| exact Hstop]. intros k h Hk. rewrite Hempty in Hk.
    rewrite lookup_empty in Hk. discriminate Hk. }
  unfold main_voice_controller in H. unfold cbind at 1, cgets at 1 in H.
  destruct (dynamicbot c) as [b|].
  2:{ destruct (keeps_safe_speak _ _ _ _ H) as [Hos _]. congruence. }
  unfold cbind at 1, cgets at 1 in H.
  apply cbind_Some in H as [[[] [c1 [Hs H]]]|[e [Hs _]]].
  2:{ destruct (keeps_safe_speak _ _ _ _ Hs) as [Hos _]. congruence. }
  destruct (keeps_safe_speak _ _ _ _ Hs) as [Hos1 [Henv1 _]].
  unfold try_finally in H.
  destruct (ctry (controller_loop fuel) is_KeyboardInterrupt
              (fun _ => cret tt) c1) as [[r1 c2]|] eqn:Hloop;
    [| discriminate H].
  assert (Hsteady : steady c1 c2).
  { revert Hloop. apply (keeps_ctry steady steady_trans).
    - apply keeps_steady_loop.
    - intros e. apply (keeps_cret steady steady_refl). }
  destruct Hsteady as [Henv2 Hkeep].
  assert (Hs2 : sound (os c2)) by (apply Hkeep; rewrite Hos1; exact Hsound).
  assert (Hcov2 : sweep_covers c2).
  { unfold sweep_covers. destruct Henv1 as [_ [_ [_ [_ [_ [Ha _]]]]]].
    destruct Henv2 as [_ [_ [_ [_ [_ [Hb _]]]]]]. rewrite Hb, Ha.
    exact Hcov. }
  destruct (stop_all_sound c2 Hs2 Hcov2)
    as [c3 [Hsweep [Hreg _]]].
  rewrite Hsweep in H. injection H as _ <-. exact Hreg.
Qed.

Lemma main_leaves_no_child_witness :
  let c := sample_controller child
             [Ret None; Ret (Some "jarvis"); Ret None;
              Ret (Some "start face"); Ret None; Ret None;
              Ret (Some "Jarvis"); Ret None; Ret (Some "exit controller");
              Ret None] in
  let c' := finished (main_voice_controller 4 c) c in
  running_procs (os c') = ∅.
Proof.
  intros c c'. apply (main_leaves_no_child 4 c c' (Ret tt)).
  - reflexivity.
  - apply boot_all_stoppable. intros n p [= <-]. exact child_stoppable.
  - apply sample_covers.
  - vm_compute. reflexivity.
Defined.

(** A run of the controller: a feature is started and runs to its end,
    then the controller is told to exit. *)
Example run_start_then_exit :
  let c := sample_controller child
             [Ret None; Ret (Some "jarvis"); Ret None;
              Ret (Some "start face"); Ret None; Ret None;
              Ret (Some "Jarvis"); Ret None; Ret (Some "exit controller");
              Ret None] in
  let c' := finished (main_voice_controller 4 c) c in
  fst <$> main_voice_controller 4 c = Some (Ret tt)
  /\ outputs c' =
     [Spoken "Controller ready. Say the wake word 'jarvis' and then say start or stop followed by chatbot, face, or hand.";
      Spoken "Yes?";
      Spoken "Starting face. Controller will pause until it stops.";
      Spoken "face finished. Controller listening again.";
      Spoken "Yes?";
      Spoken "Controller shutting down. Goodbye."]
  /\ trace (os c') =
     [EvPopen ["python3"; "/bot/facerecognition.py"] "/bot" (Some 0);
      EvWait 0].
Proof. repeat split; vm_compute; reflexivity. Qed.

(** A run of the controller interrupted while it waits for the feature:
    the sweep terminates the child. *)
Example run_interrupted_while_blocked :
  let c := fresh_controller
             (boot "/bot" "python3" bot_disk (fun _ => Ret child))
             (Some the_dynamicbot)
             (scripted [Ret None; Ret (Some "jarvis"); Ret None;
                        Ret (Some "launch the hand tracker"); Ret None])
             (fun _ => Some (Raise KeyboardInterrupt)) ["hand"] in
  let c' := finished (main_voice_controller 4 c) c in
  fst <$> main_voice_controller 4 c = Some (Ret tt)
  /\ running_procs (os c') = ∅
  /\ trace (os c') =
     [EvPopen ["python3"; "/bot/objectdetection.py"] "/bot" (Some 0);
      EvWait 0; EvTerminate 0; EvWait 0].
Proof. repeat split; vm_compute; reflexivity. Qed.

(** The status report. *)
Example run_status :
  let c := sample_controller child
             [Ret (Some "jarvis"); Ret None; Ret (Some "what is the status");
              Ret None] in
  outputs
    (finished
       ((cmd <- controller_listen_for_single_command 1 ;;
         handle_command (default "" cmd))%ctl c) c)
  = [Spoken "Yes?";
     Spoken "Status: face is stopped. hand is stopped. object is stopped. servo is stopped"].
Proof. vm_compute. reflexivity. Qed.

(** ** The controller: blocking on the child *)

Lemma unsignalled_refl (c : controller) : unsignalled c c.
Proof. exists []. split; [symmetry; apply app_nil_r | constructor]. Qed.

Lemma unsignalled_trans (a b c : controller) :
  unsignalled a b -> unsignalled b c -> unsignalled a c.
Proof.
  intros [e1 [H1 F1]] [e2 [H2 F2]]. exists (e1 ++ e2)%list. split.
  - rewrite H2, H1. symmetry. apply app_assoc.
  - apply Forall_app. split; assumption.
Qed.

Lemma unsignalled_same_os (c c' : controller) :
  os c' = os c -> unsignalled c c'.
Proof.
  intros H. exists []. rewrite H. split; [symmetry; apply app_nil_r |].
  constructor.
Qed.

Lemma calm_talked {A : Type} (m : C A) : keeps talked m -> calm m.
Proof.
  intros Hm c r c' Hidle H. destruct (Hm _ _ _ H) as [Hos _].
  split; [apply unsignalled_same_os, Hos |]. intros _ _. now rewrite Hos.
Qed.

Lemma calm_cret {A : Type} (a : A) : calm (cret a).
Proof. apply calm_talked, (keeps_cret talked talked_refl). Qed.

Lemma calm_never {A : Type} : calm (@never A).
Proof. intros c r c' _ H. discriminate H. Qed.

Lemma calm_cbind {A B : Type} (m : C A) (k : A -> C B) :
  calm m -> (forall a, calm (k a)) -> calm (cbind m k).
Proof.
  intros Hm Hk c r c' Hidle H.
  apply cbind_Some in H as [[a [c1 [H1 H2]]]|[e [H1 ->]]].
  - destruct (Hm _ _ _ Hidle H1) as [Hu1 Hi1].
    destruct (Hk a _ _ _ (Hi1 a eq_refl) H2) as [Hu2 Hi2].
    split; [eapply unsignalled_trans; eassumption | exact Hi2].
  - destruct (Hm _ _ _ Hidle H1) as [Hu1 _].
    split; [exact Hu1 | discriminate].
Qed.

(** With no live registered child, stopping finds at most a stale entry. *)
Lemma calm_stop (key : string) :
  calm (lift_os (stop_subprocess_module key)).
Proof.
  intros c r c' Hidle. unfold lift_os.
  destruct (running_procs (os c) !! PyStr.lower key) as [h|] eqn:Hr.
  - rewrite (stop_exited_path key h (os c) Hr (Hidle _ _ Hr)).
    intros [= <- <-]. split.
    { exists []. split; [cbn; symmetry; apply app_nil_r | constructor]. }
    intros _ _ k h'. cbn [os set_os]. unfold unregistered.
    cbn [running_procs set_running_procs]. intros H.
    apply lookup_delete_Some in H as [_ H]. exact (Hidle _ _ H).
  - rewrite (stop_not_registered key (os c) Hr).
    intros [= <- <-]. rewrite set_os_same.
    split; [apply unsignalled_refl | intros _ _; exact Hidle].
Qed.

Lemma not_alive_after_wait (h : handle) (c c' : controller) (code : Z) :
  wait_for_exit h c = Some (Ret code, c') ->
  (exists w, os c' = log (EvWait h) w /\ w = os c /\ ~ alive h (os c))
  \/ (os c' = set_returncode h code (log (EvWait h) (os c))).
Proof.
  unfold wait_for_exit. rewrite proc_of_log.
  destruct (returncode (proc_of (os c) h)) as [c0|] eqn:Hc.
  - intros [= <- <-]. left. exists (os c). unfold alive. cbn.
    repeat split. congruence.
  - destruct (child_exit c h) as [[c1|e]|]; try discriminate.
    intros [= <- <-]. right. reflexivity.
Qed.

Lemma dead_after_set_returncode (h h' : handle) (code : Z) (w : world) :
  (h' <> h -> ~ alive h' w) ->
  (h' = h -> h < length (procs w)) ->
  ~ alive h' (set_returncode h code w).
Proof.
  intros Hother Hsame. unfold alive.
  destruct (decide (h' = h)) as [->|Hne].
  - rewrite (returncode_set h code w (Hsame eq_refl)). discriminate.
  - unfold proc_of. rewrite (lookup_set_returncode_ne h h' code w Hne).
    exact (Hother Hne).
Qed.

Lemma start_idle_outcome (key : string) (w : world) :
  idle w ->
  (start_subprocess_module key w = (Ret None, w))
  \/ (exists argv p,
        start_subprocess_module key w
        = (Ret (Some (length (procs w))), spawned (PyStr.lower key) argv p w))
  \/ (exists argv e,
        start_subprocess_module key w
        = (if is_Exception e then Ret None else Raise e,
           spawn_refused argv w)).
Proof.
  intros Hidle.
  destruct (start_cases key w)
    as [Hn|[Hm|[[Hd [h [Hr Ha]]]|[script [Hs [Hf Hl]]]]]].
  - left. unfold start_subprocess_module. rewrite Hn. reflexivity.
  - left. exact (start_script_missing key w Hm).
  - destruct (Hidle _ _ Hr Ha).
  - right. rewrite (start_spawn key script w Hs Hf Hl).
    destruct (popen_answer w (popen_calls w)) as [p|e]; [left | right]; eauto.
Qed.

Lemma alive_spawned_other (k : string) (argv : list string) (p : process)
    (h : handle) (w : world) :
  h <> length (procs w) -> alive h (spawned k argv p w) -> alive h w.
Proof.
  unfold alive, proc_of, spawned.
  cbn [procs set_running_procs log set_procs]. intros Hne.
  destruct (decide (h < length (procs w))) as [Hlt|Hge].
  - unfold handle in *. rewrite lookup_app_l by exact Hlt. tauto.
  - unfold handle in *. rewrite lookup_ge_None_2.
    + discriminate.
    + rewrite length_app. cbn [length]. lia.
Qed.

Lemma harmless_spawn (c : controller) (key : string) :
  idle (os c) ->
  unsignalled c (set_os (snd (start_subprocess_module key (os c))) c).
Proof.
  intros Hidle.
  destruct (start_idle_outcome key (os c) Hidle)
    as [->|[[argv [p ->]]|[argv [e ->]]]]; cbn [snd].
  - rewrite set_os_same. apply unsignalled_refl.
  - eexists [_]. split; [reflexivity |]. constructor; [exact I | constructor].
  - eexists [_]. split; [reflexivity |]. constructor; [exact I | constructor].
Qed.

Lemma wait_unsignalled (h : handle) (c c' : controller) (r : result Z) :
  wait_for_exit h c = Some (r, c') -> unsignalled c c'.
Proof.
  unfold wait_for_exit.
  destruct (returncode (proc_of (log (EvWait h) (os c)) h)).
  - intros [= <- <-]. exists [EvWait h]. split; [reflexivity |].
    constructor; [exact I | constructor].
  - destruct (child_exit c h) as [[code|e]|]; [| | discriminate];
      intros [= <- <-]; exists [EvWait h];
      (split; [reflexivity | constructor; [exact I | constructor]]).
Qed.

(** Starting a feature: the controller comes back from [run_feature] only
    when the child it started has exited. *)
Lemma calm_run_feature (target : string) : calm (run_feature target).
Proof.
  intros c r c' Hidle H. unfold run_feature in H.
  pose proof (harmless_spawn c target Hidle) as Hu0.
  apply cbind_Some in H as [[proc [c1 [Hstart H]]]|[e [Hstart ->]]].
  2:{ split; [| discriminate]. revert Hstart Hu0. unfold lift_os.
      destruct (start_subprocess_module target (os c)) as [r0 w1].
      intros [= _ <-]. tauto. }
  assert (Hc1 : c1 = set_os (snd (start_subprocess_module target (os c))) c).
  { revert Hstart. unfold lift_os.
    destruct (start_subprocess_module target (os c)) as [r0 w1].
    intros [= _ <-]. reflexivity. }
  assert (Hr1 : fst (start_subprocess_module target (os c)) = Ret proc).
  { revert Hstart. unfold lift_os.
    destruct (start_subprocess_module target (os c)) as [r0 w1].
    intros [= -> _]. reflexivity. }
  rewrite <- Hc1 in Hu0. clear Hstart.
  destruct proc as [h|].
  - (* a handle came back: it is the fresh one *)
    destruct (start_idle_outcome target (os c) Hidle)
      as [Hs|[[argv [p Hs]]|[argv [e Hs]]]]; rewrite Hs in Hr1, Hc1;
      cbn [fst snd] in Hr1, Hc1;
      try discriminate Hr1;
      try (destruct (is_Exception e); discriminate Hr1).
    injection Hr1 as <-.
    apply cbind_Some in H as [[[] [c2 [Hs1 H]]]|[e [Hs1 ->]]].
    2:{ split; [| discriminate].
        eapply unsignalled_trans; [exact Hu0 |].
        apply unsignalled_same_os.
        exact (proj1 (keeps_safe_speak _ _ _ _ Hs1)). }
    destruct (keeps_safe_speak _ _ _ _ Hs1) as [Hos2 _].
    apply cbind_Some in H as [[code [c3 [Hwait H]]]|[e [Hwait ->]]].
    2:{ split; [| discriminate].
        eapply unsignalled_trans; [exact Hu0 |].
        eapply unsignalled_trans;
          [apply unsignalled_same_os, Hos2 | exact (wait_unsignalled _ _ _ _ Hwait)]. }
    destruct (keeps_safe_speak _ _ _ _ H) as [Hos4 _].
    split.
    { eapply unsignalled_trans; [exact Hu0 |].
      eapply unsignalled_trans; [apply unsignalled_same_os, Hos2 |].
      eapply unsignalled_trans; [exact (wait_unsignalled _ _ _ _ Hwait) |].
      apply unsignalled_same_os, Hos4. }
    intros _ _. rewrite Hos4.
    assert (Hw1 : os c2 = spawned (PyStr.lower target) argv p (os c)).
    { rewrite Hos2, Hc1. reflexivity. }
    assert (Hothers : forall k h',
              running_procs (os c2) !! k = Some h' ->
              h' <> length (procs (os c)) -> ~ alive h' (os c2)).
    { intros k h' Hk Hne Ha. rewrite Hw1 in Hk, Ha.
      apply alive_spawned_other in Ha; [| exact Hne].
      unfold spawned in Hk. cbn [running_procs set_running_procs] in Hk.
      apply lookup_insert_Some in Hk as [[_ Hk]|[_ Hk]];
        [congruence | exact (Hidle _ _ Hk Ha)]. }
    assert (Hlen : length (procs (os c)) < length (procs (os c2))).
    { rewrite Hw1. unfold spawned. cbn [procs set_running_procs log set_procs].
      rewrite length_app. cbn [length]. lia. }
    destruct (not_alive_after_wait _ _ _ _ Hwait)
      as [[w [Hos3 [-> Hdead]]]|Hos3]; rewrite Hos3.
    + intros k h' Hk Ha.
      change (alive h' (os c2)) in Ha.
      change (running_procs (os c2) !! k = Some h') in Hk.
      destruct (decide (h' = length (procs (os c)))) as [->|Hne];
        [exact (Hdead Ha) | exact (Hothers _ _ Hk Hne Ha)].
    + intros k h' Hk.
      change (running_procs (os c2) !! k = Some h') in Hk.
      apply dead_after_set_returncode.
      * intros Hne. exact (Hothers _ _ Hk Hne).
      * intros ->. exact Hlen.
  - (* no handle: the registry is as before *)
    destruct (keeps_safe_speak _ _ _ _ H) as [Hos2 _].
    split.
    { eapply unsignalled_trans; [exact Hu0 |].
      apply unsignalled_same_os, Hos2. }
    intros _ _. rewrite Hos2, Hc1. cbn [os set_os].
    destruct (start_idle_outcome target (os c) Hidle)
      as [Hs|[[argv [p Hs]]|[argv [e Hs]]]]; rewrite Hs in Hr1 |- *;
      cbn [fst snd] in *.
    + exact Hidle.
    + discriminate Hr1.
    + exact Hidle.
Qed.

Lemma calm_stop_feature (target : string) : calm (stop_feature target).
Proof.
  apply calm_cbind; [apply calm_stop |].
  intros ok. apply calm_talked, keeps_safe_speak.
Qed.

Lemma calm_then_continue (m : C unit) :
  calm m -> calm (m ;;; cret Continue)%ctl.
Proof. intros Hm. apply calm_cbind; [exact Hm |]. intros _. apply calm_cret. Qed.

Lemma calm_handle_command (heard : string) : calm (handle_command heard).
Proof.
  unfold handle_command.
  destruct (PyStr.any_in exit_phrases (PyStr.strip (PyStr.lower heard))).
  { apply calm_cbind; [apply calm_talked, keeps_safe_speak |].
    intros _. apply calm_cret. }
  destruct (parse_start_stop_command (PyStr.strip (PyStr.lower heard)))
    as [action target].
  destruct (is_str action "status").
  { apply calm_then_continue, calm_talked, keeps_report_status. }
  destruct action as [a|], target as [t|];
    try (apply calm_then_continue, calm_talked, keeps_safe_speak).
  destruct (String.eqb a "start").
  { destruct (String.eqb t "chatbot"); apply calm_then_continue.
    - apply calm_talked, keeps_run_chatbot.
    - apply calm_run_feature. }
  destruct (String.eqb a "stop"); [| apply calm_cret].
  destruct (String.eqb t "chatbot"); apply calm_then_continue.
  - apply calm_talked, keeps_safe_speak.
  - apply calm_stop_feature.
Qed.

Lemma calm_listen (fuel : nat) :
  calm (controller_listen_for_single_command fuel).
Proof.
  apply calm_talked.
  apply (keeps_cbind talked talked_trans).
  - apply keeps_talked_listened, keeps_wake_phase.
  - intros [|]; cbn [negb]; [| apply (keeps_cret talked talked_refl)].
    apply (keeps_cbind talked talked_trans); [apply keeps_safe_speak |].
    intros _. apply keeps_talked_listened, keeps_capture.
Qed.

Lemma calm_loop (fuel : nat) : calm (controller_loop fuel).
Proof.
  induction fuel as [|fuel IH]; [apply calm_never |].
  cbn [controller_loop]. apply calm_cbind; [apply calm_listen |].
  intros [heard|]; [| exact IH].
  apply calm_cbind; [apply calm_handle_command |].
  intros [|]; [exact IH | apply calm_cret].
Qed.

Lemma calm_stop_each (keys : list string) : calm (stop_each keys).
Proof.
  induction keys as [|k keys IH]; [apply calm_cret |].
  cbn [stop_each]. apply calm_cbind; [apply calm_stop |].
  intros _. exact IH.
Qed.

(** X26. The controller blocks on the child it starts.  If no registered
    child is alive when a command is dispatched and the dispatch returns,
    then again no registered child is alive, and the dispatch has
    terminated or killed no process: a spoken stop command only ever
    clears the entry of a child that has already exited. *)
Theorem dispatch_keeps_idle (heard : string) (c c' : controller)
    (next : flow) :
  idle (os c) ->
  handle_command heard c = Some (Ret next, c') ->
  idle (os c')
  /\ exists evs,
       trace (os c') = (trace (os c) ++ evs)%list
       /\ Forall harmless evs.
Proof.
  intros Hidle H.
  destruct (calm_handle_command heard c _ c' Hidle H) as [Hu Hi].
  split; [exact (Hi next eq_refl) | exact Hu].
Qed.

(** X27. A run that ends through an exit phrase signals no process at all:
    started with no live registered child, the main loop and the sweep
    after it terminate and kill nothing; the sweep only clears entries of
    children that have exited. *)
Theorem exit_by_phrase_signals_nobody (fuel : nat) (c c1 c2 : controller)
    (r : result unit) :
  idle (os c) ->
  controller_loop fuel c = Some (Ret tt, c1) ->
  stop_all c1 = Some (r, c2) ->
  exists evs,
    trace (os c2) = (trace (os c) ++ evs)%list /\ Forall harmless evs.
Proof.
  intros Hidle Hloop Hsweep.
  destruct (calm_loop fuel c _ c1 Hidle Hloop) as [Hu1 Hi1].
  specialize (Hi1 tt eq_refl).
  unfold stop_all, cbind, cgets in Hsweep.
  destruct (calm_stop_each _ c1 _ c2 Hi1 Hsweep) as [Hu2 _].
  exact (unsignalled_trans _ _ _ Hu1 Hu2).
Qed.

Lemma dispatch_keeps_idle_witness :
  let c := sample_controller child [Ret None; Ret None] in
  let c' := finished (handle_command "Start HAND" c) c in
  idle (os c')
  /\ exists evs,
       trace (os c') = (trace (os c) ++ evs)%list
       /\ Forall harmless evs.
Proof.
  intros c c'. apply (dispatch_keeps_idle "Start HAND" c c' Continue).
  - intros k h H. vm_compute in H. discriminate H.
  - vm_compute. reflexivity.
Defined.

Lemma exit_by_phrase_signals_nobody_witness :
  let c := sample_controller child
             [Ret (Some "jarvis"); Ret None; Ret (Some "start face");
              Ret None; Ret None; Ret (Some "Jarvis"); Ret None;
              Ret (Some "exit controller"); Ret None] in
  let c1 := finished (controller_loop 4 c) c in
  let c2 := finished (stop_all c1) c1 in
  exists evs,
    trace (os c2) = (trace (os c) ++ evs)%list /\ Forall harmless evs.
Proof.
  intros c c1 c2.
  apply (exit_by_phrase_signals_nobody 4 c c1 c2 (Ret tt)).
  - intros k h H. vm_compute in H. discriminate H.
  - vm_compute. reflexivity.
  - vm_compute. reflexivity.
Defined.

(** ** The controller: which entry a command can change *)

Lemma same_entry_refl (k : string) (c : controller) : same_entry k c c.
Proof. reflexivity. Qed.

Lemma same_entry_trans (k : string) (a b c : controller) :
  same_entry k a b -> same_entry k b c -> same_entry k a c.
Proof. unfold same_entry. congruence. Qed.

Lemma keeps_entry_talked {A : Type} (k : string) (m : C A) :
  keeps talked m -> keeps (same_entry k) m.
Proof.
  apply keeps_weaken. intros c c' [Hos _]. unfold same_entry. now rewrite Hos.
Qed.

Lemma start_frame (key k' : string) (w : world) :
  k' <> PyStr.lower key ->
  running_procs (snd (start_subprocess_module key w)) !! k'
  = running_procs w !! k'.
Proof.
  intros Hk.
  destruct (start_cases key w)
    as [Hn|[Hm|[[Hd [h [Hr Ha]]]|[script [Hs [Hf Hl]]]]]].
  - unfold start_subprocess_module. rewrite Hn. reflexivity.
  - rewrite (start_script_missing key w Hm). reflexivity.
  - rewrite (start_already_running key h w Hd Hr Ha). reflexivity.
  - rewrite (start_spawn key script w Hs Hf Hl).
    destruct (popen_answer w (popen_calls w)) as [p|e]; [| reflexivity].
    unfold spawned. cbn [snd running_procs set_running_procs].
    apply lookup_insert_ne. congruence.
Qed.

Lemma stop_frame (key k' : string) (w : world) :
  k' <> PyStr.lower key ->
  running_procs (snd (stop_subprocess_module key w)) !! k'
  = running_procs w !! k'.
Proof.
  intros Hk. pose proof (stop_registry key w) as Hreg. cbv zeta in Hreg.
  rewrite Hreg.
  destruct (fst (stop_subprocess_module key w)) as [[|]|e]; try reflexivity.
  apply lookup_delete_ne. congruence.
Qed.

Lemma keeps_entry_wait (k : string) (h : handle) :
  keeps (same_entry k) (wait_for_exit h).
Proof.
  intros c r c'. unfold wait_for_exit.
  destruct (returncode (proc_of (log (EvWait h) (os c)) h)).
  - intros [= <- <-]. reflexivity.
  - destruct (child_exit c h) as [[code|e]|]; [| | discriminate];
      intros [= <- <-]; reflexivity.
Qed.

Lemma keeps_entry_run_feature (k target : string) :
  k <> PyStr.lower target -> keeps (same_entry k) (run_feature target).
Proof.
  intros Hk.
  apply (keeps_cbind (same_entry k) (same_entry_trans k)).
  - intros c r c'. unfold lift_os.
    pose proof (start_frame target k (os c) Hk) as Hf.
    destruct (start_subprocess_module target (os c)) as [r0 w1].
    intros [= <- <-]. exact Hf.
  - intros [h|]; [| apply keeps_entry_talked, keeps_safe_speak].
    apply (keeps_cbind (same_entry k) (same_entry_trans k));
      [apply keeps_entry_talked, keeps_safe_speak |].
    intros _. apply (keeps_cbind (same_entry k) (same_entry_trans k));
      [apply keeps_entry_wait |].
    intros _. apply keeps_entry_talked, keeps_safe_speak.
Qed.

Lemma keeps_entry_stop_feature (k target : string) :
  k <> PyStr.lower target -> keeps (same_entry k) (stop_feature target).
Proof.
  intros Hk.
  apply (keeps_cbind (same_entry k) (same_entry_trans k)).
  - intros c r c'. unfold lift_os.
    pose proof (stop_frame target k (os c) Hk) as Hf.
    destruct (stop_subprocess_module target (os c)) as [r0 w1].
    intros [= <- <-]. exact Hf.
  - intros ok. apply keeps_entry_talked, keeps_safe_speak.
Qed.

Lemma parse_target_cases (text : string) :
  snd (parse_start_stop_command text) = None
  \/ snd (parse_start_stop_command text) = Some "chatbot"
  \/ snd (parse_start_stop_command text) = Some "face"
  \/ snd (parse_start_stop_command text) = Some "hand".
Proof.
  unfold parse_start_stop_command.
  destruct (negb (PyStr.truthy text)); [left; reflexivity |]. cbv zeta.
  destruct (PyStr.contains "status" (PyStr.lower text));
    [left; reflexivity |].
  cbn [snd].
  destruct (PyStr.contains "chat" (PyStr.lower text)
            || PyStr.contains "assistant" (PyStr.lower text)
            || PyStr.contains "bot" (PyStr.lower text)); [tauto |].
  destruct (PyStr.contains "face" (PyStr.lower text)
            || PyStr.contains "recognize" (PyStr.lower text)
            || PyStr.contains "recognition" (PyStr.lower text)); [tauto |].
  destruct (PyStr.any_in hand_nouns (PyStr.lower text)); tauto.
Qed.

(** X28. A command changes a registry entry only if it asks for it: when a
    dispatch changes the entry of key [k], the command is no exit request,
    its action is start or stop and its target is [k]; and [k] is face or
    hand.  (The keys object and servo of the module table are out of reach
    of the voice commands.) *)
Theorem dispatch_touches_only_target (heard k : string) (c c' : controller)
    (r : result flow) :
  handle_command heard c = Some (r, c') ->
  running_procs (os c') !! k <> running_procs (os c) !! k ->
  registry_command heard k /\ (k = "face" \/ k = "hand").
Proof.
  intros H Hchanged.
  assert (Hgoal : same_entry k c c'
                  \/ (registry_command heard k /\ (k = "face" \/ k = "hand")));
    [| destruct Hgoal as [Hs|Hg]; [destruct (Hchanged Hs) | exact Hg]].
  revert H. unfold handle_command, registry_command.
  rewrite any_in_exit. fold (normalised heard).
  destruct (PyStr.any_in exit_phrases (normalised heard)) eqn:Hx.
  { intros H. left. revert H.
    apply (keeps_cbind (same_entry k) (same_entry_trans k));
      [apply keeps_entry_talked, keeps_safe_speak |].
    intros _. apply (keeps_cret _ (same_entry_refl k)). }
  pose proof (parse_target_cases (normalised heard)) as Htarget.
  destruct (parse_start_stop_command (normalised heard)) as [action target].
  cbn [fst snd] in *.
  assert (Htalk : forall m : C unit,
             keeps talked m ->
             (m ;;; cret Continue)%ctl c = Some (r, c') -> same_entry k c c').
  { intros m Hm.
    apply (keeps_then_continue _ _ (same_entry_refl k) (same_entry_trans k)).
    apply keeps_entry_talked, Hm. }
  destruct (is_str action "status").
  { intros H. left. exact (Htalk _ keeps_report_status H). }
  destruct action as [a|], target as [t|];
    try (intros H; left; exact (Htalk _ (keeps_safe_speak _) H)).
  destruct (String.eqb a "start") eqn:Ha.
  { apply String.eqb_eq in Ha. subst a.
    destruct (String.eqb t "chatbot") eqn:Ht.
    { intros H. left. exact (Htalk _ keeps_run_chatbot H). }
    apply String.eqb_neq in Ht.
    assert (Hlow : PyStr.lower t = t /\ (t = "face" \/ t = "hand")).
    { destruct Htarget as [Hn|[Hn|[Hn|Hn]]]; try discriminate Hn;
        injection Hn as ->;
        [destruct (Ht eq_refl) | split; [reflexivity | tauto] ..]. }
    destruct Hlow as [Hlow Hfh].
    destruct (decide (k = t)) as [->|Hne].
    - intros _. right. split; [| exact Hfh].
      split; [intros Hf; discriminate Hf |]. tauto.
    - intros H. left. revert H.
      apply (keeps_then_continue _ _ (same_entry_refl k) (same_entry_trans k)).
      apply keeps_entry_run_feature. congruence. }
  destruct (String.eqb a "stop") eqn:Hs.
  2:{ intros [= <- <-]. left. reflexivity. }
  apply String.eqb_eq in Hs. subst a.
  destruct (String.eqb t "chatbot") eqn:Ht.
  { intros H. left. exact (Htalk _ (keeps_safe_speak _) H). }
  apply String.eqb_neq in Ht.
  assert (Hlow : PyStr.lower t = t /\ (t = "face" \/ t = "hand")).
  { destruct Htarget as [Hn|[Hn|[Hn|Hn]]]; try discriminate Hn;
      injection Hn as ->;
      [destruct (Ht eq_refl) | split; [reflexivity | tauto] ..]. }
  destruct Hlow as [Hlow Hfh].
  destruct (decide (k = t)) as [->|Hne].
  - intros _. right. split; [| exact Hfh].
    split; [intros Hf; discriminate Hf |]. tauto.
  - intros H. left. revert H.
    apply (keeps_then_continue _ _ (same_entry_refl k) (same_entry_trans k)).
    apply keeps_entry_stop_feature. congruence.
Qed.

Lemma dispatch_touches_only_target_witness :
  registry_command "jarvis start the hand tracker" "hand"
  /\ ("hand" = "face" \/ "hand" = "hand").
Proof.
  apply (dispatch_touches_only_target "jarvis start the hand tracker" "hand"
           (sample_controller child [Ret None; Ret None])
           (finished
              (handle_command "jarvis start the hand tracker"
                 (sample_controller child [Ret None; Ret None]))
              (sample_controller child [Ret None; Ret None]))
           (Ret Continue)).
  - vm_compute. reflexivity.
  - vm_compute. discriminate.
Defined.

(** ** The wake loop inside the controller and the wake gate *)

Lemma upcoming_succ (c : controller) (n : nat) :
  upcoming c (S n)
  = ext c (ticks c) :: upcoming (set_ticks (S (ticks c)) c) n.
Proof.
  unfold upcoming. cbn [seq map ext ticks set_ticks].
  rewrite Nat.add_0_r. f_equal. rewrite <- seq_shift, map_map.
  apply map_ext. intros i. f_equal. lia.
Qed.

Lemma wake_loop_body (wakeword : string) (max_attempts : option Z)
    (attempts : Z) (text : option string)
    (rest : list (result (option string))) :
  budget_spent max_attempts attempts = false ->
  wake_loop wakeword max_attempts attempts (Ret text :: rest)
  = wake_body wakeword text
      (wake_loop wakeword max_attempts (attempts + 1) rest).
Proof. intros Hb. cbn [wake_loop]. rewrite Hb. reflexivity. Qed.

Lemma wake_rounds_agrees (wakeword : string) (max_attempts : option Z)
    (fuel : nat) :
  forall (attempts : Z) (c c' : controller) (r : result bool),
    wake_rounds fuel wakeword max_attempts attempts c = Some (r, c') ->
    wake_loop wakeword max_attempts attempts
      (upcoming c (ticks c' - ticks c))
    = Some r.
Proof.
  induction fuel as [|fuel IH]; intros attempts c c' r H; [discriminate H |].
  cbn [wake_rounds] in H.
  destruct (budget_spent max_attempts attempts) eqn:Hb.
  { injection H as <- <-. rewrite Nat.sub_diag. cbn. rewrite Hb. reflexivity. }
  (* what the rest of the loop does from a later state [c1] *)
  assert (Hnext : forall c1 text,
            ext c1 = ext c ->
            (match text with
             | Some s =>
                 if PyStr.truthy s then
                   if wake_match wakeword (PyStr.strip (PyStr.lower s))
                   then cret true
                   else wake_rounds fuel wakeword max_attempts (attempts + 1)
                 else wake_rounds fuel wakeword max_attempts (attempts + 1)
             | None => wake_rounds fuel wakeword max_attempts (attempts + 1)
             end) c1 = Some (r, c') ->
            ticks c1 <= ticks c'
            /\ wake_body wakeword text
                 (wake_loop wakeword max_attempts (attempts + 1)
                    (upcoming c1 (ticks c' - ticks c1)))
               = Some r).
  { intros c1 text Hext Hk.
    assert (Hrec : wake_rounds fuel wakeword max_attempts (attempts + 1) c1
                   = Some (r, c') ->
                   ticks c1 <= ticks c'
                   /\ wake_loop wakeword max_attempts (attempts + 1)
                        (upcoming c1 (ticks c' - ticks c1)) = Some r).
    { intros Hr. split; [| exact (IH _ _ _ _ Hr)].
      destruct (keeps_wake_rounds _ _ _ _ _ _ _ Hr) as [_ [_ [_ Ht]]].
      exact Ht. }
    destruct text as [s|]; cbn [wake_body]; [| exact (Hrec Hk)].
    destruct (PyStr.truthy s); [| exact (Hrec Hk)].
    destruct (wake_match wakeword (PyStr.strip (PyStr.lower s)));
      [| exact (Hrec Hk)].
    injection Hk as <- <-. split; [lia | reflexivity]. }
  unfold cbind, ctry2, external, answer, cret in H.
  cbn [ext ticks say_asides] in H.
  destruct (ext c (ticks c)) as [text|e] eqn:H0.
  - (* the call returned *)
    destruct (Hnext (set_ticks (S (ticks c)) (say_asides c)) text eq_refl H)
      as [Ht Hw].
    cbn [ticks set_ticks say_asides] in Ht.
    replace (ticks c' - ticks c) with (S (ticks c' - S (ticks c))) by lia.
    rewrite upcoming_succ, H0, (wake_loop_body _ _ _ _ _ Hb). exact Hw.
  - destruct (is_TypeError e) eqn:Hte.
    + (* the call raised TypeError: the retry *)
      destruct e; try discriminate Hte.
      cbn [ext ticks set_ticks say_asides] in H.
      destruct (ext c (S (ticks c))) as [text|e'] eqn:H1.
      * destruct (Hnext
                    (set_ticks (S (S (ticks c)))
                       (say_asides (set_ticks (S (ticks c)) (say_asides c))))
                    text eq_refl H) as [Ht Hw].
        cbn [ticks set_ticks say_asides] in Ht.
        replace (ticks c' - ticks c)
          with (S (S (ticks c' - S (S (ticks c))))) by lia.
        rewrite upcoming_succ, H0, upcoming_succ.
        cbn [ext ticks set_ticks]. rewrite H1.
        cbn [wake_loop]. rewrite Hb. exact Hw.
      * injection H as <- <-. cbn [ticks set_ticks say_asides].
        replace (S (S (ticks c)) - ticks c) with 2 by lia.
        rewrite upcoming_succ, H0, upcoming_succ.
        cbn [ext ticks set_ticks]. rewrite H1.
        cbn [wake_loop]. rewrite Hb. reflexivity.
    + destruct (is_Exception e) eqn:Hex.
      * (* an ordinary error: the round counts as silence *)
        destruct (Hnext (set_ticks (S (ticks c)) (say_asides c)) None
                    eq_refl H) as [Ht Hw].
        cbn [ticks set_ticks say_asides] in Ht. cbn [wake_body] in Hw.
        replace (ticks c' - ticks c) with (S (ticks c' - S (ticks c))) by lia.
        rewrite upcoming_succ, H0. cbn [wake_loop]. rewrite Hb.
        destruct e; try discriminate Hte; try discriminate Hex;
          cbn [is_Exception wake_body]; exact Hw.
      * injection H as <- <-. cbn [ticks set_ticks say_asides].
        replace (S (ticks c) - ticks c) with 1 by lia.
        rewrite upcoming_succ, H0. cbn [wake_loop]. rewrite Hb.
        destruct e; try discriminate Hex. reflexivity.
Qed.

(** X29. The wake loop as the controller runs it is the wake gate: when the
    fallback listening inside the controller comes back, its result is
    what [listen_for_wakeword_fallback] gives on the answers of
    [dynamicbot.listen] that were consumed. *)
Theorem wake_fallback_agrees (fuel : nat) (wakeword : string)
    (max_attempts : option Z) (c c' : controller) (r : result bool) :
  wake_fallback fuel wakeword max_attempts c = Some (r, c') ->
  listen_for_wakeword_fallback (hasattr attr_listen c) wakeword max_attempts
    (upcoming c (ticks c' - ticks c))
  = Some r.
Proof.
  unfold wake_fallback, listen_for_wakeword_fallback, cbind, cgets.
  destruct (hasattr attr_listen c); cbn [negb].
  - apply wake_rounds_agrees.
  - intros [= <- <-]. reflexivity.
Qed.

Lemma wake_fallback_agrees_witness :
  let c := sample_controller child
             [Ret None; Raise TypeError; Ret (Some "hello");
              Raise OSError; Ret (Some "Jarvis, stop"); Ret (Some "jarvis")]
  in
  listen_for_wakeword_fallback (hasattr attr_listen c) "jarvis" None
    (upcoming c (ticks (set_ticks 6 c) - ticks c))
  = Some (Ret true).
Proof.
  intros c.
  apply (wake_fallback_agrees 9 "jarvis" None c (set_ticks 6 c) (Ret true)).
  vm_compute. reflexivity.
Defined.

